(** * SegViT: semantic grouping and reconstruction (modules/module_seg_vit.py)

    A shallow embedding of the forward pass of [SegViT] and of the modules it
    is built from, with the properties of the grouping / reconstruction core.

    Conventions of the embedding.
    - A tensor is a shape together with an element function on multi-indices;
      only the elements at in-range indices are meaningful.
    - Tensor elements are real numbers carried with a tangent (forward-mode
      derivative), so that [detach] has a meaning; rounding of floating-point
      arithmetic is not modelled.
    - A module's mutable state (its [training] flag and its named parameters)
      and the random generator live in an explicit state that every [forward]
      threads; Python exceptions are the [Raise] outcome.
    - The operations of the tensor library are written out from their
      documented behaviour, except [nn.MultiheadAttention] and the exact GELU,
      which are parameters of the development; the attention primitive is
      known by two contracts only: on length-major arguments it returns a
      tensor shaped like its query, and it rejects a key whose batch axis is
      not the batch axis of the query. *)

From Stdlib Require Import Ascii String DecimalString.
From Stdlib Require Import Reals Lra Lia ZArith Bool Arith List.
Import ListNotations.

Set Implicit Arguments.

(** ** Scalars with a tangent *)

Record Dual : Type := mkDual { val : R; der : R }.

Definition dconst (r : R) : Dual := mkDual r 0.
Definition detach_s (a : Dual) : Dual := mkDual (val a) 0.
Definition dadd (a b : Dual) : Dual := mkDual (val a + val b) (der a + der b).
Definition dsub (a b : Dual) : Dual := mkDual (val a - val b) (der a - der b).
Definition dneg (a : Dual) : Dual := mkDual (- val a) (- der a).
Definition dmul (a b : Dual) : Dual :=
  mkDual (val a * val b) (der a * val b + val a * der b).
Definition ddiv (a b : Dual) : Dual :=
  mkDual (val a / val b)
         ((der a * val b - val a * der b) / (val b * val b)).
Definition dexp (a : Dual) : Dual := mkDual (exp (val a)) (der a * exp (val a)).
Definition dsqrt (a : Dual) : Dual :=
  mkDual (sqrt (val a)) (der a / (2 * sqrt (val a))).

Fixpoint dsum (n : nat) (f : nat -> Dual) : Dual :=
  match n with
  | O => dconst 0
  | S k => dadd (dsum k f) (f k)
  end.

Fixpoint rsum (n : nat) (f : nat -> R) : R :=
  match n with
  | O => 0%R
  | S k => (rsum k f + f k)%R
  end.

(** First index of a maximum of [f] on [0 .. n-1] (ties go to the first
    occurrence, as [torch.max] does on CPU). *)
Fixpoint argmax (f : nat -> R) (n : nat) : nat :=
  match n with
  | O => O
  | S k => let m := argmax f k in if Rlt_dec (f m) (f k) then k else m
  end.

(** ** Outcomes and exceptions *)

Inductive Error : Type :=
| NotImplementedError | RuntimeError | ValueError | IndexError | ZeroDivisionError
| AssertionError.

Inductive Res (A : Type) : Type :=
| Ok (a : A)
| Raise (e : Error).
Arguments Ok {A} a.
Arguments Raise {A} e.

Definition rbind {A B} (r : Res A) (f : A -> Res B) : Res B :=
  match r with
  | Ok a => f a
  | Raise e => Raise e
  end.

Declare Scope res_scope.
Delimit Scope res_scope with res.
Notation "x <- r ;; k" := (rbind r (fun x => k))
  (at level 61, r at next level, right associativity) : res_scope.
Notation "' p <- r ;; k" := (rbind r (fun p => k))
  (at level 61, p pattern, r at next level, right associativity) : res_scope.

(** ** Tensors *)

Record Tensor (A : Type) : Type := mkTensor { shape : list nat; get : list nat -> A }.
Arguments mkTensor {A} shape get.

Definition FT := Tensor Dual.

Definition ndim {A} (t : Tensor A) : nat := length (shape t).

(** Size of axis [d]; a 0-dim tensor counts as one element along axis 0. *)
Definition dim_size (sh : list nat) (d : nat) : nat := nth d sh 1.

Fixpoint set_nth (d k : nat) (idx : list nat) {struct idx} : list nat :=
  match idx, d with
  | [], _ => []
  | _ :: r, O => k :: r
  | i :: r, S d' => i :: set_nth d' k r
  end.

Definition in_range (sh idx : list nat) : Prop := Forall2 lt idx sh.

Fixpoint in_rangeb (sh idx : list nat) : bool :=
  match sh, idx with
  | [], [] => true
  | n :: sh', i :: idx' => (i <? n) && in_rangeb sh' idx'
  | _, _ => false
  end.

Fixpoint numel (sh : list nat) : nat :=
  match sh with
  | [] => 1
  | n :: r => n * numel r
  end.

(** Row-major position of a multi-index. *)
Fixpoint flat (sh idx : list nat) : nat :=
  match sh, idx with
  | _ :: r, i :: idx' => i * numel r + flat r idx'
  | _, _ => 0
  end.

(** [torch]'s wrapping of a possibly negative axis number. *)
Definition wrap_dim (n : nat) (d : Z) : Res nat :=
  let r := Z.of_nat (Nat.max n 1) in
  if ((d <? - r) || (r <=? d))%Z then Raise IndexError
  else Ok (Z.to_nat (if (d <? 0)%Z then d + r else d)%Z).

Definition tmap {A B} (f : A -> B) (t : Tensor A) : Tensor B :=
  mkTensor (shape t) (fun idx => f (get t idx)).

Definition detach (t : FT) : FT := tmap detach_s t.
Definition zeros_like (t : FT) : FT := mkTensor (shape t) (fun _ => dconst 0).
Definition div_scalar (t : FT) (r : R) : FT := tmap (fun a => ddiv a (dconst r)) t.

(** Broadcasting of two shapes, aligned on the last axis (on reversed shapes). *)
Fixpoint broadcast_rev (a b : list nat) : option (list nat) :=
  match a, b with
  | [], _ => Some b
  | _, [] => Some a
  | x :: a', y :: b' =>
      match broadcast_rev a' b' with
      | None => None
      | Some r =>
          if x =? y then Some (x :: r)
          else if x =? 1 then Some (y :: r)
          else if y =? 1 then Some (x :: r)
          else None
      end
  end.

Definition broadcast_shapes (a b : list nat) : option (list nat) :=
  option_map (@rev nat) (broadcast_rev (rev a) (rev b)).

Fixpoint zip_with {A B C} (f : A -> B -> C) (l : list A) (m : list B) : list C :=
  match l, m with
  | x :: l', y :: m' => f x y :: zip_with f l' m'
  | _, _ => []
  end.

(** The index an operand of shape [sh] is read at, for the index [idx] of the
    broadcast result: leading axes dropped, axes of size 1 read at 0. *)
Definition bidx (sh idx : list nat) : list nat :=
  zip_with (fun n i => if n =? 1 then 0 else i) sh
           (skipn (length idx - length sh) idx).

Definition binop (f : Dual -> Dual -> Dual) (a b : FT) : Res FT :=
  match broadcast_shapes (shape a) (shape b) with
  | None => Raise RuntimeError
  | Some sh =>
      Ok (mkTensor sh (fun idx => f (get a (bidx (shape a) idx))
                                    (get b (bidx (shape b) idx))))
  end.

Definition tadd := binop dadd.
Definition tsub := binop dsub.
Definition tmul := binop dmul.
Definition tdiv := binop ddiv.

(** [x.softmax(dim)] *)
Definition softmax (x : FT) (dim : Z) : Res FT :=
  (d <- wrap_dim (ndim x) dim ;;
   Ok (mkTensor (shape x) (fun idx =>
         ddiv (dexp (get x idx))
              (dsum (dim_size (shape x) d)
                    (fun k => dexp (get x (set_nth d k idx)))))))%res.

(** [x.max(dim, keepdim=True)]: the maxima and their positions. *)
Definition max_keepdim (x : FT) (dim : Z) : Res (FT * Tensor nat) :=
  (d <- wrap_dim (ndim x) dim ;;
   if dim_size (shape x) d =? 0 then Raise IndexError
   else
     let am idx := argmax (fun k => val (get x (set_nth d k idx)))
                          (dim_size (shape x) d) in
     Ok (mkTensor (set_nth d 1 (shape x)) (fun idx => get x (set_nth d (am idx) idx)),
         mkTensor (set_nth d 1 (shape x)) am))%res.

Fixpoint forallb2 {A B} (f : A -> B -> bool) (l : list A) (m : list B) : bool :=
  match l, m with
  | [], [] => true
  | x :: l', y :: m' => f x y && forallb2 f l' m'
  | _, _ => false
  end.

(** Same rank, and [a] no larger than [b] on every axis but [d]. *)
Fixpoint le_except (d : nat) (a b : list nat) {struct a} : bool :=
  match a, b, d with
  | [], [], _ => true
  | _ :: a', _ :: b', O => forallb2 Nat.leb a' b'
  | x :: a', y :: b', S d' => (x <=? y) && le_except d' a' b'
  | _, _, _ => false
  end.

(** [self.scatter_(dim, index, value)]: position [j] receives [value] when
    some entry [i] of [index] has [index[i] = j[dim]] and agrees with [j] on
    the other axes.  (torch also rejects index values outside the axis; such
    values select no position here.) *)
Definition scatter_ (self : FT) (dim : Z) (index : Tensor nat) (value : Dual) : Res FT :=
  (d <- wrap_dim (ndim self) dim ;;
   if negb (le_except d (shape index) (shape self)) then Raise RuntimeError
   else
     Ok (mkTensor (shape self) (fun j =>
           if existsb (fun r => let i := set_nth d r j in
                                in_rangeb (shape index) i && (get index i =? nth d j 0))
                      (seq 0 (dim_size (shape index) d))
           then value else get self j)))%res.

(** ** Module state, random generator, and the monad of [forward] *)

(** [training]: the flag [Module.train(mode)] sets on a module and all its
    descendants.  [params]: the values of the named parameters (their shapes
    are fixed by the constructors).  [gen]: the stream of uniform variates the
    global random generator will deliver next. *)
Record State : Type := mkState {
  training : bool;
  params : string -> list nat -> Dual;
  gen : nat -> R
}.

Definition set_gen (g : nat -> R) (s : State) : State :=
  mkState (training s) (params s) g.

Definition M (A : Type) : Type := State -> Res A * State.

Definition ret {A} (a : A) : M A := fun s => (Ok a, s).
Definition raise {A} (e : Error) : M A := fun s => (Raise e, s).
Definition bind {A B} (m : M A) (f : A -> M B) : M B :=
  fun s => match m s with
           | (Ok a, s') => f a s'
           | (Raise e, s') => (Raise e, s')
           end.
Definition lift {A} (r : Res A) : M A := fun s => (r, s).
Definition get_training : M bool := fun s => (Ok (training s), s).
Definition get_params : M (string -> list nat -> Dual) := fun s => (Ok (params s), s).

Declare Scope M_scope.
Delimit Scope M_scope with M.
Notation "x <- m ;; k" := (bind m (fun x => k))
  (at level 61, m at next level, right associativity) : M_scope.
Notation "' p <- m ;; k" := (bind m (fun p => k))
  (at level 61, p pattern, m at next level, right associativity) : M_scope.
Open Scope M_scope.

(** Reading the parameter [name], whose shape the constructor fixed to [sh]. *)
Definition read_param (name : string) (sh : list nat) : M FT :=
  w <- get_params ;; ret (mkTensor sh (w name)).

(** Drawing a tensor of shape [sh]: element [idx] is made from the variate at
    its row-major position, and the generator moves past the variates used. *)
Definition draw (sh : list nat) (f : R -> R) : M FT :=
  fun s => (Ok (mkTensor sh (fun idx => dconst (f (gen s (flat sh idx))))),
            set_gen (fun i => gen s (i + numel sh)) s).

(** [torch.rand(shape)] *)
Definition rand (sh : list nat) : M FT := draw sh (fun u => u).

(** [Gumbel(loc, scale).sample(shape)]: the inverse-CDF transform
    [loc - scale * log(-log u)] of uniform variates. *)
Definition Gumbel_sample (loc scale : R) (sh : list nat) : M FT :=
  draw sh (fun u => loc - scale * ln (- ln u))%R.

(** ** The differentiable hard-routing function *)

Definition gumbel_softmax (logits : FT) (tau : R) (hard : bool) (dim : Z)
           (is_training : bool) : M FT :=
  y_soft <- (if is_training then
               gumbels <- Gumbel_sample 0 1 (shape logits) ;;
               gumbels <- lift (tadd logits gumbels) ;;
               let gumbels := div_scalar gumbels tau in  (* ~Gumbel(logits,tau) *)
               lift (softmax gumbels dim)
             else lift (softmax logits dim)) ;;
  if hard then
    (* Straight through. *)
    '(_, index) <- lift (max_keepdim y_soft dim) ;;
    y_hard <- lift (scatter_ (zeros_like logits) dim index (dconst 1)) ;;
    t <- lift (tsub y_hard (detach y_soft)) ;;
    lift (tadd t y_soft)
  else
    (* Reparametrization trick. *)
    ret y_soft.

(** ** Further tensor operations used by the modules *)

Fixpoint index_of (a : nat) (l : list nat) : nat :=
  match l with
  | [] => 0
  | x :: r => if x =? a then 0 else S (index_of a r)
  end.

Definition is_perm (dims : list nat) (n : nat) : bool :=
  (length dims =? n) && forallb (fun a => existsb (Nat.eqb a) dims) (seq 0 n).

(** [x.permute(dims)]: axis [k] of the result is axis [dims[k]] of [x]. *)
Definition permute {A} (x : Tensor A) (dims : list nat) : Res (Tensor A) :=
  if is_perm dims (ndim x) then
    Ok (mkTensor (map (fun d => nth d (shape x) 0) dims)
                 (fun idx => get x (map (fun a => nth (index_of a dims) idx 0)
                                        (seq 0 (ndim x)))))
  else Raise RuntimeError.

(** Same rank and same sizes on every axis but [d]. *)
Fixpoint eq_except (d : nat) (a b : list nat) {struct a} : bool :=
  match a, b, d with
  | [], [], _ => true
  | _ :: a', _ :: b', O => forallb2 Nat.eqb a' b'
  | x :: a', y :: b', S d' => (x =? y) && eq_except d' a' b'
  | _, _, _ => false
  end.

(** [torch.split(x, [s1, s2], dim)] *)
Definition split2 (x : FT) (s1 s2 : Z) (dim : Z) : Res (FT * FT) :=
  (d <- wrap_dim (ndim x) dim ;;
   if (ndim x =? 0) || (s1 <? 0)%Z || (s2 <? 0)%Z
      || negb (s1 + s2 =? Z.of_nat (nth d (shape x) 0%nat))%Z
   then Raise RuntimeError
   else
     let n1 := Z.to_nat s1 in
     Ok (mkTensor (set_nth d n1 (shape x)) (get x),
         mkTensor (set_nth d (Z.to_nat s2) (shape x))
                  (fun idx => get x (set_nth d (nth d idx 0 + n1) idx))))%res.

(** [torch.cat([a, b], dim)] (the exemption for legacy empty 1-D operands is
    not modelled). *)
Definition cat2 (a b : FT) (dim : Z) : Res FT :=
  (d <- wrap_dim (ndim a) dim ;;
   if (ndim a =? 0) || negb (eq_except d (shape a) (shape b)) then Raise RuntimeError
   else
     let n1 := nth d (shape a) 0 in
     Ok (mkTensor (set_nth d (n1 + nth d (shape b) 0) (shape a))
                  (fun idx => if nth d idx 0 <? n1 then get a idx
                              else get b (set_nth d (nth d idx 0 - n1) idx))))%res.

Fixpoint insert_at {A} (d : nat) (x : A) (l : list A) : list A :=
  match d, l with
  | O, _ => x :: l
  | S d', y :: r => y :: insert_at d' x r
  | S _, [] => [x]
  end.

Fixpoint remove_at {A} (d : nat) (l : list A) {struct l} : list A :=
  match l, d with
  | [], _ => []
  | _ :: r, O => r
  | y :: r, S d' => y :: remove_at d' r
  end.

Definition unsqueeze (t : FT) (dim : Z) : Res FT :=
  (d <- wrap_dim (ndim t + 1) dim ;;
   Ok (mkTensor (insert_at d 1 (shape t)) (fun idx => get t (remove_at d idx))))%res.

(** [torch.sum(t, dim)] *)
Definition sum_dim (t : FT) (dim : Z) : Res FT :=
  (d <- wrap_dim (ndim t) dim ;;
   if ndim t =? 0 then Ok t
   else Ok (mkTensor (remove_at d (shape t))
                     (fun idx => dsum (dim_size (shape t) d)
                                      (fun k => get t (insert_at d k idx)))))%res.

(** [torch.mean(t, dim, keepdim=True)] *)
Definition mean_keepdim (t : FT) (dim : Z) : Res FT :=
  (d <- wrap_dim (ndim t) dim ;;
   Ok (mkTensor (set_nth d 1 (shape t))
                (fun idx => ddiv (dsum (dim_size (shape t) d)
                                       (fun k => get t (set_nth d k idx)))
                                 (dconst (INR (dim_size (shape t) d))))))%res.

(** [torch.clamp_min(t, min)] *)
Definition clamp_min (t : FT) (min : R) : FT :=
  tmap (fun a => if Rlt_dec (val a) min then dconst min else a) t.

(** [t.repeat(reps)] *)
Definition repeat_t (t : FT) (reps : list nat) : Res FT :=
  if length reps <? ndim t then Raise RuntimeError
  else
    let k := length reps - ndim t in
    let padded := repeat 1 k ++ shape t in
    Ok (mkTensor (zip_with Nat.mul padded reps)
                 (fun idx => get t (zip_with (fun i n => i mod n) (skipn k idx) (shape t)))).

(** [t.expand(sizes)] for as many sizes as axes; [-1] keeps an axis. *)
Definition expand (t : FT) (sizes : list Z) : Res FT :=
  if forallb2 (fun n z => (z =? -1)%Z || (Z.of_nat n =? z)%Z || ((n =? 1) && (0 <=? z)%Z))
              (shape t) sizes
  then Ok (mkTensor (zip_with (fun n z => if (z =? -1)%Z then n else Z.to_nat z)
                              (shape t) sizes)
                    (fun idx => get t (bidx (shape t) idx)))
  else Raise RuntimeError.

(** [t.repeat_interleave(r, dim=0)] *)
Definition repeat_interleave0 (t : FT) (r : nat) : Res FT :=
  if ndim t =? 0 then Raise IndexError
  else Ok (mkTensor (set_nth 0 (nth 0 (shape t) 0 * r) (shape t))
                    (fun idx => get t (set_nth 0 (nth 0 idx 0 / r) idx))).

Definition bcast1 (x y : nat) : option nat :=
  if x =? y then Some x else if x =? 1 then Some y else if y =? 1 then Some x else None.

Definition pick (n i : nat) : nat := if n =? 1 then 0 else i.

(** Contraction of one of the two trailing axes of [a] with one of the two
    trailing axes of [b]; the leading axes (the ellipsis) broadcast, and so
    does a contracted axis of size 1.  [ca] ([cb]): the contracted axis of [a]
    ([b]) is its last one.  [afirst]: the free axis of [a] comes first in the
    result. *)
Definition contract2 (ca cb afirst : bool) (a b : FT) : Res FT :=
  let na := ndim a in
  let nb := ndim b in
  if (na <? 2) || (nb <? 2) then Raise RuntimeError
  else
    let La := firstn (na - 2) (shape a) in
    let Lb := firstn (nb - 2) (shape b) in
    let a2 := nth (na - 2) (shape a) 0 in
    let a1 := nth (na - 1) (shape a) 0 in
    let b2 := nth (nb - 2) (shape b) 0 in
    let b1 := nth (nb - 1) (shape b) 0 in
    let Ka := if ca then a1 else a2 in
    let Fa := if ca then a2 else a1 in
    let Kb := if cb then b1 else b2 in
    let Fb := if cb then b2 else b1 in
    match broadcast_shapes La Lb, bcast1 Ka Kb with
    | Some L, Some K =>
        Ok (mkTensor (L ++ (if afirst then [Fa; Fb] else [Fb; Fa]))
              (fun idx =>
                 let bi := firstn (length L) idx in
                 let o1 := nth (length L) idx 0 in
                 let o2 := nth (length L + 1) idx 0 in
                 let fa := if afirst then o1 else o2 in
                 let fb := if afirst then o2 else o1 in
                 dsum K (fun i =>
                   dmul (get a (bidx La bi ++ (if ca then [fa; pick Ka i] else [pick Ka i; fa])))
                        (get b (bidx Lb bi ++ (if cb then [fb; pick Kb i] else [pick Kb i; fb]))))))
    | _, _ => Raise RuntimeError
    end.

(** [torch.einsum(equation, a, b)] for the three equations the modules use. *)
Definition einsum (equation : string) (a b : FT) : Res FT :=
  if String.eqb equation "...si,...di->...sd" then contract2 true true true a b
  else if String.eqb equation "...si,...id->...sd" then contract2 true false true a b
  else if String.eqb equation "...dh,...md->...mh" then contract2 false true false a b
  else Raise RuntimeError.

Definition last_axis (sh : list nat) : nat := nth (length sh - 1) sh 0.
Definition set_last (v : nat) (l : list nat) : list nat := set_nth (length l - 1) v l.

(** [F.linear(x, weight, bias)] *)
Definition linear (x weight bias : FT) : Res FT :=
  if (ndim x =? 0) || negb (ndim weight =? 2)
     || negb (last_axis (shape x) =? nth 1 (shape weight) 0)
     || negb (forallb2 Nat.eqb (shape bias) [nth 0 (shape weight) 0])
  then Raise RuntimeError
  else
    Ok (mkTensor (set_last (nth 0 (shape weight) 0) (shape x))
          (fun idx =>
             let o := last_axis idx in
             dadd (dsum (nth 1 (shape weight) 0)
                        (fun i => dmul (get x (set_last i idx)) (get weight [o; i])))
                  (get bias [o]))).

(** [F.layer_norm(x, (n,), weight, bias, eps)] over the last axis. *)
Definition layer_norm (x : FT) (n : nat) (weight bias : FT) (eps : R) : Res FT :=
  if (ndim x =? 0) || negb (last_axis (shape x) =? n) then Raise RuntimeError
  else
    Ok (mkTensor (shape x)
          (fun idx =>
             let c := last_axis idx in
             let row k := get x (set_last k idx) in
             let mean := ddiv (dsum n row) (dconst (INR n)) in
             let var := ddiv (dsum n (fun k => let e := dsub (row k) mean in dmul e e))
                             (dconst (INR n)) in
             dadd (dmul (ddiv (dsub (get x idx) mean) (dsqrt (dadd var (dconst eps))))
                        (get weight [c]))
                  (get bias [c]))).

(** [F.conv1d] with kernel size 1, stride 1, no padding, no bias, on a
    (batch, channels, length) input.  An input of length 0 is rejected: the
    kernel is longer than the input. *)
Definition conv1d_k1 (x weight : FT) (c_in c_out groups : nat) : Res FT :=
  match shape x with
  | [B; C; L] =>
      if L =? 0 then Raise RuntimeError
      else if C =? c_in then
        Ok (mkTensor [B; c_out; L]
              (fun idx =>
                 let b := nth 0 idx 0 in
                 let o := nth 1 idx 0 in
                 let l := nth 2 idx 0 in
                 let gi := c_in / groups in
                 let go := c_out / groups in
                 dsum gi (fun i => dmul (get weight [o; i; 0])
                                        (get x [b; (o / go) * gi + i; l]))))
      else Raise RuntimeError
  | _ => Raise RuntimeError
  end.

Definition Reqb (a b : R) : bool := if Req_dec_T a b then true else false.
Definition Rltb (a b : R) : bool := if Rlt_dec a b then true else false.

(** [F.dropout(x, p, training)]: the input itself when [p = 0] or outside
    training; otherwise a Bernoulli(1-p) mask scaled by [1/(1-p)]. *)
Definition dropout (x : FT) (p : R) (training : bool) : M FT :=
  if Reqb p 0 || negb training then ret x
  else
    mask <- draw (shape x) (fun u => if Rlt_dec u (1 - p) then (1 / (1 - p))%R else 0%R) ;;
    lift (tmul x mask).

(** [x * torch.sigmoid(1.702 * x)] on one element. *)
Definition quick_gelu (x : Dual) : Dual :=
  dmul x (ddiv (dconst 1) (dadd (dconst 1) (dexp (dneg (dmul (dconst 1.702) x))))).

(** Path of a sub-module or parameter below [prefix]. *)
Definition sub (prefix name : string) : string :=
  String.append prefix (String "."%char name).

(** Python's [str(i)] for a non-negative integer. *)
Definition str (i : nat) : string := NilEmpty.string_of_uint (Nat.to_uint i).

Fixpoint foldM {A B} (f : A -> B -> M A) (a : A) (l : list B) : M A :=
  match l with
  | [] => ret a
  | b :: r => a' <- f a b ;; foldM f a' r
  end.

(** A stand-in for the attention primitive, used to instantiate the
    development: it checks the shapes the primitive accepts, the batch axis of
    the key being the batch axis of the query, and returns the query. *)
Definition ref_attention (w : string -> list nat -> Dual) (name : string)
           (E H : nat) (q k v : FT) (mask : option FT) : option FT :=
  match shape q, shape k with
  | [L; Nq; E1], [Sk; Nk; E2] =>
      if (E1 =? E) && (E2 =? E) && forallb2 Nat.eqb (shape v) (shape k)
         && (0 <? H) && (E mod H =? 0) && (0 <? Nq) && (Nk =? Nq)
      then Some (mkTensor [L; Nq; E] (get q))
      else None
  | _, _ => None
  end.

(** ** The modules *)

Section Modules.

(** The two primitives of the host tensor library that are taken by contract:
    [nn.MultiheadAttention]'s forward (applied to the parameter values, the
    module's path, its embedding width and head count, then query, key, value
    and the optional mask; [None] when it rejects its arguments) and the exact
    GELU activation. *)
Variable multi_head_attention :
  (string -> list nat -> Dual) -> string -> nat -> nat ->
  FT -> FT -> FT -> option FT -> option FT.
Variable GELU : Dual -> Dual.

(** The primitive takes length-major arguments: a query (L, N, E) and a key
    and a value (S, N, E) with the batch size N of the query.  On such
    arguments, with a head count that divides the width, it returns a tensor
    shaped like the query. *)
Hypothesis multi_head_attention_shape :
  forall w name E H q k v L N Sk,
    shape q = [L; N; E] -> shape k = [Sk; N; E] -> shape v = [Sk; N; E] ->
    0 < H -> E mod H = 0 -> 0 < N ->
    exists y, multi_head_attention w name E H q k v None = Some y /\
              shape y = [L; N; E].

(** A non-empty key whose second axis is not the batch size of the query is
    rejected: the primitive reshapes the projected key with
    [view(S, N * heads, head_dim)], which the key's S * Nk * E elements do not
    fill. *)
Hypothesis multi_head_attention_batch :
  forall w name E H q k v L Nq Sk Nk,
    shape q = [L; Nq; E] -> shape k = [Sk; Nk; E] -> shape v = [Sk; Nk; E] ->
    0 < H -> E mod H = 0 -> 0 < E -> 0 < Sk -> Nk <> Nq ->
    multi_head_attention w name E H q k v None = None.

Record Linear : Type := mkLinear {
  lin_name : string; in_features : nat; out_features : nat }.

Definition Linear_forward (self : Linear) (x : FT) : M FT :=
  weight <- read_param (sub (lin_name self) "weight")
                       [out_features self; in_features self] ;;
  bias <- read_param (sub (lin_name self) "bias") [out_features self] ;;
  lift (linear x weight bias).

Record LayerNorm : Type := mkLayerNorm { ln_name : string; normalized_shape : nat }.

(** [nn.LayerNorm.forward]; the subclass of the source only casts to float32
    and back, which is the identity on reals. *)
Definition LayerNorm_forward (self : LayerNorm) (x : FT) : M FT :=
  weight <- read_param (sub (ln_name self) "weight") [normalized_shape self] ;;
  bias <- read_param (sub (ln_name self) "bias") [normalized_shape self] ;;
  lift (layer_norm x (normalized_shape self) weight bias 0.00001).

Record Conv1d : Type := mkConv1d {
  conv_name : string; conv_in : nat; conv_out : nat; conv_groups : nat }.

Definition Conv1d_forward (self : Conv1d) (x : FT) : M FT :=
  weight <- read_param (sub (conv_name self) "weight")
                       [conv_out self; conv_in self / conv_groups self; 1] ;;
  lift (conv1d_k1 x weight (conv_in self) (conv_out self) (conv_groups self)).

Record MultiheadAttention : Type := mkMultiheadAttention {
  mha_name : string; embed_dim : nat; mha_num_heads : nat }.

(** [self.attn(q, k, v, need_weights=False, attn_mask=m)[0]] *)
Definition MultiheadAttention_forward (self : MultiheadAttention)
           (q k v : FT) (attn_mask : option FT) : M FT :=
  w <- get_params ;;
  match multi_head_attention w (mha_name self) (embed_dim self) (mha_num_heads self)
                             q k v attn_mask with
  | Some y => ret y
  | None => raise RuntimeError
  end.

(** *** drop_path / DropPath *)

Definition drop_path (x : FT) (drop_prob : R) (training : bool) : M FT :=
  if Reqb drop_prob 0 || negb training then ret x
  else
    let keep_prob := (1 - drop_prob)%R in
    if ndim x =? 0 then raise IndexError
    else
      let shape := nth 0 (shape x) 0 :: repeat 1 (ndim x - 1) in
      r <- rand shape ;;
      let random_tensor :=    (* keep_prob + rand, then floor_: binarize *)
        tmap (fun a => dconst (IZR (Int_part (keep_prob + val a)))) r in
      lift (tmul (div_scalar x keep_prob) random_tensor).

Definition DropPath_forward (drop_prob : R) (x : FT) : M FT :=
  tr <- get_training ;; drop_path x drop_prob tr.

(** *** Mlp *)

Record Mlp : Type := mkMlp { fc1 : Linear; fc2 : Linear; drop : R }.

Definition Mlp_init (name : string) (in_features : nat)
           (hidden_features out_features : option nat) (drop : R) : Mlp :=
  let out_features := match out_features with Some (S o) => S o | _ => in_features end in
  let hidden_features := match hidden_features with Some (S h) => S h | _ => in_features end in
  mkMlp (mkLinear (sub name "fc1") in_features hidden_features)
        (mkLinear (sub name "fc2") hidden_features out_features)
        drop.

Definition Dropout_forward (p : R) (x : FT) : M FT :=
  tr <- get_training ;; dropout x p tr.

Definition Mlp_forward (self : Mlp) (x : FT) : M FT :=
  x <- Linear_forward (fc1 self) x ;;
  let x := tmap GELU x in
  x <- Dropout_forward (drop self) x ;;
  x <- Linear_forward (fc2 self) x ;;
  x <- Dropout_forward (drop self) x ;;
  ret x.

Definition QuickGELU_forward (x : FT) : FT := tmap quick_gelu x.

(** The [c_fc] / [gelu] / [c_proj] stack of the attention blocks. *)
Definition mlp_forward (c_fc c_proj : Linear) (x : FT) : M FT :=
  x <- Linear_forward c_fc x ;;
  Linear_forward c_proj (QuickGELU_forward x).

(** *** ResidualAttentionBlock *)

Inductive AttnMask : Type :=
| MaskFn (f : nat -> FT)      (* a callable, applied to the sequence length *)
| MaskTensor (t : FT).

Record ResidualAttentionBlock : Type := mkResidualAttentionBlock {
  rab_n_head : nat;
  rab_attn : MultiheadAttention;
  rab_ln_1 : LayerNorm;
  rab_c_fc : Linear;
  rab_c_proj : Linear;
  rab_ln_2 : LayerNorm;
  rab_drop_path : option R     (* [DropPath(p)] when [p > 0], else [nn.Identity()] *)
}.

Definition ResidualAttentionBlock_init (name : string) (d_model n_head : nat)
           (drop_path : R) : ResidualAttentionBlock :=
  mkResidualAttentionBlock
    n_head
    (mkMultiheadAttention (sub name "attn") d_model n_head)
    (mkLayerNorm (sub name "ln_1") d_model)
    (mkLinear (sub (sub name "mlp") "c_fc") d_model (d_model * 4))
    (mkLinear (sub (sub name "mlp") "c_proj") (d_model * 4) d_model)
    (mkLayerNorm (sub name "ln_2") d_model)
    (if Rltb 0 drop_path then Some drop_path else None).

Definition ResidualAttentionBlock_attention (self : ResidualAttentionBlock)
           (x : FT) (attn_mask : option AttnMask) : M FT :=
  attn_mask_ <-
    match attn_mask with
    | Some (MaskFn f) => ret (Some (f (nth 0 (shape x) 0)))   (* LND *)
    | Some (MaskTensor m) =>
        ext_attn_mask <- lift (unsqueeze m 1) ;;
        let ext_attn_mask :=
          tmap (fun a => dmul (dsub (dconst 1) a) (dconst (-1000000))) ext_attn_mask in
        if ndim m <? 2 then raise IndexError
        else
          ext_attn_mask <- lift (expand ext_attn_mask
                                        [(-1)%Z; Z.of_nat (nth 1 (shape m) 0); (-1)%Z]) ;;
          e <- lift (repeat_interleave0 ext_attn_mask (rab_n_head self)) ;;
          ret (Some e)
    | None => ret None
    end ;;
  MultiheadAttention_forward (rab_attn self) x x x attn_mask_.

Definition rab_drop_path_forward (self : ResidualAttentionBlock) (x : FT) : M FT :=
  match rab_drop_path self with
  | Some p => DropPath_forward p x
  | None => ret x
  end.

Definition ResidualAttentionBlock_forward (self : ResidualAttentionBlock)
           (x : FT) (attn_mask : option AttnMask) : M FT :=
  x <- lift (permute x [1; 0; 2]) ;;   (* x: LND *)
  n <- LayerNorm_forward (rab_ln_1 self) x ;;
  a <- ResidualAttentionBlock_attention self n attn_mask ;;
  a <- rab_drop_path_forward self a ;;
  x <- lift (tadd x a) ;;
  n <- LayerNorm_forward (rab_ln_2 self) x ;;
  m <- mlp_forward (rab_c_fc self) (rab_c_proj self) n ;;
  m <- rab_drop_path_forward self m ;;
  x <- lift (tadd x m) ;;
  x <- lift (permute x [1; 0; 2]) ;;   (* x: NLD *)
  ret x.

(** [nn.Sequential] of attention blocks ([nn.Identity] is the empty stack):
    each block is called with the sequence only. *)
Definition Sequential_forward (blocks : list ResidualAttentionBlock) (x : FT) : M FT :=
  foldM (fun x blk => ResidualAttentionBlock_forward blk x None) x blocks.

(** *** CrossAttentionBlock *)

Record CrossAttentionBlock : Type := mkCrossAttentionBlock {
  cab_n_head : nat;
  cab_attn : MultiheadAttention;
  cab_ln_x : LayerNorm;
  cab_ln_k : LayerNorm;
  cab_c_fc : Linear;
  cab_c_proj : Linear;
  cab_ln_2 : LayerNorm
}.

Definition CrossAttentionBlock_init (name : string) (d_model n_head : nat)
  : CrossAttentionBlock :=
  mkCrossAttentionBlock
    n_head
    (mkMultiheadAttention (sub name "attn") d_model n_head)
    (mkLayerNorm (sub name "ln_x") d_model)
    (mkLayerNorm (sub name "ln_k") d_model)
    (mkLinear (sub (sub name "mlp") "c_fc") d_model (d_model * 4))
    (mkLinear (sub (sub name "mlp") "c_proj") (d_model * 4) d_model)
    (mkLayerNorm (sub name "ln_2") d_model).

Definition CrossAttentionBlock_forward (self : CrossAttentionBlock) (q k : FT) : M FT :=
  q <- lift (permute q [1; 0; 2]) ;;   (* x: LND *)
  nq <- LayerNorm_forward (cab_ln_x self) q ;;
  nk <- LayerNorm_forward (cab_ln_k self) k ;;
  nv <- LayerNorm_forward (cab_ln_k self) k ;;
  a <- MultiheadAttention_forward (cab_attn self) nq nk nv None ;;
  q <- lift (tadd q a) ;;
  n <- LayerNorm_forward (cab_ln_2 self) q ;;
  m <- mlp_forward (cab_c_fc self) (cab_c_proj self) n ;;
  q <- lift (tadd q m) ;;
  q <- lift (permute q [1; 0; 2]) ;;   (* x: NLD *)
  ret q.

(** *** SemanticLearnerModule *)

Record SemanticLearnerModule : Type := mkSemanticLearnerModule {
  slm_name : string;
  slm_in_channels : nat;
  slm_num_heads : nat;
  slm_num_tokens : nat;       (* rows of the [semantic_center] parameter *)
  slm_norm : LayerNorm;
  slm_cross_att : list CrossAttentionBlock;
  slm_cross_ln : LayerNorm;
  slm_k_conv : Conv1d;
  slm_k_ln : LayerNorm;
  slm_v_conv : Conv1d;
  slm_proj_o_ln : LayerNorm;
  slm_proj_o_mlp : Mlp
}.

Definition SemanticLearnerModule_init (name : string)
           (in_channels num_tokens num_heads cross_layer : nat) : SemanticLearnerModule :=
  mkSemanticLearnerModule
    name in_channels num_heads num_tokens
    (mkLayerNorm (sub name "norm") in_channels)
    (map (fun indx => CrossAttentionBlock_init (sub (sub name "cross_att") (str indx))
                                               in_channels num_heads)
         (seq 0 cross_layer))
    (mkLayerNorm (sub name "cross_ln") in_channels)
    (mkConv1d (sub name "k_conv") in_channels in_channels num_heads)
    (mkLayerNorm (sub name "k_ln") in_channels)
    (mkConv1d (sub name "v_conv") in_channels in_channels num_heads)
    (mkLayerNorm (sub (sub name "proj_o") "ln") in_channels)
    (Mlp_init (sub (sub name "proj_o") "mlp") in_channels
              (Some (4 * in_channels)) (Some in_channels) 0).

(** [bs, l, c = inputs.size()] *)
Definition size3 (t : FT) : Res (nat * nat * nat) :=
  match shape t with
  | [a; b; c] => Ok (a, b, c)
  | _ => Raise ValueError
  end.

(** The per-token count of assigned patches, floored at 1:
    [torch.clamp_min(torch.sum(hard_attn, dim=-1).unsqueeze(-1), min=1.0)]. *)
Definition token_normalizer (hard_attn : FT) : Res FT :=
  (s <- sum_dim hard_attn (-1) ;;
   u <- unsqueeze s (-1) ;;
   Ok (clamp_min u 1))%res.

(** The aggregation step: the attended inputs divided by the normalizer. *)
Definition aggregate (hard_attn v_feat : FT) : Res FT :=
  (outputs <- einsum "...si,...id->...sd" hard_attn v_feat ;;  (* (B, n_token, c) *)
   nrm <- token_normalizer hard_attn ;;
   tdiv outputs nrm)%res.

Definition slm_proj_o (self : SemanticLearnerModule) (x : FT) : M FT :=
  x <- LayerNorm_forward (slm_proj_o_ln self) x ;;
  x <- Mlp_forward (slm_proj_o_mlp self) x ;;
  ret (QuickGELU_forward x).

Definition SemanticLearnerModule_forward (self : SemanticLearnerModule) (inputs : FT)
  : M (FT * FT * FT * FT) :=
  '(bs, l, c) <- lift (size3 inputs) ;;
  (* hw_ = int(np.sqrt(l)) is computed and never used *)
  let org_inputs := inputs in
  n <- LayerNorm_forward (slm_norm self) inputs ;;
  in_feature <- lift (permute n [0; 2; 1]) ;;   (* (B, H, L) *)

  q_feat <- read_param (sub (slm_name self) "semantic_center")
                       [slm_num_tokens self; slm_in_channels self] ;;
  q_feat <- lift (u <- unsqueeze q_feat 0 ;; repeat_t u [bs; 1; 1])%res ;;  (* [bs, n_token, c] *)

  q_feat <- foldM (fun q_feat attn_fct_ =>
                     kv_ <- lift (cat2 q_feat org_inputs 1) ;;
                     CrossAttentionBlock_forward attn_fct_ q_feat kv_)
                  q_feat (slm_cross_att self) ;;

  q_feat <- LayerNorm_forward (slm_cross_ln self) q_feat ;;   (* [bs, n_token, c] *)

  k <- Conv1d_forward (slm_k_conv self) in_feature ;;
  k_feat <- lift (permute k [0; 2; 1]) ;;                     (* (B, L, H) *)
  k_feat <- LayerNorm_forward (slm_k_ln self) k_feat ;;

  v <- Conv1d_forward (slm_v_conv self) in_feature ;;
  v_feat <- lift (permute v [0; 2; 1]) ;;                     (* (B, L, H) *)

  attn <- lift (einsum "...si,...di->...sd" q_feat k_feat) ;; (* [bs, n_token, h*w] *)
  tr <- get_training ;;
  hard_attn <- gumbel_softmax attn 0.9 true 1 tr ;;
  soft_attn <- lift (softmax attn 1) ;;

  (* Produced the attended inputs. *)
  outputs <- lift (aggregate hard_attn v_feat) ;;

  r <- lift (tadd q_feat outputs) ;;
  outputs <- slm_proj_o self r ;;                             (* (B, n_token, c) *)

  ret (outputs, hard_attn, soft_attn, q_feat).

(** *** ReconstructLayer *)

Record ReconstructLayer : Type := mkReconstructLayer {
  rl_in_channels : nat;
  rl_out_channels : nat;
  rl_a_fc : Linear
}.

Definition ReconstructLayer_init (name : string) (in_channels out_channels : nat)
  : ReconstructLayer :=
  mkReconstructLayer in_channels out_channels
    (mkLinear (sub (sub name "rec_proj_a") "a_fc") in_channels in_channels).

Definition ReconstructLayer_forward (self : ReconstructLayer) (inputs attn : FT) : M FT :=
  attn <- lift (permute attn [0; 2; 1]) ;;
  attn <- Linear_forward (rl_a_fc self) attn ;;               (* (B, M, L) *)
  outputs <- lift (einsum "...dh,...md->...mh" inputs attn) ;; (* (B, M, H) *)
  ret (QuickGELU_forward outputs).

(** *** SegViT *)

Record SegViT : Type := mkSegViT {
  dim_in : nat;
  patch_len : nat;
  layers0 : list ResidualAttentionBlock;
  semantic_layer2 : SemanticLearnerModule;
  layers2 : list ResidualAttentionBlock;
  layers_mae2 : list ResidualAttentionBlock;    (* For MAE mask *)
  reconstruct_layer2 : ReconstructLayer
}.

(** The argument checks of [nn.MultiheadAttention(embed_dim, num_heads)]:
    both positive, and [head_dim * num_heads == embed_dim] for
    [head_dim = embed_dim // num_heads]. *)
Definition MultiheadAttention_check (embed_dim num_heads : nat) : Res unit :=
  if (embed_dim =? 0) || (num_heads =? 0) then Raise ValueError
  else if negb ((embed_dim / num_heads) * num_heads =? embed_dim) then Raise AssertionError
  else Ok tt.

(** The argument checks of [nn.Conv1d(in_channels, out_channels, groups=groups)]:
    a positive group count that divides both channel counts. *)
Definition Conv1d_check (in_channels out_channels groups : nat) : Res unit :=
  if groups =? 0 then Raise ValueError
  else if negb (in_channels mod groups =? 0) then Raise ValueError
  else if negb (out_channels mod groups =? 0) then Raise ValueError
  else Ok tt.

(** The constructor: the argument checks of the library modules it builds, in
    the order it builds them (the later stacks repeat the checks of the first
    one), and the layout of the sub-modules.  The initial values of the
    parameters ([self.apply(self._init_weights)]) are whatever the state holds
    under the parameters' names. *)
Definition SegViT_init (dim_in patch_size input_resolution : nat)
           (first_stage_layer : Z) (cross_layer group_num : nat) : Res SegViT :=
  if patch_size =? 0 then Raise ZeroDivisionError
  else
    let patch_len := input_resolution / patch_size in
    let depths := (first_stage_layer, (12 - first_stage_layer)%Z) in  (* default: [10, 2] *)
    let layer_dims := (dim_in, dim_in) in
    let num_heads := (fst layer_dims / 64, snd layer_dims / 64) in
    let stack name dim heads depth :=
      map (fun indx => ResidualAttentionBlock_init (sub name (str indx)) dim heads 0)
          (seq 0 (Z.to_nat depth)) in
    (* the attention modules of layers0, if there is a block *)
    (_ <- (if (0 <? fst depths)%Z
           then MultiheadAttention_check (fst layer_dims) (fst num_heads) else Ok tt) ;;
     (* the attention modules of semantic_layer2.cross_att, if there is a block *)
     _ <- (if (0 <? cross_layer)%nat
           then MultiheadAttention_check (fst layer_dims) (fst num_heads) else Ok tt) ;;
     (* semantic_layer2.k_conv and v_conv *)
     _ <- Conv1d_check (fst layer_dims) (fst layer_dims) (fst num_heads) ;;
     Ok (mkSegViT
           dim_in patch_len
           (stack "layers0"%string (fst layer_dims) (fst num_heads) (fst depths))
           (SemanticLearnerModule_init "semantic_layer2" (fst layer_dims) group_num
                                       (fst num_heads) cross_layer)
           (if (0 <? snd depths)%Z
            then stack "layers2"%string (snd layer_dims) (snd num_heads) (snd depths)
            else [])
           (if (0 <? snd depths)%Z
            then stack "layers_mae2"%string (snd layer_dims) (snd num_heads) (snd depths)
            else [])
           (ReconstructLayer_init "reconstruct_layer2" group_num (snd layer_dims))))%res.

Record AttnPair : Type := mkAttnPair { soft_attn : FT; hard_attn : FT }.

Record MidStates : Type := mkMidStates { hidden : option FT; attns : list AttnPair }.

(** The test of line 423: the observed patch-sequence length matches neither
    expected grid size. *)
Definition do_mae_mask (self : SegViT) (len : nat) : bool :=
  negb (patch_len self ^ 2 =? len) && negb (4 * (patch_len self ^ 2) =? len).

(** The branch taken when the length matches neither grid size:
    reconstruct from semantic tokens. *)
Definition SegViT_reconstruct_path (self : SegViT) (x_ : FT) : M (FT * MidStates) :=
  '(sx_, hard_attn_2, soft_attn_2, _) <-
      SemanticLearnerModule_forward (semantic_layer2 self) x_ ;;
  x_ <- ReconstructLayer_forward (reconstruct_layer2 self) sx_ hard_attn_2 ;;  (* s2->s1/m *)
  x_ <- Sequential_forward (layers_mae2 self) x_ ;;
  let mid_states := mkMidStates (Some x_) [] in
  cls <- lift (mean_keepdim x_ 1) ;;
  x <- lift (cat2 cls x_ 1) ;;
  ret (x, mid_states).

(** The branch taken when the length is an expected grid size. *)
Definition SegViT_grouping_path (self : SegViT) (x_ : FT) : M (FT * MidStates) :=
  let hidden := Some x_ in
  let hard_attn_1 : option FT := None in
  let soft_attn_1 : option FT := None in
  '(x_, hard_attn_2, soft_attn_2, _) <-
      SemanticLearnerModule_forward (semantic_layer2 self) x_ ;;
  x_ <- Sequential_forward (layers2 self) x_ ;;
  '(cls, _) <- lift (max_keepdim x_ 1) ;;
  x <- lift (cat2 cls x_ 1) ;;
  (* semantic_attn is always the last one, (B, n_token, w*h) *)
  let attns :=
    match hard_attn_1, soft_attn_1 with
    | Some h1, Some s1 => [mkAttnPair s1 h1]
    | _, _ => []
    end in
  let attns := attns ++ [mkAttnPair soft_attn_2 hard_attn_2] in
  ret (x, mkMidStates hidden attns).

Definition SegViT_forward (self : SegViT) (x : FT) (attn_mask : option AttnMask)
           (video_frame : Z) : M (FT * MidStates) :=
  x <- lift (permute x [1; 0; 2]) ;;   (* x: NLD *)
  match attn_mask with
  | Some _ => raise NotImplementedError
  | None =>
      (* split [CLS] *)
      '(cls, x_) <- lift (split2 x 1 (Z.of_nat (nth 1 (shape x) 0) - 1) 1) ;;
      x_ <- Sequential_forward (layers0 self) x_ ;;
      '(x, mid_states) <-
          (if do_mae_mask self (nth 1 (shape x_) 0)     (* if do MAE mask *)
           then SegViT_reconstruct_path self x_
           else SegViT_grouping_path self x_) ;;
      x <- lift (permute x [1; 0; 2]) ;;   (* x: LND *)
      ret (x, mid_states)
  end.

(** ** Vocabulary of the properties *)

(** The noise tensor [Gumbel(0,1).sample(sh)] drawn in state [s]. *)
Definition gumbel_noise (sh : list nat) (s : State) : FT :=
  mkTensor sh (fun idx => dconst (0 - 1 * ln (- ln (gen s (flat sh idx))))).

(** The generator after [n] variates have been consumed. *)
Definition advance (n : nat) (s : State) : State :=
  set_gen (fun i => gen s (i + n)) s.

(** [m] leaves the module's own state alone: the parameters and the
    [training] flag are the same after the call, whatever its outcome. *)
Definition preserves_module {A} (m : M A) : Prop :=
  forall s, params (snd (m s)) = params s /\ training (snd (m s)) = training s.

(** Outside training, [m] does not touch the state at all and its outcome does
    not depend on the random generator. *)
Definition inference_pure {A} (m : M A) : Prop :=
  forall s, training s = false ->
            snd (m s) = s /\ forall g, fst (m (set_gen g s)) = fst (m s).

(** [m] returns normally from state [s], in the same mode, with a result
    satisfying [Q]. *)
Definition yields {A} (m : M A) (s : State) (Q : A -> Prop) : Prop :=
  exists a s', m s = (Ok a, s') /\ training s' = training s /\ Q a.

(** One element of the normalizer: the count, floored at 1. *)
Definition floor_at_one (count : Dual) : Dual :=
  if Rlt_dec (val count) 1 then dconst 1 else count.


(** The state a forward pass ends in: in training mode the hard routing has
    drawn one variate for each of the B * N * L routing scores. *)
Definition after_routing (B N L : nat) (s : State) : State :=
  if training s then advance (B * N * L) s else s.

(** The shapes of what [SemanticLearnerModule.forward] returns on a (B, L, C)
    input, for a module with N tokens. *)
Definition SemanticLearnerModule_shapes (B N L C : nat) (res : FT * FT * FT * FT) : Prop :=
  let '(outputs, hard, soft, q_feat) := res in
  shape outputs = [B; N; C] /\ shape hard = [B; N; L] /\
  shape soft = [B; N; L] /\ shape q_feat = [B; N; C].

(** The first steps of [SegViT.forward] on [x] in state [s]: the layout
    conversion, the split of the summary token, and the stage-1 blocks, whose
    output is [x_]. *)
Definition SegViT_stage1 (self : SegViT) (x : FT) (s : State) (x_ : FT) : Prop :=
  exists x1 cls x0,
    permute x [1; 0; 2] = Ok x1 /\
    split2 x1 1 (Z.of_nat (nth 1 (shape x1) 0%nat) - 1) 1 = Ok (cls, x0) /\
    Sequential_forward (layers0 self) x0 s = (Ok x_, s).

(** The steps of the reconstruction branch on the stage-1 output [x_], from
    state [s] to [s']: the grouped tokens [sx_] and the routing map
    [hard_attn_2] of the Semantic Learner, the reconstructed sequence [rec],
    the recorded hidden sequence [h] and the batch-major result [y]. *)
Definition SegViT_reconstruct_steps (self : SegViT) (x_ : FT) (s s' : State)
           (sx_ hard_attn_2 rec h y : FT) : Prop :=
  (exists soft_attn_2 q,
      SemanticLearnerModule_forward (semantic_layer2 self) x_ s
      = (Ok (sx_, hard_attn_2, soft_attn_2, q), s')) /\
  ReconstructLayer_forward (reconstruct_layer2 self) sx_ hard_attn_2 s' = (Ok rec, s') /\
  Sequential_forward (layers_mae2 self) rec s' = (Ok h, s') /\
  exists cls, mean_keepdim h 1 = Ok cls /\ cat2 cls h 1 = Ok y.

(** The steps of the grouping branch on the stage-1 output [x_], from state
    [s] to [s']: the grouped tokens [g] and the routing maps of the Semantic
    Learner, the tokens [g2] after the stage-2 blocks and the batch-major
    result [y]. *)
Definition SegViT_grouping_steps (self : SegViT) (x_ : FT) (s s' : State)
           (g hard_attn_2 soft_attn_2 g2 y : FT) : Prop :=
  (exists q,
      SemanticLearnerModule_forward (semantic_layer2 self) x_ s
      = (Ok (g, hard_attn_2, soft_attn_2, q), s')) /\
  Sequential_forward (layers2 self) g s' = (Ok g2, s') /\
  exists cls index, max_keepdim g2 1 = Ok (cls, index) /\ cat2 cls g2 1 = Ok y.

(** The pure operation [r] does not end in [NotImplementedError]. *)
Definition implemented {A} (r : Res A) : Prop := r <> Raise NotImplementedError.

(** No run of [m] ends in [NotImplementedError]. *)
Definition always_implemented {A} (m : M A) : Prop :=
  forall s, fst (m s) <> Raise NotImplementedError.

(** ** Concrete instances for the examples *)

Definition zeros (sh : list nat) : FT := mkTensor sh (fun _ => dconst 0).

(** A tensor whose element at an index is the position along axis 1. *)
Definition ramp (sh : list nat) : FT := mkTensor sh (fun idx => dconst (INR (nth 1 idx 0))).

(** An evaluation-mode state and a training-mode state, all parameters zero. *)
Definition eval_state (u : R) : State := mkState false (fun _ _ => dconst 0) (fun _ => u).
Definition train_state (u : R) : State := mkState true (fun _ _ => dconst 0) (fun _ => u).

(** ** The remaining functions of the file *)

(** *** _ntuple and its instances *)

(** An argument that is either one value or an iterable of values. *)
Inductive PyArg (A : Type) : Type :=
| Scalar (x : A)
| Iterable (l : list A).
Arguments Scalar {A} x.
Arguments Iterable {A} l.

(** [_ntuple(n)(x)]: an iterable is returned as it is, anything else is
    repeated [n] times. *)
Definition _ntuple {A} (n : nat) (x : PyArg A) : PyArg A :=
  match x with
  | Iterable l => Iterable l
  | Scalar v => Iterable (repeat v n)
  end.

Definition to_1tuple {A} := @_ntuple A 1.
Definition to_2tuple {A} := @_ntuple A 2.
Definition to_3tuple {A} := @_ntuple A 3.
Definition to_4tuple {A} := @_ntuple A 4.
Definition to_ntuple {A} := @_ntuple A.

(** *** MixerMlp *)

(** The list [l] with the entries at positions [a] and [b] exchanged. *)
Definition swap (a b : nat) (l : list nat) : list nat :=
  set_nth a (nth b l 0) (set_nth b (nth a l 0) l).

(** [x.transpose(dim0, dim1)] *)
Definition transpose {A} (x : Tensor A) (dim0 dim1 : Z) : Res (Tensor A) :=
  (a <- wrap_dim (ndim x) dim0 ;;
   b <- wrap_dim (ndim x) dim1 ;;
   Ok (mkTensor (swap a b (shape x)) (fun idx => get x (swap a b idx))))%res.

Definition MixerMlp_forward (self : Mlp) (x : FT) : M FT :=
  t <- lift (transpose x 1 2) ;;
  y <- Mlp_forward self t ;;
  lift (transpose y 1 2).

(** *** trunc_normal_ and _init_weights *)

(** Overwriting the values of the parameter [name] (an in-place operation on
    the parameter tensor). *)
Definition set_param (name : string) (data : list nat -> Dual) : M unit :=
  fun s => (Ok tt,
            mkState (training s)
                    (fun n => if String.eqb n name then data else params s n)
                    (gen s)).

(** [math.erf] and [torch.erfinv], which the standard library of reals does
    not provide. *)
Variable erf : R -> R.
Variable erfinv : R -> R.

(** Computes standard normal cumulative distribution function *)
Definition norm_cdf (x : R) : R := ((1 + erf (x / sqrt 2)) / 2)%R.

(** [x.clamp_(min=a, max=b)] on one element. *)
Definition clamp (a b x : R) : R := Rmin (Rmax x a) b.

(** [_no_grad_trunc_normal_(tensor, mean, std, a, b)] on the parameter [name]
    of shape [sh].  The result tells whether the warning was issued.  Python's
    float division raises on a zero [std]; [uniform_] rejects an empty range;
    everything runs under [torch.no_grad()], so the stored values carry no
    tangent. *)
Definition _no_grad_trunc_normal_ (name : string) (sh : list nat)
           (mean std a b : R) : M bool :=
  let warned := Rltb mean (a - 2 * std) || Rltb (b + 2 * std) mean in
  if Reqb std 0 then raise ZeroDivisionError
  else
    (* Get upper and lower cdf values *)
    let l := norm_cdf ((a - mean) / std) in
    let u := norm_cdf ((b - mean) / std) in
    (* Uniformly fill tensor with values from [l, u], then translate to
       [2l-1, 2u-1]. *)
    let lo := (2 * l - 1)%R in
    let hi := (2 * u - 1)%R in
    if Rltb hi lo then raise RuntimeError
    else
      t <- draw sh (fun v =>
             (* uniform_, erfinv_, mul_, add_, clamp_ *)
             clamp a b (erfinv (lo + (hi - lo) * v) * (std * sqrt 2) + mean))%R ;;
      _ <- set_param name (get t) ;;
      ret warned.

Definition trunc_normal_ (name : string) (sh : list nat) (mean std a b : R) : M bool :=
  _no_grad_trunc_normal_ name sh mean std a b.

(** [nn.init.constant_(tensor, val)] *)
Definition constant_ (name : string) (v : R) : M unit :=
  set_param name (fun _ => dconst v).

(** The module kinds [SegViT._init_weights] is applied to. *)
Inductive AnyModule : Type :=
| IsLinear (m : Linear)
| IsLayerNorm (m : LayerNorm)
| IsConv1d (m : Conv1d)
| IsMultiheadAttention (m : MultiheadAttention)
| IsContainer.           (* any other module: blocks, stacks, activations *)

Definition _init_weights (m : AnyModule) : M unit :=
  match m with
  | IsLinear l =>
      _ <- trunc_normal_ (sub (lin_name l) "weight")
                         [out_features l; in_features l] 0 0.02 (-2) 2 ;;
      constant_ (sub (lin_name l) "bias") 0
  | IsLayerNorm l =>
      _ <- constant_ (sub (ln_name l) "bias") 0 ;;
      constant_ (sub (ln_name l) "weight") 1
  | _ => ret tt
  end.

(** [m] returns the state it was started in, in every mode and whatever its
    outcome. *)
Definition state_neutral {A} (m : M A) : Prop := forall s, snd (m s) = s.

(** ** Properties *)

(** *** Sums, maxima and indices *)

Lemma val_dsum : forall n f, val (dsum n f) = rsum n (fun k => val (f k)).
Proof.
  induction n as [|n IH]; intros f; simpl; [reflexivity|].
  now rewrite IH.
Qed.

Lemma rsum_ext : forall n f g, (forall k, k < n -> f k = g k) -> rsum n f = rsum n g.
Proof.
  induction n as [|n IH]; intros f g H; simpl; [reflexivity|].
  rewrite (IH f g), (H n); auto.
Qed.

Lemma rsum_scale : forall n f c, rsum n (fun k => (f k * c)%R) = (rsum n f * c)%R.
Proof.
  induction n as [|n IH]; intros f c; simpl; [lra|].
  rewrite IH. lra.
Qed.

Lemma rsum_pos : forall n f, 0 < n -> (forall k, k < n -> (0 < f k)%R) -> (0 < rsum n f)%R.
Proof.
  induction n as [|n IH]; intros f Hn Hf; [lia|].
  simpl. destruct n as [|n].
  - simpl. specialize (Hf 0 ltac:(lia)). lra.
  - assert (0 < rsum (S n) f)%R by (apply IH; [lia|intros; apply Hf; lia]).
    specialize (Hf (S n) ltac:(lia)). lra.
Qed.

Lemma rsum_nonneg : forall n f, (forall k, k < n -> (0 <= f k)%R) -> (0 <= rsum n f)%R.
Proof.
  induction n as [|n IH]; intros f Hf; simpl; [lra|].
  specialize (IH f ltac:(intros; apply Hf; lia)).
  specialize (Hf n ltac:(lia)). lra.
Qed.

(** A sum of zeros and a single one: an indicator summed over its range. *)
Lemma rsum_indicator : forall n a,
    rsum n (fun k => if k =? a then 1%R else 0%R) = (if a <? n then 1%R else 0%R).
Proof.
  induction n as [|n IH]; intros a; simpl rsum; [reflexivity|].
  rewrite IH.
  destruct (Nat.eqb_spec n a) as [->|Hne].
  - rewrite Nat.ltb_irrefl.
    replace (a <? S a) with true by (symmetry; apply Nat.ltb_lt; lia). lra.
  - destruct (Nat.ltb_spec a n), (Nat.ltb_spec a (S n)); try lia; lra.
Qed.

Lemma argmax_lt : forall f n, 0 < n -> argmax f n < n.
Proof.
  induction n as [|n IH]; intros Hn; [lia|].
  simpl. destruct (Rlt_dec _ _); [lia|].
  destruct n; [simpl; lia|]. specialize (IH ltac:(lia)). lia.
Qed.

Lemma argmax_max : forall f n k, k < n -> (f k <= f (argmax f n))%R.
Proof.
  induction n as [|n IH]; intros k Hk; [lia|].
  simpl. destruct (Rlt_dec _ _) as [Hlt|Hge].
  - destruct (Nat.eq_dec k n) as [->|Hne]; [lra|].
    specialize (IH k ltac:(lia)). lra.
  - destruct (Nat.eq_dec k n) as [->|Hne]; [lra|].
    apply IH; lia.
Qed.

Lemma argmax_ext : forall f g n, (forall k, f k = g k) -> argmax f n = argmax g n.
Proof.
  intros f g n H. induction n as [|n IH]; simpl; [reflexivity|].
  now rewrite IH, !H.
Qed.

(** Ties go to the first occurrence. *)
Lemma argmax_first : forall f n k, k < argmax f n -> (f k < f (argmax f n))%R.
Proof.
  induction n as [|n IH]; intros k Hk; simpl in *; [lia|].
  destruct (Rlt_dec _ _) as [Hlt|Hge].
  - destruct n; [lia|].
    pose proof (argmax_max f (n:=S n) (k:=k) ltac:(lia)). lra.
  - apply IH; assumption.
Qed.

Lemma set_nth_length : forall d k l, length (set_nth d k l) = length l.
Proof.
  induction d as [|d IH]; intros k [|x l]; simpl; auto.
Qed.

Lemma set_nth_set_nth : forall d k k' l, set_nth d k (set_nth d k' l) = set_nth d k l.
Proof.
  induction d as [|d IH]; intros k k' [|x l]; simpl; auto.
  now rewrite IH.
Qed.

Lemma set_nth_same : forall d l, d < length l -> set_nth d (nth d l 0) l = l.
Proof.
  induction d as [|d IH]; intros [|x l] H; simpl in *; try lia; auto.
  rewrite IH; auto; lia.
Qed.

Lemma nth_set_nth : forall d k l, d < length l -> nth d (set_nth d k l) 0 = k.
Proof.
  induction d as [|d IH]; intros k [|x l] H; simpl in *; try lia; auto.
  apply IH; lia.
Qed.

Lemma in_range_length : forall sh idx, in_range sh idx -> length idx = length sh.
Proof. intros sh idx H. induction H; simpl; auto. Qed.

Lemma in_range_nth : forall sh idx d, in_range sh idx -> d < length sh ->
                                     nth d idx 0 < nth d sh 0.
Proof.
  intros sh idx d H. revert d. induction H; intros d Hd; simpl in *; [lia|].
  destruct d; auto. apply IHForall2. lia.
Qed.

Lemma in_range_set_nth : forall sh idx d k n,
    in_range sh idx -> k < n -> in_range (set_nth d n sh) (set_nth d k idx).
Proof.
  intros sh idx d k n H. revert d. induction H; intros d Hk; simpl.
  - constructor.
  - destruct d; constructor; auto. apply IHForall2; auto.
Qed.

Lemma in_rangeb_true : forall sh idx, in_range sh idx -> in_rangeb sh idx = true.
Proof.
  intros sh idx H. induction H; simpl; auto.
  rewrite IHForall2. replace (x <? y) with true; auto.
  symmetry. now apply Nat.ltb_lt.
Qed.

Lemma set_nth_dim_size : forall sh d, set_nth d (dim_size sh d) sh = sh.
Proof.
  unfold dim_size. induction sh as [|x sh IH]; intros [|d]; simpl; auto.
  now rewrite IH.
Qed.

Lemma dim_size_set_nth_1 : forall d sh, dim_size (set_nth d 1 sh) d = 1.
Proof.
  unfold dim_size. induction d as [|d IH]; intros [|x sh]; simpl; auto.
Qed.

Lemma le_except_set_nth : forall d k sh, le_except d (set_nth d k sh) sh = true.
Proof.
  assert (Hle : forall l, forallb2 Nat.leb l l = true).
  { induction l; simpl; auto. rewrite IHl, Nat.leb_refl. reflexivity. }
  induction d as [|d IH]; intros k [|x sh]; simpl; auto.
  rewrite IH, Nat.leb_refl. reflexivity.
Qed.

(** Distinct in-range positions read distinct variates of the generator. *)
Lemma flat_lt : forall sh idx, in_range sh idx -> flat sh idx < numel sh.
Proof.
  intros sh idx H. induction H; simpl; [lia|]. nia.
Qed.

Lemma flat_inj : forall sh idx idx',
    in_range sh idx -> in_range sh idx' -> flat sh idx = flat sh idx' -> idx = idx'.
Proof.
  intros sh idx idx' H. revert idx'.
  induction H as [|i n idx sh Hi H IH]; intros idx' H' E; inversion H'; subst; auto.
  simpl in E.
  match goal with Hr : Forall2 lt ?l sh |- _ =>
    pose proof (flat_lt Hr); pose proof (flat_lt H) end.
  assert (i = x) by nia. subst.
  f_equal. apply IH; auto. lia.
Qed.

(** *** Broadcasting *)

Lemma broadcast_rev_same : forall l, broadcast_rev l l = Some l.
Proof.
  induction l as [|x l IH]; simpl; auto.
  now rewrite IH, Nat.eqb_refl.
Qed.

Lemma broadcast_shapes_same : forall sh, broadcast_shapes sh sh = Some sh.
Proof.
  intros sh. unfold broadcast_shapes.
  rewrite broadcast_rev_same. simpl. now rewrite rev_involutive.
Qed.

Lemma bidx_in_range : forall sh idx, in_range sh idx -> bidx sh idx = idx.
Proof.
  intros sh idx H. unfold bidx.
  rewrite (in_range_length H), Nat.sub_diag. simpl.
  induction H; simpl; auto.
  rewrite IHForall2. destruct (Nat.eqb_spec y 1); auto.
  f_equal. lia.
Qed.

Lemma binop_same_shape : forall f a b,
    shape a = shape b ->
    exists y, binop f a b = Ok y /\ shape y = shape a /\
              forall idx, in_range (shape a) idx -> get y idx = f (get a idx) (get b idx).
Proof.
  intros f a b E. unfold binop. rewrite <- E, broadcast_shapes_same.
  eexists; split; [reflexivity|]. split; [reflexivity|].
  intros idx H. simpl. now rewrite (bidx_in_range H).
Qed.

(** *** The hard-routing function *)

Lemma ndim_shape : forall A B (a : Tensor A) (b : Tensor B),
    shape a = shape b -> ndim a = ndim b.
Proof. intros A B a b E. unfold ndim. now rewrite E. Qed.

(** The value and the tangent of the straight-through output. *)
Lemma straight_through : forall (logits y_soft : FT) (dim : Z) (d : nat),
    wrap_dim (ndim logits) dim = Ok d ->
    shape y_soft = shape logits ->
    0 < dim_size (shape logits) d ->
    exists mx index,
      max_keepdim y_soft dim = Ok (mx, index) /\
      exists y_hard,
        scatter_ (zeros_like logits) dim index (dconst 1) = Ok y_hard /\
        exists t,
          tsub y_hard (detach y_soft) = Ok t /\
          exists ret,
            tadd t y_soft = Ok ret /\
            shape ret = shape logits /\
            forall idx, in_range (shape logits) idx ->
              let am := argmax (fun k => val (get y_soft (set_nth d k idx)))
                               (dim_size (shape logits) d) in
              val (get ret idx) = (if am =? nth d idx 0 then 1%R else 0%R) /\
              der (get ret idx) = der (get y_soft idx).
Proof.
  intros logits y_soft dim d Hd Hs Hn.
  unfold max_keepdim. rewrite (ndim_shape y_soft logits Hs), Hd. simpl rbind.
  rewrite Hs. destruct (Nat.eqb_spec (dim_size (shape logits) d) 0) as [E|_]; [lia|].
  do 2 eexists. split; [reflexivity|].
  unfold scatter_. change (ndim (zeros_like logits)) with (ndim logits).
  rewrite Hd. simpl rbind. cbn [shape zeros_like].
  rewrite le_except_set_nth. cbn [negb].
  eexists. split; [reflexivity|].
  match goal with |- exists t, tsub ?yh _ = _ /\ _ =>
    destruct (@binop_same_shape dsub yh (detach y_soft)) as (t & Ht & Hst & Hgt);
      [cbn [shape detach tmap]; now rewrite Hs|] end.
  exists t. split; [exact Ht|].
  destruct (@binop_same_shape dadd t y_soft) as (ret & Hr & Hsr & Hgr);
    [rewrite Hst; cbn [shape]; now rewrite Hs|].
  exists ret. split; [exact Hr|].
  split; [rewrite Hsr, Hst; reflexivity|].
  intros idx Hi. cbv zeta.
  rewrite Hgr by (rewrite Hst; exact Hi).
  rewrite Hgt by exact Hi.
  cbn [get shape detach tmap zeros_like].
  rewrite dim_size_set_nth_1. cbn [seq existsb].
  rewrite in_rangeb_true by (apply in_range_set_nth; [exact Hi|lia]).
  rewrite orb_false_r. cbn [andb].
  match goal with |- context [if ?c then dconst 1 else _] =>
    replace c with (argmax (fun k => val (get y_soft (set_nth d k idx)))
                           (dim_size (shape logits) d) =? nth d idx 0)
      by (f_equal; apply argmax_ext; intros k; now rewrite set_nth_set_nth) end.
  destruct (_ =? nth d idx 0); simpl; split; lra.
Qed.

Lemma dsum_ext : forall n f g, (forall k, k < n -> f k = g k) -> dsum n f = dsum n g.
Proof.
  induction n as [|n IH]; intros f g H; simpl; [reflexivity|].
  rewrite (IH f g), (H n); auto.
Qed.

Lemma softmax_ok : forall (x : FT) dim d,
    wrap_dim (ndim x) dim = Ok d ->
    softmax x dim =
    Ok (mkTensor (shape x) (fun idx =>
          ddiv (dexp (get x idx))
               (dsum (dim_size (shape x) d) (fun k => dexp (get x (set_nth d k idx)))))).
Proof. intros x dim d H. unfold softmax. now rewrite H. Qed.

(** Along the routing axis the values of a softmax add up to one. *)
Lemma softmax_sums_to_one : forall (x y : FT) dim d idx,
    wrap_dim (ndim x) dim = Ok d ->
    softmax x dim = Ok y ->
    0 < dim_size (shape x) d ->
    rsum (dim_size (shape x) d) (fun k => val (get y (set_nth d k idx))) = 1%R.
Proof.
  intros x y dim d idx Hd Hy Hn.
  rewrite (softmax_ok x dim Hd) in Hy. injection Hy as <-.
  cbn [get val ddiv dexp].
  erewrite rsum_ext.
  2:{ intros k _. rewrite val_dsum. cbn [val dexp].
      erewrite (rsum_ext (n:=dim_size (shape x) d)).
      2:{ intros j _. rewrite set_nth_set_nth. reflexivity. }
      reflexivity. }
  unfold Rdiv. rewrite rsum_scale.
  apply Rinv_r. apply Rgt_not_eq.
  apply rsum_pos; [exact Hn|]. intros; apply exp_pos.
Qed.

Lemma max_keepdim_ok : forall (x : FT) dim d,
    wrap_dim (ndim x) dim = Ok d ->
    0 < dim_size (shape x) d ->
    max_keepdim x dim =
    let am idx := argmax (fun k => val (get x (set_nth d k idx))) (dim_size (shape x) d) in
    Ok (mkTensor (set_nth d 1 (shape x)) (fun idx => get x (set_nth d (am idx) idx)),
        mkTensor (set_nth d 1 (shape x)) am).
Proof.
  intros x dim d H Hn. unfold max_keepdim. rewrite H. simpl rbind.
  destruct (Nat.eqb_spec (dim_size (shape x) d) 0); [lia|reflexivity].
Qed.

Lemma bind_ok : forall A B (m : M A) (f : A -> M B) s a s',
    m s = (Ok a, s') -> bind m f s = f a s'.
Proof. intros A B m f s a s' H. unfold bind. now rewrite H. Qed.

Lemma bind_raise : forall A B (m : M A) (f : A -> M B) s e s',
    m s = (Raise e, s') -> bind m f s = (Raise e, s').
Proof. intros A B m f s e s' H. unfold bind. now rewrite H. Qed.

Lemma lift_ok : forall A B (r : Res A) (f : A -> M B) s a,
    r = Ok a -> bind (lift r) f s = f a s.
Proof. intros A B r f s a ->. reflexivity. Qed.

Lemma Gumbel_sample_run : forall sh s,
    Gumbel_sample 0 1 sh s = (Ok (gumbel_noise sh s), advance (numel sh) s).
Proof. reflexivity. Qed.

(** In training mode the function draws the noise, forms the relaxed sample
    and continues with it. *)
Lemma gumbel_training_relaxed : forall (logits : FT) (tau : R) (dim : Z) (d : nat) (s : State),
    wrap_dim (ndim logits) dim = Ok d ->
    let n := dim_size (shape logits) d in
    let gumbels := gumbel_noise (shape logits) s in
    let s' := advance (numel (shape logits)) s in
    let z idx := ddiv (dadd (get logits idx) (get gumbels idx)) (dconst tau) in
    exists relaxed,
      shape relaxed = shape logits /\
      (forall idx, in_range (shape logits) idx ->
         get relaxed idx =
         ddiv (dexp (z idx)) (dsum n (fun k => dexp (z (set_nth d k idx))))) /\
      forall hard,
        gumbel_softmax logits tau hard dim true s =
        (if hard then
           '(_, index) <- lift (max_keepdim relaxed dim) ;;
           y_hard <- lift (scatter_ (zeros_like logits) dim index (dconst 1)) ;;
           t <- lift (tsub y_hard (detach relaxed)) ;;
           lift (tadd t relaxed)
         else ret relaxed) s'.
Proof.
  intros logits tau dim d s Hd n gumbels s' z.
  destruct (@binop_same_shape dadd logits gumbels) as (g1 & Hg1 & Hsg1 & Hgg1);
    [reflexivity|].
  assert (Hd1 : wrap_dim (ndim (div_scalar g1 tau)) dim = Ok d).
  { unfold ndim. cbn [shape div_scalar tmap]. rewrite Hsg1. exact Hd. }
  pose proof (softmax_ok (div_scalar g1 tau) dim Hd1) as Hsoft.
  cbn [shape div_scalar tmap get] in Hsoft. rewrite Hsg1 in Hsoft.
  set (relaxed := mkTensor (shape logits) _) in Hsoft.
  exists relaxed. split; [reflexivity|]. split.
  { intros idx Hi. subst relaxed. cbn [get]. unfold z. f_equal.
    - now rewrite Hgg1.
    - apply dsum_ext. intros k Hk. rewrite Hgg1; [reflexivity|].
      rewrite <- (set_nth_dim_size (shape logits) d) at 1.
      apply in_range_set_nth; [exact Hi|exact Hk]. }
  intros hard. unfold gumbel_softmax.
  erewrite bind_ok; [reflexivity|].
  erewrite bind_ok; [|apply Gumbel_sample_run].
  fold gumbels. fold s'.
  erewrite lift_ok; [|exact Hg1]. unfold tadd in Hsoft. rewrite Hsoft. reflexivity.
Qed.

(** C1 (gumbel_softmax, training mode).  With [is_training] set, the scores
    receive one Gumbel(0,1) variate each (the inverse-CDF transform of its own
    position of the random stream), the sum is divided by [tau], and the
    softmax along the routing axis is the relaxed sample, which is what is
    returned when [hard] is off.  With [hard] on, the result is
    [one_hot - relaxed.detach() + relaxed] for the one-hot tensor at the
    arg-max of the relaxed sample along the axis: its value is exactly 1 at
    the arg-max position and 0 elsewhere, and its tangent is the tangent of
    the relaxed sample. *)
Theorem gumbel_softmax_training_straight_through :
  forall (logits : FT) (tau : R) (dim : Z) (d : nat) (s : State),
    wrap_dim (ndim logits) dim = Ok d ->
    0 < dim_size (shape logits) d ->
    let n := dim_size (shape logits) d in
    let gumbels := gumbel_noise (shape logits) s in
    let s' := advance (numel (shape logits)) s in
    let z idx := ddiv (dadd (get logits idx) (get gumbels idx)) (dconst tau) in
    (forall idx idx', in_range (shape logits) idx -> in_range (shape logits) idx' ->
                      flat (shape logits) idx = flat (shape logits) idx' -> idx = idx') /\
    exists relaxed,
      gumbel_softmax logits tau false dim true s = (Ok relaxed, s') /\
      shape relaxed = shape logits /\
      (forall idx, in_range (shape logits) idx ->
         get relaxed idx =
         ddiv (dexp (z idx)) (dsum n (fun k => dexp (z (set_nth d k idx))))) /\
      exists index y_hard t ret,
        scatter_ (zeros_like logits) dim index (dconst 1) = Ok y_hard /\
        tsub y_hard (detach relaxed) = Ok t /\
        tadd t relaxed = Ok ret /\
        gumbel_softmax logits tau true dim true s = (Ok ret, s') /\
        shape ret = shape logits /\
        forall idx, in_range (shape logits) idx ->
          let am := argmax (fun k => val (get relaxed (set_nth d k idx))) n in
          get index (set_nth d 0 idx) = am /\
          am < n /\
          (forall k, k < n -> (val (get relaxed (set_nth d k idx))
                               <= val (get relaxed (set_nth d am idx)))%R) /\
          val (get ret idx) = (if nth d idx 0 =? am then 1%R else 0%R) /\
          der (get ret idx) = der (get relaxed idx).
Proof.
  intros logits tau dim d s Hd Hn n gumbels s' z.
  split; [intros idx idx'; apply flat_inj|].
  destruct (@gumbel_training_relaxed logits tau dim d s Hd) as (relaxed & Hsh & Hget & Hrun).
  exists relaxed. split; [apply (Hrun false)|]. split; [exact Hsh|].
  split; [exact Hget|].
  destruct (@straight_through logits relaxed dim d Hd Hsh Hn)
    as (mx & index & Hmx & y_hard & Hyh & t & Ht & ret & Hret & Hsr & Hv).
  exists index, y_hard, t, ret.
  split; [exact Hyh|]. split; [exact Ht|]. split; [exact Hret|].
  split.
  { rewrite (Hrun true). erewrite lift_ok; [|exact Hmx]. cbv beta iota.
    erewrite lift_ok; [|exact Hyh]. erewrite lift_ok; [|exact Ht].
    unfold lift. now rewrite Hret. }
  split; [exact Hsr|].
  intros idx Hi am. destruct (Hv idx Hi) as [Hval Hder].
  assert (Hd' : wrap_dim (ndim relaxed) dim = Ok d)
    by (rewrite (ndim_shape relaxed logits Hsh); exact Hd).
  rewrite (max_keepdim_ok relaxed dim Hd') in Hmx by (rewrite Hsh; exact Hn).
  cbv zeta in Hmx. injection Hmx as _ <-. cbn [get]. rewrite Hsh. fold n.
  split.
  { apply argmax_ext. intros k. now rewrite set_nth_set_nth. }
  split; [apply argmax_lt; exact Hn|].
  split; [intros k Hk; apply (argmax_max (fun k => val (get relaxed (set_nth d k idx)))); exact Hk|].
  split; [rewrite Nat.eqb_sym; exact Hval|exact Hder].
Qed.

(** *** Effects of the monadic operations *)

Lemma preserves_ret : forall A (a : A), preserves_module (ret a).
Proof. intros A a s. split; reflexivity. Qed.

Lemma preserves_raise : forall A e, preserves_module (@raise A e).
Proof. intros A e s. split; reflexivity. Qed.

Lemma preserves_lift : forall A (r : Res A), preserves_module (lift r).
Proof. intros A r s. split; reflexivity. Qed.

Lemma preserves_get_training : preserves_module get_training.
Proof. intros s. split; reflexivity. Qed.

Lemma preserves_get_params : preserves_module get_params.
Proof. intros s. split; reflexivity. Qed.

Lemma preserves_draw : forall sh f, preserves_module (draw sh f).
Proof. intros sh f s. split; reflexivity. Qed.

Lemma preserves_bind : forall A B (m : M A) (f : A -> M B),
    preserves_module m -> (forall a, preserves_module (f a)) ->
    preserves_module (bind m f).
Proof.
  intros A B m f Hm Hf s. unfold bind.
  destruct (Hm s) as [Hp Ht]. destruct (m s) as [[a|e] s1]; simpl in *.
  - destruct (Hf a s1) as [Hp' Ht']. split; congruence.
  - split; assumption.
Qed.

Lemma preserves_foldM : forall A B (f : A -> B -> M A) l a,
    (forall a b, preserves_module (f a b)) -> preserves_module (foldM f a l).
Proof.
  intros A B f l. induction l as [|b l IH]; intros a Hf; simpl.
  - apply preserves_ret.
  - apply preserves_bind; auto.
Qed.

Lemma pure_ret : forall A (a : A), inference_pure (ret a).
Proof. intros A a s _. split; reflexivity. Qed.

Lemma pure_raise : forall A e, inference_pure (@raise A e).
Proof. intros A e s _. split; reflexivity. Qed.

Lemma pure_lift : forall A (r : Res A), inference_pure (lift r).
Proof. intros A r s _. split; reflexivity. Qed.

Lemma pure_get_params : inference_pure get_params.
Proof. intros s _. split; reflexivity. Qed.

Lemma pure_bind : forall A B (m : M A) (f : A -> M B),
    inference_pure m -> (forall a, inference_pure (f a)) -> inference_pure (bind m f).
Proof.
  intros A B m f Hm Hf s Hs. unfold bind.
  destruct (Hm s Hs) as [Hs1 Hg].
  split.
  - destruct (m s) as [[a|e] s1]; simpl in *; subst s1; [|reflexivity].
    apply (Hf a s Hs).
  - intros g. specialize (Hg g).
    destruct (Hm (set_gen g s) Hs) as [Hs2 _].
    destruct (m (set_gen g s)) as [r' s2], (m s) as [r s1].
    simpl in Hg, Hs1, Hs2. subst r' s1 s2.
    destruct r as [a|e]; [|reflexivity].
    apply (Hf a s Hs).
Qed.

(** Reading the flag outside training yields [false]. *)
Lemma pure_bind_training : forall B (f : bool -> M B),
    inference_pure (f false) -> inference_pure (bind get_training f).
Proof.
  intros B f Hf s Hs. unfold bind, get_training. cbn [training set_gen].
  rewrite Hs. apply (Hf s Hs).
Qed.

Lemma pure_foldM : forall A B (f : A -> B -> M A) l a,
    (forall a b, inference_pure (f a b)) -> inference_pure (foldM f a l).
Proof.
  intros A B f l. induction l as [|b l IH]; intros a Hf; simpl.
  - apply pure_ret.
  - apply pure_bind; auto.
Qed.

Create HintDb effects.
#[local] Hint Resolve preserves_ret preserves_raise preserves_lift preserves_get_training
  preserves_get_params preserves_draw pure_ret pure_raise pure_lift pure_get_params
  : effects.

(** Decomposition of a monadic program into its operations. *)
Ltac effects :=
  repeat first
    [ progress intros
    | match goal with p : (_ * _)%type |- _ => destruct p end
    | solve [auto with effects]
    | apply preserves_bind
    | apply preserves_foldM
    | apply pure_bind_training
    | apply pure_bind
    | apply pure_foldM
    | match goal with
      | |- preserves_module (match ?x with _ => _ end) => destruct x
      | |- inference_pure (match ?x with _ => _ end) => destruct x
      end ].

Lemma preserves_read_param : forall name sh, preserves_module (read_param name sh).
Proof. unfold read_param. effects. Qed.

Lemma pure_read_param : forall name sh, inference_pure (read_param name sh).
Proof. unfold read_param. effects. Qed.

#[local] Hint Resolve preserves_read_param pure_read_param : effects.

Lemma preserves_gumbel_softmax : forall logits tau hard dim tr,
    preserves_module (gumbel_softmax logits tau hard dim tr).
Proof. unfold gumbel_softmax, Gumbel_sample. effects. Qed.

Lemma pure_gumbel_softmax : forall logits tau hard dim,
    inference_pure (gumbel_softmax logits tau hard dim false).
Proof. unfold gumbel_softmax. effects. Qed.

Lemma preserves_dropout : forall x p tr, preserves_module (dropout x p tr).
Proof. unfold dropout. effects. Qed.

Lemma pure_dropout : forall x p, inference_pure (dropout x p false).
Proof. intros. unfold dropout. rewrite orb_true_r. effects. Qed.

Lemma preserves_drop_path : forall x p tr, preserves_module (drop_path x p tr).
Proof. unfold drop_path, rand. effects. Qed.

Lemma pure_drop_path : forall x p, inference_pure (drop_path x p false).
Proof. intros. unfold drop_path. rewrite orb_true_r. effects. Qed.

#[local] Hint Resolve preserves_gumbel_softmax pure_gumbel_softmax preserves_dropout
  pure_dropout preserves_drop_path pure_drop_path : effects.

(** *** Effects of the modules *)

Ltac module_effects f := intros; unfold f; effects.

Lemma preserves_Linear : forall self x, preserves_module (Linear_forward self x).
Proof. module_effects Linear_forward. Qed.
Lemma pure_Linear : forall self x, inference_pure (Linear_forward self x).
Proof. module_effects Linear_forward. Qed.

Lemma preserves_LayerNorm : forall self x, preserves_module (LayerNorm_forward self x).
Proof. module_effects LayerNorm_forward. Qed.
Lemma pure_LayerNorm : forall self x, inference_pure (LayerNorm_forward self x).
Proof. module_effects LayerNorm_forward. Qed.

Lemma preserves_Conv1d : forall self x, preserves_module (Conv1d_forward self x).
Proof. module_effects Conv1d_forward. Qed.
Lemma pure_Conv1d : forall self x, inference_pure (Conv1d_forward self x).
Proof. module_effects Conv1d_forward. Qed.

Lemma preserves_MultiheadAttention : forall self q k v m,
    preserves_module (MultiheadAttention_forward self q k v m).
Proof. module_effects MultiheadAttention_forward. Qed.
Lemma pure_MultiheadAttention : forall self q k v m,
    inference_pure (MultiheadAttention_forward self q k v m).
Proof. module_effects MultiheadAttention_forward. Qed.

Lemma preserves_DropPath : forall p x, preserves_module (DropPath_forward p x).
Proof. module_effects DropPath_forward. Qed.
Lemma pure_DropPath : forall p x, inference_pure (DropPath_forward p x).
Proof. module_effects DropPath_forward. Qed.

Lemma preserves_Dropout : forall p x, preserves_module (Dropout_forward p x).
Proof. module_effects Dropout_forward. Qed.
Lemma pure_Dropout : forall p x, inference_pure (Dropout_forward p x).
Proof. module_effects Dropout_forward. Qed.

#[local] Hint Resolve preserves_Linear pure_Linear preserves_LayerNorm pure_LayerNorm
  preserves_Conv1d pure_Conv1d preserves_MultiheadAttention pure_MultiheadAttention
  preserves_DropPath pure_DropPath preserves_Dropout pure_Dropout : effects.

Lemma preserves_Mlp : forall self x, preserves_module (Mlp_forward self x).
Proof. module_effects Mlp_forward. Qed.
Lemma pure_Mlp : forall self x, inference_pure (Mlp_forward self x).
Proof. module_effects Mlp_forward. Qed.

Lemma preserves_mlp : forall a b x, preserves_module (mlp_forward a b x).
Proof. module_effects mlp_forward. Qed.
Lemma pure_mlp : forall a b x, inference_pure (mlp_forward a b x).
Proof. module_effects mlp_forward. Qed.

Lemma preserves_rab_drop_path : forall self x, preserves_module (rab_drop_path_forward self x).
Proof. module_effects rab_drop_path_forward. Qed.
Lemma pure_rab_drop_path : forall self x, inference_pure (rab_drop_path_forward self x).
Proof. module_effects rab_drop_path_forward. Qed.

#[local] Hint Resolve preserves_Mlp pure_Mlp preserves_mlp pure_mlp
  preserves_rab_drop_path pure_rab_drop_path : effects.

Lemma preserves_RAB_attention : forall self x m,
    preserves_module (ResidualAttentionBlock_attention self x m).
Proof. module_effects ResidualAttentionBlock_attention. Qed.
Lemma pure_RAB_attention : forall self x m,
    inference_pure (ResidualAttentionBlock_attention self x m).
Proof. module_effects ResidualAttentionBlock_attention. Qed.

#[local] Hint Resolve preserves_RAB_attention pure_RAB_attention : effects.

Lemma preserves_RAB : forall self x m,
    preserves_module (ResidualAttentionBlock_forward self x m).
Proof. module_effects ResidualAttentionBlock_forward. Qed.
Lemma pure_RAB : forall self x m,
    inference_pure (ResidualAttentionBlock_forward self x m).
Proof. module_effects ResidualAttentionBlock_forward. Qed.

#[local] Hint Resolve preserves_RAB pure_RAB : effects.

Lemma preserves_Sequential : forall blocks x, preserves_module (Sequential_forward blocks x).
Proof. module_effects Sequential_forward. Qed.
Lemma pure_Sequential : forall blocks x, inference_pure (Sequential_forward blocks x).
Proof. module_effects Sequential_forward. Qed.

Lemma preserves_CAB : forall self q k, preserves_module (CrossAttentionBlock_forward self q k).
Proof. module_effects CrossAttentionBlock_forward. Qed.
Lemma pure_CAB : forall self q k, inference_pure (CrossAttentionBlock_forward self q k).
Proof. module_effects CrossAttentionBlock_forward. Qed.

Lemma preserves_slm_proj_o : forall self x, preserves_module (slm_proj_o self x).
Proof. module_effects slm_proj_o. Qed.
Lemma pure_slm_proj_o : forall self x, inference_pure (slm_proj_o self x).
Proof. module_effects slm_proj_o. Qed.

#[local] Hint Resolve preserves_Sequential pure_Sequential preserves_CAB pure_CAB
  preserves_slm_proj_o pure_slm_proj_o : effects.

Lemma preserves_SemanticLearnerModule : forall self inputs,
    preserves_module (SemanticLearnerModule_forward self inputs).
Proof. module_effects SemanticLearnerModule_forward. Qed.
Lemma pure_SemanticLearnerModule : forall self inputs,
    inference_pure (SemanticLearnerModule_forward self inputs).
Proof. module_effects SemanticLearnerModule_forward. Qed.

Lemma preserves_ReconstructLayer : forall self inputs attn,
    preserves_module (ReconstructLayer_forward self inputs attn).
Proof. module_effects ReconstructLayer_forward. Qed.
Lemma pure_ReconstructLayer : forall self inputs attn,
    inference_pure (ReconstructLayer_forward self inputs attn).
Proof. module_effects ReconstructLayer_forward. Qed.

#[local] Hint Resolve preserves_SemanticLearnerModule pure_SemanticLearnerModule
  preserves_ReconstructLayer pure_ReconstructLayer : effects.

Lemma preserves_SegViT : forall self x mask vf,
    preserves_module (SegViT_forward self x mask vf).
Proof.
  intros. unfold SegViT_forward, SegViT_reconstruct_path, SegViT_grouping_path. effects.
Qed.
Lemma pure_SegViT : forall self x mask vf,
    inference_pure (SegViT_forward self x mask vf).
Proof.
  intros. unfold SegViT_forward, SegViT_reconstruct_path, SegViT_grouping_path. effects.
Qed.

(** *** Shapes and elements of the tensor operations on three axes *)

Lemma permute_102 : forall A (x : Tensor A) a b c,
    shape x = [a; b; c] ->
    exists y, permute x [1; 0; 2] = Ok y /\ shape y = [b; a; c] /\
              forall i j k, get y [i; j; k] = get x [j; i; k].
Proof.
  intros A x a b c H. unfold permute, ndim. rewrite H. simpl.
  eexists. split; [reflexivity|]. split; reflexivity.
Qed.

Lemma permute_021 : forall A (x : Tensor A) a b c,
    shape x = [a; b; c] ->
    exists y, permute x [0; 2; 1] = Ok y /\ shape y = [a; c; b] /\
              forall i j k, get y [i; j; k] = get x [i; k; j].
Proof.
  intros A x a b c H. unfold permute, ndim. rewrite H. simpl.
  eexists. split; [reflexivity|]. split; reflexivity.
Qed.

Lemma wrap_dim_3_1 : wrap_dim 3 1 = Ok 1.
Proof. reflexivity. Qed.

Lemma wrap_dim_3_m1 : wrap_dim 3 (-1) = Ok 2.
Proof. reflexivity. Qed.

Lemma split2_cls : forall (x : FT) B T C,
    shape x = [B; S T; C] ->
    exists cls x_, split2 x 1 (Z.of_nat (S T) - 1) 1 = Ok (cls, x_) /\
                   shape cls = [B; 1; C] /\ shape x_ = [B; T; C] /\
                   forall i j k, get x_ [i; j; k] = get x [i; j + 1; k].
Proof.
  intros x B T C H. unfold split2, ndim. rewrite H.
  cbn [length]. rewrite wrap_dim_3_1. cbn [rbind nth Nat.eqb orb].
  replace (1 <? 0)%Z with false by reflexivity.
  replace (Z.of_nat (S T) - 1 <? 0)%Z with false by (symmetry; apply Z.ltb_ge; lia).
  replace (1 + (Z.of_nat (S T) - 1) =? Z.of_nat (S T))%Z with true
    by (symmetry; apply Z.eqb_eq; lia).
  cbn [orb negb].
  do 2 eexists. split; [reflexivity|]. cbn [shape get set_nth nth].
  replace (Z.to_nat (Z.of_nat (S T) - 1)) with T by lia.
  repeat split.
Qed.

Lemma forallb2_eqb_refl : forall l, forallb2 Nat.eqb l l = true.
Proof. induction l; simpl; auto. now rewrite Nat.eqb_refl. Qed.

Lemma cat2_dim1 : forall (a b : FT) B n1 n2 C,
    shape a = [B; n1; C] -> shape b = [B; n2; C] ->
    exists y, cat2 a b 1 = Ok y /\ shape y = [B; n1 + n2; C] /\
              forall i j k, get y [i; j; k] =
                            if j <? n1 then get a [i; j; k] else get b [i; j - n1; k].
Proof.
  intros a b B n1 n2 C Ha Hb. unfold cat2, ndim. rewrite Ha, Hb.
  cbn [length]. rewrite wrap_dim_3_1. cbn [rbind nth Nat.eqb orb eq_except].
  rewrite Nat.eqb_refl, forallb2_eqb_refl. cbn [andb negb].
  eexists. split; [reflexivity|]. split; reflexivity.
Qed.

Lemma tadd_same : forall (a b : FT),
    shape a = shape b ->
    exists y, tadd a b = Ok y /\ shape y = shape a.
Proof.
  intros a b H. destruct (@binop_same_shape dadd a b H) as (y & Hy & Hs & _).
  exists y; split; assumption.
Qed.

Lemma linear_3d : forall (x : FT) a b n m w bias,
    shape x = [a; b; n] ->
    exists y, linear x (mkTensor [m; n] w) (mkTensor [m] bias) = Ok y /\
              shape y = [a; b; m] /\
              forall i j k, get y [i; j; k] =
                dadd (dsum n (fun l => dmul (get x [i; j; l]) (w [k; l]))) (bias [k]).
Proof.
  intros x a b n m w bias H. unfold linear, ndim, last_axis, set_last. rewrite H.
  cbn [length shape nth Nat.sub Nat.eqb orb negb forallb2].
  rewrite !Nat.eqb_refl. cbn [andb orb negb].
  eexists. split; [reflexivity|]. split; reflexivity.
Qed.

Lemma layer_norm_3d : forall (x : FT) a b n w bias eps,
    shape x = [a; b; n] ->
    exists y, layer_norm x n w bias eps = Ok y /\ shape y = [a; b; n].
Proof.
  intros x a b n w bias eps H. unfold layer_norm, ndim, last_axis. rewrite H.
  cbn [length nth Nat.sub Nat.eqb orb negb].
  rewrite Nat.eqb_refl. cbn [negb].
  eexists. split; reflexivity.
Qed.

Lemma conv1d_k1_3d : forall (x : FT) w B C L c_out g,
    shape x = [B; C; L] -> 0 < L ->
    exists y, conv1d_k1 x w C c_out g = Ok y /\ shape y = [B; c_out; L].
Proof.
  intros x w B C L c_out g H HL. unfold conv1d_k1. rewrite H, Nat.eqb_refl.
  destruct (Nat.eqb_spec L 0); [lia|].
  eexists. split; reflexivity.
Qed.

Lemma conv1d_k1_empty : forall (x : FT) w B C c_in c_out g,
    shape x = [B; C; 0] -> conv1d_k1 x w c_in c_out g = Raise RuntimeError.
Proof. intros x w B C c_in c_out g H. unfold conv1d_k1. now rewrite H. Qed.

Lemma broadcast_center : forall (c : FT) bs N C,
    shape c = [N; C] ->
    exists y, (u <- unsqueeze c 0 ;; repeat_t u [bs; 1; 1])%res = Ok y /\
              shape y = [bs; N; C].
Proof.
  intros c bs N C H. unfold unsqueeze, repeat_t, ndim. rewrite H.
  cbn. rewrite ?Nat.mul_1_r, ?Nat.add_0_r.
  eexists. split; reflexivity.
Qed.

Lemma pick_lt : forall n i, i < n -> pick n i = i.
Proof. intros n i H. unfold pick. destruct (Nat.eqb_spec n 1); lia. Qed.

Lemma bcast1_same : forall n, bcast1 n n = Some n.
Proof. intros n. unfold bcast1. now rewrite Nat.eqb_refl. Qed.

Lemma bidx_1 : forall B i, i < B -> bidx [B] [i] = [i].
Proof. intros B i H. apply bidx_in_range. repeat constructor. exact H. Qed.

Ltac contract2_3d Ha Hb :=
  unfold contract2, ndim; rewrite Ha, Hb;
  cbn [length Nat.ltb Nat.leb orb Nat.sub firstn nth];
  rewrite broadcast_shapes_same, bcast1_same;
  eexists; split; [reflexivity|]; split; [reflexivity|];
  intros i j k Hi; cbn [get length firstn nth Nat.add];
  rewrite (bidx_1 Hi); apply dsum_ext; intros t Ht; rewrite (pick_lt Ht); reflexivity.

(** [q_feat (B,N,C)] against [k_feat (B,L,C)]: the similarity scores. *)
Lemma einsum_si_di_sd : forall (a b : FT) B N L C,
    shape a = [B; N; C] -> shape b = [B; L; C] ->
    exists y, einsum "...si,...di->...sd" a b = Ok y /\ shape y = [B; N; L] /\
              forall i j k, i < B ->
                get y [i; j; k] = dsum C (fun t => dmul (get a [i; j; t]) (get b [i; k; t])).
Proof.
  intros a b B N L C Ha Hb.
  change (einsum "...si,...di->...sd" a b) with (contract2 true true true a b).
  contract2_3d Ha Hb.
Qed.

(** [hard_attn (B,N,L)] against [v_feat (B,L,C)]: the attended inputs. *)
Lemma einsum_si_id_sd : forall (a b : FT) B N L C,
    shape a = [B; N; L] -> shape b = [B; L; C] ->
    exists y, einsum "...si,...id->...sd" a b = Ok y /\ shape y = [B; N; C] /\
              forall i j k, i < B ->
                get y [i; j; k] = dsum L (fun t => dmul (get a [i; j; t]) (get b [i; t; k])).
Proof.
  intros a b B N L C Ha Hb.
  change (einsum "...si,...id->...sd" a b) with (contract2 true false true a b).
  contract2_3d Ha Hb.
Qed.

(** [inputs (B,N,C)] against the re-weighted map [(B,M,N)]: the reconstruction. *)
Lemma einsum_dh_md_mh : forall (a b : FT) B N M C,
    shape a = [B; N; C] -> shape b = [B; M; N] ->
    exists y, einsum "...dh,...md->...mh" a b = Ok y /\ shape y = [B; M; C] /\
              forall i j k, i < B ->
                get y [i; j; k] = dsum N (fun t => dmul (get a [i; t; k]) (get b [i; j; t])).
Proof.
  intros a b B N M C Ha Hb.
  change (einsum "...dh,...md->...mh" a b) with (contract2 false true false a b).
  contract2_3d Ha Hb.
Qed.

Lemma softmax_dim1 : forall (x : FT) B N L,
    shape x = [B; N; L] ->
    exists y, softmax x 1 = Ok y /\ shape y = [B; N; L].
Proof.
  intros x B N L H.
  assert (Hd : wrap_dim (ndim x) 1 = Ok 1) by (unfold ndim; now rewrite H).
  rewrite (softmax_ok x 1 Hd). eexists. split; [reflexivity|exact H].
Qed.

Lemma mean_keepdim_dim1 : forall (x : FT) B N C,
    shape x = [B; N; C] ->
    exists y, mean_keepdim x 1 = Ok y /\ shape y = [B; 1; C] /\
              forall i j k, get y [i; j; k] =
                ddiv (dsum N (fun t => get x [i; t; k])) (dconst (INR N)).
Proof.
  intros x B N C H. unfold mean_keepdim, ndim. rewrite H. cbn [length].
  rewrite wrap_dim_3_1. cbn [rbind].
  eexists. split; [reflexivity|]. split; reflexivity.
Qed.

Lemma max_keepdim_dim1 : forall (x : FT) B N C,
    shape x = [B; N; C] -> 0 < N ->
    exists y index, max_keepdim x 1 = Ok (y, index) /\ shape y = [B; 1; C].
Proof.
  intros x B N C H HN.
  assert (Hd : wrap_dim (ndim x) 1 = Ok 1) by (unfold ndim; now rewrite H).
  rewrite (max_keepdim_ok x 1 Hd) by (rewrite H; exact HN).
  cbv zeta. do 2 eexists. split; [reflexivity|]. cbn [shape]. now rewrite H.
Qed.

Lemma max_keepdim_dim1_values : forall (x : FT) B N C,
    shape x = [B; N; C] -> 0 < N ->
    exists y index, max_keepdim x 1 = Ok (y, index) /\ shape y = [B; 1; C] /\
      forall i k,
        (exists n, n < N /\ get y [i; 0; k] = get x [i; n; k]) /\
        forall n, n < N -> (val (get x [i; n; k]) <= val (get y [i; 0%nat; k]))%R.
Proof.
  intros x B N C H HN.
  assert (Hd : wrap_dim (ndim x) 1 = Ok 1) by (unfold ndim; now rewrite H).
  rewrite (max_keepdim_ok x 1 Hd) by (rewrite H; exact HN).
  cbv zeta. do 2 eexists. split; [reflexivity|]. cbn [shape get]. rewrite H.
  split; [reflexivity|].
  intros i k. cbn [set_nth dim_size nth].
  set (f := fun t => val (get x [i; t; k])).
  split.
  - exists (argmax f N). split; [now apply argmax_lt|reflexivity].
  - intros n Hn. exact (@argmax_max f N n Hn).
Qed.

(** *** The aggregation step *)

Lemma floor_at_one_ge : forall c, (1 <= val (floor_at_one c))%R.
Proof.
  intros c. unfold floor_at_one. destruct (Rlt_dec (val c) 1); simpl; lra.
Qed.

Lemma token_normalizer_3d : forall (hard : FT) B N L,
    shape hard = [B; N; L] ->
    exists nrm, token_normalizer hard = Ok nrm /\ shape nrm = [B; N; 1] /\
                forall b n j, get nrm [b; n; j] =
                              floor_at_one (dsum L (fun t => get hard [b; n; t])).
Proof.
  intros hard B N L H. unfold token_normalizer, sum_dim, unsqueeze, ndim.
  rewrite H. cbn [length]. rewrite wrap_dim_3_m1. cbn [rbind Nat.eqb shape remove_at length].
  change (wrap_dim (2 + 1) (-1)) with (wrap_dim 3 (-1)). rewrite wrap_dim_3_m1.
  cbn [rbind]. eexists. split; [reflexivity|]. split; reflexivity.
Qed.

Lemma broadcast_last_1 : forall B N C, broadcast_shapes [B; N; C] [B; N; 1] = Some [B; N; C].
Proof.
  intros B N C. unfold broadcast_shapes. cbn [rev app broadcast_rev].
  rewrite !Nat.eqb_refl.
  destruct (Nat.eqb_spec C 1) as [->|_]; reflexivity.
Qed.

Lemma aggregate_3d : forall (hard v : FT) B N L C,
    shape hard = [B; N; L] -> shape v = [B; L; C] ->
    exists nrm agg,
      token_normalizer hard = Ok nrm /\
      aggregate hard v = Ok agg /\ shape agg = [B; N; C] /\
      forall b n c, b < B -> n < N -> c < C ->
        get nrm [b; n; 0] = floor_at_one (dsum L (fun t => get hard [b; n; t])) /\
        get agg [b; n; c] =
        ddiv (dsum L (fun t => dmul (get hard [b; n; t]) (get v [b; t; c])))
             (get nrm [b; n; 0]).
Proof.
  intros hard v B N L C Hh Hv.
  destruct (token_normalizer_3d hard Hh) as (nrm & Hn & Hsn & Hgn).
  destruct (einsum_si_id_sd hard v Hh Hv) as (o & Ho & Hso & Hgo).
  exists nrm. unfold aggregate. rewrite Ho, Hn. cbn [rbind].
  unfold tdiv, binop. rewrite Hso, Hsn, broadcast_last_1.
  eexists. split; [reflexivity|]. split; [reflexivity|]. split; [reflexivity|].
  intros b n c Hb Hn' Hc. split; [apply Hgn|].
  cbn [get]. rewrite (@bidx_in_range [B; N; C] [b; n; c]) by (repeat constructor; assumption).
  rewrite Hgo by exact Hb.
  replace (bidx [B; N; 1] [b; n; c]) with [b; n; 0]; [reflexivity|].
  unfold bidx. cbn.
  destruct (Nat.eqb_spec B 1), (Nat.eqb_spec N 1); repeat f_equal; lia.
Qed.

(** *** Running the hard-routing function *)

Lemma gumbel_softmax_hard_run : forall (logits : FT) tau dim d tr s,
    wrap_dim (ndim logits) dim = Ok d ->
    0 < dim_size (shape logits) d ->
    exists ret s',
      gumbel_softmax logits tau true dim tr s = (Ok ret, s') /\
      training s' = training s /\ shape ret = shape logits.
Proof.
  intros logits tau dim d tr s Hd Hn. destruct tr.
  - destruct (@gumbel_training_relaxed logits tau dim d s Hd) as (relaxed & Hsh & _ & Hrun).
    destruct (@straight_through logits relaxed dim d Hd Hsh Hn)
      as (mx & index & Hmx & y_hard & Hyh & t & Ht & ret & Hret & Hsr & _).
    exists ret. eexists. split; [|split; [|exact Hsr]].
    + rewrite (Hrun true). erewrite lift_ok; [|exact Hmx]. cbv beta iota.
      erewrite lift_ok; [|exact Hyh]. erewrite lift_ok; [|exact Ht].
      unfold lift. now rewrite Hret.
    + reflexivity.
  - pose proof (softmax_ok logits dim Hd) as Hsoft.
    set (y_soft := mkTensor _ _) in Hsoft.
    destruct (@straight_through logits y_soft dim d Hd eq_refl Hn)
      as (mx & index & Hmx & y_hard & Hyh & t & Ht & ret & Hret & Hsr & _).
    exists ret, s. split; [|split; [reflexivity|exact Hsr]].
    unfold gumbel_softmax.
    erewrite lift_ok; [|exact Hsoft]. erewrite lift_ok; [|exact Hmx]. cbv beta iota.
    erewrite lift_ok; [|exact Hyh]. erewrite lift_ok; [|exact Ht].
    unfold lift. now rewrite Hret.
Qed.

(** *** Normal returns *)

Lemma yields_ret : forall A (a : A) s (Q : A -> Prop), Q a -> yields (ret a) s Q.
Proof. intros A a s Q H. exists a, s. repeat split; assumption. Qed.

Lemma yields_lift : forall A (r : Res A) a s (Q : A -> Prop),
    r = Ok a -> Q a -> yields (lift r) s Q.
Proof. intros A r a s Q -> H. exists a, s. repeat split; assumption. Qed.

Lemma yields_mono : forall A (m : M A) s (P Q : A -> Prop),
    yields m s P -> (forall a, P a -> Q a) -> yields m s Q.
Proof.
  intros A m s P Q (a & s' & Hm & Ht & HP) H. exists a, s'. repeat split; auto.
Qed.

Lemma yields_bind : forall A B (m : M A) (f : A -> M B) s (P : A -> Prop) (Q : B -> Prop),
    yields m s P ->
    (forall a s1, training s1 = training s -> P a -> yields (f a) s1 Q) ->
    yields (bind m f) s Q.
Proof.
  intros A B m f s P Q (a & s1 & Hm & Ht & HP) H.
  destruct (H a s1 Ht HP) as (b & s2 & Hf & Ht2 & HQ).
  exists b, s2. split; [|split; [congruence|exact HQ]].
  erewrite bind_ok; [exact Hf|exact Hm].
Qed.

Lemma yields_bind_lift : forall A B (r : Res A) (f : A -> M B) s a (Q : B -> Prop),
    r = Ok a -> yields (f a) s Q -> yields (bind (lift r) f) s Q.
Proof. intros A B r f s a Q -> H. exact H. Qed.

Lemma yields_read_param : forall name sh s,
    yields (read_param name sh) s (fun t => t = mkTensor sh (params s name)).
Proof. intros name sh s. exists (mkTensor sh (params s name)), s. repeat split. Qed.

Lemma yields_get_training : forall s, yields get_training s (fun b => b = training s).
Proof. intros s. exists (training s), s. repeat split. Qed.

(** One monadic step: run [m] by its specification [H], then continue. *)
Ltac step H :=
  apply yields_bind with (1 := H); cbv beta;
  let s1 := fresh "s" in let Ht := fresh "Htr" in intros ? s1 Ht ?.

(** One pure step: [H] gives the result of the lifted operation. *)
Ltac lstep H :=
  let y := fresh "y" in let Hy := fresh "Hy" in let Hs := fresh "Hs" in
  destruct H as (y & Hy & Hs);
  apply yields_bind_lift with (1 := Hy).

Lemma Reqb_refl : forall r, Reqb r r = true.
Proof. intros r. unfold Reqb. destruct (Req_dec_T r r); congruence. Qed.

Lemma Rltb_irrefl : forall r, Rltb r r = false.
Proof. intros r. unfold Rltb. destruct (Rlt_dec r r); [lra|reflexivity]. Qed.

(** *** The library layers on three axes *)

Lemma Linear_forward_3d : forall self (x : FT) a b s,
    shape x = [a; b; in_features self] ->
    yields (Linear_forward self x) s
           (fun y => shape y = [a; b; out_features self] /\
                     forall i j k, get y [i; j; k] =
                       dadd (dsum (in_features self)
                                  (fun l => dmul (get x [i; j; l])
                                                 (params s (sub (lin_name self) "weight") [k; l])))
                            (params s (sub (lin_name self) "bias") [k])).
Proof.
  intros self x a b s H.
  destruct (linear_3d x (out_features self) (params s (sub (lin_name self) "weight"))
                      (params s (sub (lin_name self) "bias")) H) as (y & Hy & Hs & Hg).
  exists y, s. split; [|split; [reflexivity|split; assumption]].
  unfold Linear_forward, read_param, get_params, bind, ret, lift. now rewrite Hy.
Qed.

Lemma LayerNorm_forward_3d : forall self (x : FT) a b s,
    shape x = [a; b; normalized_shape self] ->
    yields (LayerNorm_forward self x) s (fun y => shape y = [a; b; normalized_shape self]).
Proof.
  intros self x a b s H.
  unfold yields, LayerNorm_forward, read_param, get_params, bind, ret, lift.
  edestruct (@layer_norm_3d x a b (normalized_shape self)) as (y & Hy & Hs); [exact H|].
  rewrite Hy. exists y, s. repeat split; assumption.
Qed.

Lemma Conv1d_forward_3d : forall self (x : FT) B L s,
    shape x = [B; conv_in self; L] -> 0 < L ->
    yields (Conv1d_forward self x) s (fun y => shape y = [B; conv_out self; L]).
Proof.
  intros self x B L s H HL.
  unfold yields, Conv1d_forward, read_param, get_params, bind, ret, lift.
  edestruct (@conv1d_k1_3d x) as (y & Hy & Hs); [exact H|exact HL|].
  rewrite Hy. exists y, s. repeat split; assumption.
Qed.

Lemma Conv1d_forward_empty : forall self (x : FT) B C s,
    shape x = [B; C; 0] -> Conv1d_forward self x s = (Raise RuntimeError, s).
Proof.
  intros self x B C s H.
  unfold Conv1d_forward, read_param, get_params, bind, ret, lift.
  erewrite conv1d_k1_empty; [reflexivity|exact H].
Qed.

Lemma MultiheadAttention_forward_shape : forall self (q k v : FT) L N Sk s,
    shape q = [L; N; embed_dim self] ->
    shape k = [Sk; N; embed_dim self] -> shape v = [Sk; N; embed_dim self] ->
    0 < mha_num_heads self -> embed_dim self mod mha_num_heads self = 0 ->
    0 < N ->
    yields (MultiheadAttention_forward self q k v None) s
           (fun y => shape y = [L; N; embed_dim self]).
Proof.
  intros self q k v L N Sk s Hq Hk Hv HH Hmod HN.
  destruct (@multi_head_attention_shape (params s) (mha_name self) _ _ q k v _ _ _
                                         Hq Hk Hv HH Hmod HN)
    as (y & Hy & Hs).
  exists y, s. split; [|split; [reflexivity|exact Hs]].
  unfold MultiheadAttention_forward, get_params, bind. now rewrite Hy.
Qed.

(** A key laid out with another batch size than the query's is rejected. *)
Lemma MultiheadAttention_forward_rejects : forall self (q k v : FT) L Nq Sk Nk s,
    shape q = [L; Nq; embed_dim self] ->
    shape k = [Sk; Nk; embed_dim self] -> shape v = [Sk; Nk; embed_dim self] ->
    0 < mha_num_heads self -> embed_dim self mod mha_num_heads self = 0 ->
    0 < embed_dim self -> 0 < Sk -> Nk <> Nq ->
    MultiheadAttention_forward self q k v None s = (Raise RuntimeError, s).
Proof.
  intros self q k v L Nq Sk Nk s Hq Hk Hv HH Hmod HE HS Hne.
  unfold MultiheadAttention_forward, get_params, bind.
  now rewrite (@multi_head_attention_batch (params s) (mha_name self) _ _ q k v _ _ _ _
                                           Hq Hk Hv HH Hmod HE HS Hne).
Qed.

Lemma mlp_forward_3d : forall c_fc c_proj (x : FT) a b s,
    shape x = [a; b; in_features c_fc] ->
    out_features c_fc = in_features c_proj ->
    yields (mlp_forward c_fc c_proj x) s (fun y => shape y = [a; b; out_features c_proj]).
Proof.
  intros c_fc c_proj x a b s H E. unfold mlp_forward.
  step (Linear_forward_3d c_fc x s H).
  eapply yields_mono; [apply Linear_forward_3d|intros y Hy; apply Hy].
  unfold QuickGELU_forward. cbn [shape tmap]. rewrite <- E. tauto.
Qed.

Tactic Notation "step" constr(H) "as" ident(y) ident(Hy) :=
  apply yields_bind with (1 := H); cbv beta;
  let s1 := fresh "s" in let Ht := fresh "Htr" in intros y s1 Ht Hy.

Tactic Notation "lstep" constr(H) "as" ident(y) ident(Hs) :=
  let Hy := fresh "Hy" in
  destruct H as (y & Hy & Hs);
  apply yields_bind_lift with (1 := Hy); clear Hy.

(** *** Shapes through the blocks *)

Lemma ResidualAttentionBlock_forward_shape : forall name C H (x : FT) B L s,
    shape x = [B; L; C] -> 0 < H -> C mod H = 0 -> 0 < B ->
    yields (ResidualAttentionBlock_forward (ResidualAttentionBlock_init name C H 0) x None) s
           (fun y => shape y = [B; L; C]).
Proof.
  intros name C H x B L s Hx HH Hmod HB.
  unfold ResidualAttentionBlock_forward, ResidualAttentionBlock_init,
    rab_drop_path_forward, ResidualAttentionBlock_attention.
  cbn [rab_n_head rab_attn rab_ln_1 rab_c_fc rab_c_proj rab_ln_2 rab_drop_path].
  rewrite Rltb_irrefl.
  lstep (permute_102 x Hx) as x1 Hx1. destruct Hx1 as [Hx1 _].
  step (LayerNorm_forward_3d (mkLayerNorm (sub name "ln_1") C) x1 s Hx1) as n1 Hn1.
  cbn [normalized_shape] in Hn1.
  apply yields_bind with (P := fun y : FT => shape y = [L; B; C]).
  { apply yields_bind_lift with (a := @None FT); [reflexivity|].
    apply (@MultiheadAttention_forward_shape
             (mkMultiheadAttention (sub name "attn") C H) n1 n1 n1 L B L);
      cbn [embed_dim mha_num_heads]; auto. }
  intros a s1 Htr1 Ha.
  apply yields_bind_lift with (a := a); [reflexivity|].
  lstep (@tadd_same x1 a ltac:(congruence)) as x2 Hx2. rewrite Hx1 in Hx2.
  step (LayerNorm_forward_3d (mkLayerNorm (sub name "ln_2") C) x2 s1 Hx2) as n2 Hn2.
  cbn [normalized_shape] in Hn2.
  step (@mlp_forward_3d (mkLinear (sub (sub name "mlp") "c_fc") C (C * 4))
                        (mkLinear (sub (sub name "mlp") "c_proj") (C * 4) C)
                        n2 L B s2 Hn2 eq_refl) as m Hm.
  cbn [out_features] in Hm.
  apply yields_bind_lift with (a := m); [reflexivity|].
  lstep (@tadd_same x2 m ltac:(congruence)) as x3 Hx3. rewrite Hx2 in Hx3.
  lstep (permute_102 x3 Hx3) as x4 Hx4. destruct Hx4 as [Hx4 _].
  apply yields_ret. exact Hx4.
Qed.

Lemma Sequential_forward_shape : forall name C H n a (x : FT) B L s,
    shape x = [B; L; C] -> 0 < H -> C mod H = 0 -> 0 < B ->
    yields (Sequential_forward
              (map (fun indx => ResidualAttentionBlock_init (sub name (str indx)) C H 0)
                   (seq a n)) x) s
           (fun y => shape y = [B; L; C]).
Proof.
  intros name C H n. unfold Sequential_forward.
  induction n as [|n IH]; intros a x B L s Hx HH Hmod HB; cbn [seq map foldM].
  - apply yields_ret. exact Hx.
  - step (@ResidualAttentionBlock_forward_shape (sub name (str a)) C H x B L s Hx HH Hmod HB)
      as y Hy.
    apply IH; assumption.
Qed.

Lemma Sequential_forward_nil : forall (x : FT) s (Q : FT -> Prop),
    Q x -> yields (Sequential_forward [] x) s Q.
Proof. intros x s Q H. apply yields_ret. exact H. Qed.

(** The block hands the attention primitive a length-major query (N, B, C)
    and the key (B, K, C) as it came, batch-major: the primitive reads the
    key's second axis, of size K, as its batch axis, so the call is accepted
    only when K is the batch size B. *)
Lemma CrossAttentionBlock_forward_shape : forall name C H (q k : FT) B N s,
    shape q = [B; N; C] -> shape k = [B; B; C] -> 0 < H -> C mod H = 0 -> 0 < B ->
    yields (CrossAttentionBlock_forward (CrossAttentionBlock_init name C H) q k) s
           (fun y => shape y = [B; N; C]).
Proof.
  intros name C H q k B N s Hq Hk HH Hmod HB.
  unfold CrossAttentionBlock_forward, CrossAttentionBlock_init.
  cbn [cab_n_head cab_attn cab_ln_x cab_ln_k cab_c_fc cab_c_proj cab_ln_2].
  lstep (permute_102 q Hq) as q1 Hq1. destruct Hq1 as [Hq1 _].
  step (LayerNorm_forward_3d (mkLayerNorm (sub name "ln_x") C) q1 s Hq1) as nq Hnq.
  step (LayerNorm_forward_3d (mkLayerNorm (sub name "ln_k") C) k s0 Hk) as nk Hnk.
  step (LayerNorm_forward_3d (mkLayerNorm (sub name "ln_k") C) k s1 Hk) as nv Hnv.
  cbn [normalized_shape] in Hnq, Hnk, Hnv.
  step (@MultiheadAttention_forward_shape
          (mkMultiheadAttention (sub name "attn") C H) nq nk nv N B B s2
          Hnq Hnk Hnv HH Hmod HB) as a Ha.
  cbn [embed_dim] in Ha.
  lstep (@tadd_same q1 a ltac:(congruence)) as q2 Hq2. rewrite Hq1 in Hq2.
  step (LayerNorm_forward_3d (mkLayerNorm (sub name "ln_2") C) q2 s3 Hq2) as n2 Hn2.
  cbn [normalized_shape] in Hn2.
  step (@mlp_forward_3d (mkLinear (sub (sub name "mlp") "c_fc") C (C * 4))
                        (mkLinear (sub (sub name "mlp") "c_proj") (C * 4) C)
                        n2 N B s4 Hn2 eq_refl) as m Hm.
  cbn [out_features] in Hm.
  lstep (@tadd_same q2 m ltac:(congruence)) as q3 Hq3. rewrite Hq2 in Hq3.
  lstep (permute_102 q3 Hq3) as q4 Hq4. destruct Hq4 as [Hq4 _].
  apply yields_ret. exact Hq4.
Qed.

Lemma dropout_zero : forall (x : FT) tr, dropout x 0 tr = ret x.
Proof. intros x tr. unfold dropout. now rewrite Reqb_refl. Qed.

Lemma Dropout_forward_zero : forall (x : FT) s,
    yields (Dropout_forward 0 x) s (fun y => y = x).
Proof.
  intros x s. unfold Dropout_forward.
  step (yields_get_training s) as tr Htr0. rewrite dropout_zero.
  apply yields_ret. reflexivity.
Qed.

Lemma Mlp_forward_3d : forall name C hidden (x : FT) a b s,
    shape x = [a; b; C] ->
    yields (Mlp_forward (Mlp_init name C hidden (Some C) 0) x) s
           (fun y => shape y = [a; b; C]).
Proof.
  intros name C hidden x a b s Hx.
  assert (Hout : match C with S o => S o | O => C end = C) by (destruct C; reflexivity).
  unfold Mlp_forward, Mlp_init. cbn [fc1 fc2 drop].
  set (h := match hidden with Some (S h) => S h | _ => C end).
  step (Linear_forward_3d (mkLinear (sub name "fc1") C h) x s Hx) as x1 Hx1.
  destruct Hx1 as [Hx1 _]. cbn [out_features] in Hx1.
  step (Dropout_forward_zero (tmap GELU x1) s0) as d1 Hd1. subst d1.
  step (Linear_forward_3d (mkLinear (sub name "fc2") h
                                    (match C with S o => S o | O => C end))
                          (tmap GELU x1) s1 Hx1) as x2 Hx2.
  destruct Hx2 as [Hx2 _]. cbn [out_features] in Hx2. rewrite Hout in Hx2.
  step (Dropout_forward_zero x2 s2) as d2 Hd2. subst d2.
  apply yields_ret. exact Hx2.
Qed.

Lemma slm_proj_o_shape : forall name C N H cl (x : FT) a b s,
    shape x = [a; b; C] ->
    yields (slm_proj_o (SemanticLearnerModule_init name C N H cl) x) s
           (fun y => shape y = [a; b; C]).
Proof.
  intros name C N H cl x a b s Hx.
  unfold slm_proj_o, SemanticLearnerModule_init. cbn [slm_proj_o_ln slm_proj_o_mlp].
  step (LayerNorm_forward_3d (mkLayerNorm (sub (sub name "proj_o") "ln") C) x s Hx) as x1 Hx1.
  cbn [normalized_shape] in Hx1.
  step (@Mlp_forward_3d (sub (sub name "proj_o") "mlp") C (Some (4 * C)) x1 a b s0 Hx1)
    as x2 Hx2.
  apply yields_ret. exact Hx2.
Qed.

(** *** Operations that leave the whole state alone *)

Lemma neutral_ret : forall A (a : A), state_neutral (ret a).
Proof. intros A a s. reflexivity. Qed.
Lemma neutral_raise : forall A e, state_neutral (@raise A e).
Proof. intros A e s. reflexivity. Qed.
Lemma neutral_lift : forall A (r : Res A), state_neutral (lift r).
Proof. intros A r s. reflexivity. Qed.
Lemma neutral_get_training : state_neutral get_training.
Proof. intros s. reflexivity. Qed.
Lemma neutral_get_params : state_neutral get_params.
Proof. intros s. reflexivity. Qed.

Lemma neutral_bind : forall A B (m : M A) (f : A -> M B),
    state_neutral m -> (forall a, state_neutral (f a)) -> state_neutral (bind m f).
Proof.
  intros A B m f Hm Hf s. unfold bind. specialize (Hm s).
  destruct (m s) as [[a|e] s1]; simpl in *; subst s1; [apply Hf|reflexivity].
Qed.

Lemma neutral_foldM : forall A B (f : A -> B -> M A) l a,
    (forall a b, In b l -> state_neutral (f a b)) -> state_neutral (foldM f a l).
Proof.
  intros A B f l. induction l as [|b l IH]; intros a Hf; simpl.
  - apply neutral_ret.
  - apply neutral_bind; [apply Hf; now left|].
    intros a'. apply IH. intros a0 b0 Hin. apply Hf. now right.
Qed.

Create HintDb neutral.
#[local] Hint Resolve neutral_ret neutral_raise neutral_lift neutral_get_training
  neutral_get_params : neutral.

Ltac neutral :=
  repeat first
    [ progress intros
    | match goal with p : (_ * _)%type |- _ => destruct p end
    | solve [auto with neutral]
    | apply neutral_bind
    | match goal with
      | |- state_neutral (match ?x with _ => _ end) => destruct x
      end ].

Ltac neutral_module f := intros; unfold f; neutral.

Lemma neutral_read_param : forall name sh, state_neutral (read_param name sh).
Proof. neutral_module read_param. Qed.
#[local] Hint Resolve neutral_read_param : neutral.

Lemma neutral_Linear : forall self x, state_neutral (Linear_forward self x).
Proof. neutral_module Linear_forward. Qed.
Lemma neutral_LayerNorm : forall self x, state_neutral (LayerNorm_forward self x).
Proof. neutral_module LayerNorm_forward. Qed.
Lemma neutral_Conv1d : forall self x, state_neutral (Conv1d_forward self x).
Proof. neutral_module Conv1d_forward. Qed.
Lemma neutral_MultiheadAttention : forall self q k v m,
    state_neutral (MultiheadAttention_forward self q k v m).
Proof. neutral_module MultiheadAttention_forward. Qed.
Lemma neutral_Dropout_zero : forall x, state_neutral (Dropout_forward 0 x).
Proof.
  intros x. unfold Dropout_forward. apply neutral_bind; [auto with neutral|].
  intros tr. rewrite dropout_zero. apply neutral_ret.
Qed.
#[local] Hint Resolve neutral_Linear neutral_LayerNorm neutral_Conv1d
  neutral_MultiheadAttention neutral_Dropout_zero : neutral.

Lemma neutral_mlp : forall a b x, state_neutral (mlp_forward a b x).
Proof. neutral_module mlp_forward. Qed.
#[local] Hint Resolve neutral_mlp : neutral.

Lemma neutral_Mlp : forall self x, drop self = 0%R -> state_neutral (Mlp_forward self x).
Proof. intros self x E. unfold Mlp_forward. rewrite E. neutral. Qed.

Lemma neutral_RAB_attention : forall self x m,
    state_neutral (ResidualAttentionBlock_attention self x m).
Proof. neutral_module ResidualAttentionBlock_attention. Qed.
#[local] Hint Resolve neutral_RAB_attention : neutral.

Lemma neutral_RAB : forall self x m,
    rab_drop_path self = None ->
    state_neutral (ResidualAttentionBlock_forward self x m).
Proof.
  intros self x m E. unfold ResidualAttentionBlock_forward, rab_drop_path_forward.
  rewrite E. neutral.
Qed.

Lemma neutral_Sequential : forall blocks x,
    Forall (fun blk => rab_drop_path blk = None) blocks ->
    state_neutral (Sequential_forward blocks x).
Proof.
  intros blocks x H. unfold Sequential_forward. apply neutral_foldM.
  intros a b Hin. apply neutral_RAB. rewrite Forall_forall in H. now apply H.
Qed.

Lemma neutral_CAB : forall self q k, state_neutral (CrossAttentionBlock_forward self q k).
Proof. neutral_module CrossAttentionBlock_forward. Qed.
#[local] Hint Resolve neutral_CAB : neutral.

Lemma neutral_ReconstructLayer : forall self inputs attn,
    state_neutral (ReconstructLayer_forward self inputs attn).
Proof. neutral_module ReconstructLayer_forward. Qed.

Lemma neutral_slm_proj_o : forall self x,
    drop (slm_proj_o_mlp self) = 0%R -> state_neutral (slm_proj_o self x).
Proof.
  intros self x E. unfold slm_proj_o. apply neutral_bind; [auto with neutral|].
  intros y. apply neutral_bind; [now apply neutral_Mlp|]. intros. apply neutral_ret.
Qed.


(** *** Runs and their final states *)

Lemma neutral_run : forall A (m : M A) s r s',
    state_neutral m -> m s = (r, s') -> s' = s.
Proof. intros A m s r s' H E. specialize (H s). rewrite E in H. exact H. Qed.

Lemma bind_inv : forall A B (m : M A) (f : A -> M B) s b s',
    bind m f s = (Ok b, s') -> exists a s1, m s = (Ok a, s1) /\ f a s1 = (Ok b, s').
Proof.
  intros A B m f s b s' H. unfold bind in H.
  destruct (m s) as [[a|e] s1]; [eauto|discriminate].
Qed.

Lemma bind_neutral_inv : forall A B (m : M A) (f : A -> M B) s b s',
    state_neutral m -> bind m f s = (Ok b, s') ->
    exists a, m s = (Ok a, s) /\ f a s = (Ok b, s').
Proof.
  intros A B m f s b s' Hn H. apply bind_inv in H. destruct H as (a & s1 & E & H).
  pose proof (@neutral_run _ _ _ _ _ Hn E). subst s1. eauto.
Qed.

Lemma lift_bind_inv : forall A B (r : Res A) (f : A -> M B) s b s',
    bind (lift r) f s = (Ok b, s') -> exists a, r = Ok a /\ f a s = (Ok b, s').
Proof.
  intros A B r f s b s' H. unfold bind, lift in H.
  destruct r as [a|e]; [eauto|discriminate].
Qed.

Lemma lift_inv : forall A (r : Res A) s a s', lift r s = (Ok a, s') -> r = Ok a /\ s' = s.
Proof. intros A r s a s' H. unfold lift in H. now injection H as -> ->. Qed.

Lemma yields_neutral_run : forall A (m : M A) s (Q : A -> Prop),
    state_neutral m -> yields m s Q -> exists a, m s = (Ok a, s) /\ Q a.
Proof.
  intros A m s Q Hn (a & s' & E & _ & HQ). pose proof (@neutral_run _ _ _ _ _ Hn E). subst s'. eauto.
Qed.

Lemma binop_shape_inv : forall f (a b y : FT),
    shape a = shape b -> binop f a b = Ok y -> shape y = shape a.
Proof.
  intros f a b y E H. destruct (@binop_same_shape f a b E) as (y' & Hy & Hs & _).
  congruence.
Qed.

Lemma softmax_shape_inv : forall (x y : FT) dim, softmax x dim = Ok y -> shape y = shape x.
Proof.
  intros x y dim H. unfold softmax in H.
  destruct (wrap_dim (ndim x) dim); [|discriminate]. cbn [rbind] in H.
  now injection H as <-.
Qed.

Lemma scatter_shape_inv : forall (self y : FT) dim index v,
    scatter_ self dim index v = Ok y -> shape y = shape self.
Proof.
  intros self y dim index v H. unfold scatter_ in H.
  destruct (wrap_dim (ndim self) dim); [|discriminate]. cbn [rbind] in H.
  destruct (negb _); [discriminate|]. now injection H as <-.
Qed.

(** A successful hard routing returns a tensor shaped like the scores, and
    has drawn one variate per score in training mode and none otherwise. *)
Lemma gumbel_softmax_effect : forall (logits : FT) tau dim tr s y s',
    gumbel_softmax logits tau true dim tr s = (Ok y, s') ->
    shape y = shape logits /\
    s' = if tr then advance (numel (shape logits)) s else s.
Proof.
  intros logits tau dim tr s y s' H. unfold gumbel_softmax in H.
  apply bind_inv in H. destruct H as (y_soft & s1 & Hsoft & H).
  assert (Hs : shape y_soft = shape logits /\
               s1 = if tr then advance (numel (shape logits)) s else s).
  { destruct tr.
    - apply bind_inv in Hsoft. destruct Hsoft as (g & s2 & Hg & Hsoft).
      rewrite Gumbel_sample_run in Hg. injection Hg as <- <-.
      apply lift_bind_inv in Hsoft. destruct Hsoft as (g2 & Hg2 & Hsoft).
      apply lift_inv in Hsoft. destruct Hsoft as [Hsm ->].
      split; [|reflexivity].
      apply softmax_shape_inv in Hsm. rewrite Hsm. unfold div_scalar. cbn [shape tmap].
      apply (@binop_shape_inv dadd logits (gumbel_noise (shape logits) s) g2 eq_refl Hg2).
    - apply lift_inv in Hsoft. destruct Hsoft as [Hsm ->].
      split; [now apply softmax_shape_inv in Hsm|reflexivity]. }
  destruct Hs as [Hsh ->].
  apply lift_bind_inv in H. destruct H as ([mx index] & Hmax & H). cbv beta iota in H.
  apply lift_bind_inv in H. destruct H as (y_hard & Hyh & H).
  apply lift_bind_inv in H. destruct H as (t & Ht & H).
  apply lift_inv in H. destruct H as [Hret ->]. split; [|reflexivity].
  apply scatter_shape_inv in Hyh. cbn [shape zeros_like] in Hyh.
  assert (Et : shape t = shape y_hard).
  { apply (@binop_shape_inv dsub y_hard (detach y_soft) t); [|exact Ht].
    unfold detach. cbn [shape tmap]. congruence. }
  rewrite (@binop_shape_inv dadd t y_soft y); [congruence|congruence|exact Hret].
Qed.

Lemma init_blocks_have_no_drop_path : forall name C H (l : list nat),
    Forall (fun blk => rab_drop_path blk = None)
           (map (fun indx => ResidualAttentionBlock_init (sub name (str indx)) C H 0) l).
Proof.
  intros name C H l. apply Forall_forall. intros blk Hin.
  apply in_map_iff in Hin. destruct Hin as (i & <- & _).
  unfold ResidualAttentionBlock_init. cbn [rab_drop_path]. now rewrite Rltb_irrefl.
Qed.

Lemma neutral_stack : forall name C H (depth : Z) (x : FT),
    state_neutral
      (Sequential_forward
         (if (0 <? depth)%Z
          then map (fun indx => ResidualAttentionBlock_init (sub name (str indx)) C H 0)
                   (seq 0 (Z.to_nat depth))
          else []) x).
Proof.
  intros name C H depth x. apply neutral_Sequential.
  destruct (0 <? depth)%Z; [apply init_blocks_have_no_drop_path|constructor].
Qed.


Lemma Linear_forward_run : forall self (x : FT) a b s,
    shape x = [a; b; in_features self] ->
    exists y, Linear_forward self x s = (Ok y, s) /\
              shape y = [a; b; out_features self] /\
              forall i j k, get y [i; j; k] =
                dadd (dsum (in_features self)
                           (fun l => dmul (get x [i; j; l])
                                          (params s (sub (lin_name self) "weight") [k; l])))
                     (params s (sub (lin_name self) "bias") [k]).
Proof.
  intros self x a b s H.
  destruct (linear_3d x (out_features self) (params s (sub (lin_name self) "weight"))
                      (params s (sub (lin_name self) "bias")) H) as (y & Hy & Hs & Hg).
  exists y. split; [|split; assumption].
  unfold Linear_forward, read_param, get_params, bind, ret, lift. now rewrite Hy.
Qed.

Lemma Linear_forward_rejects : forall self (x : FT) a b n s,
    shape x = [a; b; n] -> n <> in_features self ->
    Linear_forward self x s = (Raise RuntimeError, s).
Proof.
  intros self x a b n s H Hne.
  unfold Linear_forward, read_param, get_params, bind, ret, lift, linear, ndim, last_axis.
  rewrite H. cbn [length shape nth Nat.sub Nat.eqb orb negb].
  replace (n =? in_features self) with false by (symmetry; now apply Nat.eqb_neq).
  reflexivity.
Qed.

Lemma LayerNorm_forward_run : forall self (x : FT) a b s,
    shape x = [a; b; normalized_shape self] ->
    exists y, LayerNorm_forward self x s = (Ok y, s) /\
              shape y = [a; b; normalized_shape self].
Proof.
  intros self x a b s H.
  destruct (LayerNorm_forward_3d self x s H) as (y & s' & Hrun & _ & Hy).
  exists y. split; [|exact Hy].
  pose proof (@neutral_LayerNorm self x s) as Hn. rewrite Hrun in Hn. cbn in Hn. now subst.
Qed.

Lemma LayerNorm_forward_rejects : forall self (x : FT) a b n s,
    shape x = [a; b; n] -> n <> normalized_shape self ->
    LayerNorm_forward self x s = (Raise RuntimeError, s).
Proof.
  intros self x a b n s H Hne.
  unfold LayerNorm_forward, read_param, get_params, bind, ret, lift, layer_norm, ndim,
    last_axis.
  rewrite H. cbn [length nth Nat.sub Nat.eqb orb negb].
  replace (n =? normalized_shape self) with false by (symmetry; now apply Nat.eqb_neq).
  reflexivity.
Qed.

(** *** The cross-attention block and the refinement loop *)

Lemma CrossAttentionBlock_forward_rejects : forall name C H (q k : FT) B N K s,
    shape q = [B; N; C] -> shape k = [B; K; C] ->
    0 < H -> C mod H = 0 -> 0 < C -> 0 < B -> K <> B ->
    CrossAttentionBlock_forward (CrossAttentionBlock_init name C H) q k s
    = (Raise RuntimeError, s).
Proof.
  intros name C H q k B N K s Hq Hk HH Hmod HC HB Hne.
  unfold CrossAttentionBlock_forward, CrossAttentionBlock_init.
  cbn [cab_n_head cab_attn cab_ln_x cab_ln_k cab_c_fc cab_c_proj cab_ln_2].
  destruct (permute_102 q Hq) as (q1 & Eq1 & Hq1 & _).
  erewrite lift_ok; [|exact Eq1].
  destruct (LayerNorm_forward_run (mkLayerNorm (sub name "ln_x") C) q1 s Hq1)
    as (nq & Enq & Hnq).
  erewrite bind_ok; [|exact Enq].
  destruct (LayerNorm_forward_run (mkLayerNorm (sub name "ln_k") C) k s Hk)
    as (nk & Enk & Hnk).
  erewrite bind_ok; [|exact Enk]. erewrite bind_ok; [|exact Enk].
  cbn [normalized_shape] in Hnq, Hnk.
  erewrite bind_raise; [reflexivity|].
  apply (@MultiheadAttention_forward_rejects
           (mkMultiheadAttention (sub name "attn") C H) nq nk nk N B B K s);
    cbn [embed_dim mha_num_heads]; assumption.
Qed.

Lemma neutral_cross_att_loop : forall (org : FT) blocks (q : FT),
    state_neutral (foldM (fun q_feat attn_fct_ =>
                            kv_ <- lift (cat2 q_feat org 1) ;;
                            CrossAttentionBlock_forward attn_fct_ q_feat kv_)
                         q blocks).
Proof.
  intros org blocks q. apply neutral_foldM. intros q' blk _.
  apply neutral_bind; [apply neutral_lift|intros; apply neutral_CAB].
Qed.

(** The loop builds its key and value sequence by appending the L inputs to
    the N queries: with a block to run, it runs only when N + L is the batch
    size. *)
Lemma cross_att_loop_shape : forall name C H (org : FT) B N L n a (q : FT) s,
    shape q = [B; N; C] -> shape org = [B; L; C] -> 0 < H -> C mod H = 0 -> 0 < B ->
    n = 0 \/ N + L = B ->
    yields (foldM (fun q_feat attn_fct_ =>
                     kv_ <- lift (cat2 q_feat org 1) ;;
                     CrossAttentionBlock_forward attn_fct_ q_feat kv_)
                  q
                  (map (fun indx => CrossAttentionBlock_init (sub name (str indx)) C H)
                       (seq a n))) s
           (fun y => shape y = [B; N; C]).
Proof.
  intros name C H org B N L n.
  induction n as [|n IH]; intros a q s Hq Ho HH Hmod HB Hrun; cbn [seq map foldM].
  - apply yields_ret. exact Hq.
  - destruct Hrun as [Hrun|Hrun]; [discriminate|].
    apply yields_bind with (P := fun y : FT => shape y = [B; N; C]).
    + lstep (cat2_dim1 q org Hq Ho) as kv Hkv. destruct Hkv as [Hkv _].
      rewrite Hrun in Hkv.
      apply CrossAttentionBlock_forward_shape; assumption.
    + intros q' s1 _ Hq'. apply IH; auto.
Qed.

Lemma cross_att_loop_rejects : forall name C H (org : FT) B N L n a (q : FT) s,
    shape q = [B; N; C] -> shape org = [B; L; C] ->
    0 < H -> C mod H = 0 -> 0 < C -> 0 < B ->
    0 < n -> N + L <> B ->
    foldM (fun q_feat attn_fct_ =>
             kv_ <- lift (cat2 q_feat org 1) ;;
             CrossAttentionBlock_forward attn_fct_ q_feat kv_)
          q
          (map (fun indx => CrossAttentionBlock_init (sub name (str indx)) C H)
               (seq a n)) s
    = (Raise RuntimeError, s).
Proof.
  intros name C H org B N L n a q s Hq Ho HH Hmod HC HB Hn Hne.
  destruct n as [|n]; [lia|]. cbn [seq map foldM].
  destruct (cat2_dim1 q org Hq Ho) as (kv & Ekv & Hkv & _).
  erewrite bind_raise; [reflexivity|].
  erewrite lift_ok; [|exact Ekv].
  apply CrossAttentionBlock_forward_rejects with (B := B) (N := N) (K := N + L); assumption.
Qed.

(** *** The forward pass of the Semantic Learner *)

Lemma training_after_routing : forall B N L s,
    training (after_routing B N L s) = training s.
Proof.
  intros B N L s. unfold after_routing.
  destruct (training s) eqn:E; [cbn; exact E|exact E].
Qed.

(** A pure step of a run. *)
Ltac run_lift E := erewrite lift_ok; [|exact E].
(** A step of a run that returns in the state it started in. *)
Ltac run_bind E := erewrite bind_ok; [|exact E].

(** On a (B, L, C) input with at least one position, the module runs when it
    has no refinement block or N + L is the batch size; it ends in the state
    [after_routing B N L s], and every intermediate tensor is the outcome of
    its step. *)
Lemma SemanticLearnerModule_forward_trace : forall name C N H cl (inputs : FT) B L s,
    shape inputs = [B; L; C] -> 0 < H -> C mod H = 0 -> 0 < B -> 0 < N -> 0 < L ->
    cl = 0 \/ N + L = B ->
    let self := SemanticLearnerModule_init name C N H cl in
    let s' := after_routing B N L s in
    exists outputs hard soft q_feat n in_feature k k1 k_feat v v_feat attn agg r,
      SemanticLearnerModule_forward self inputs s = (Ok (outputs, hard, soft, q_feat), s') /\
      SemanticLearnerModule_shapes B N L C (outputs, hard, soft, q_feat) /\
      LayerNorm_forward (slm_norm self) inputs s = (Ok n, s) /\
      permute n [0; 2; 1] = Ok in_feature /\
      Conv1d_forward (slm_k_conv self) in_feature s = (Ok k, s) /\
      permute k [0; 2; 1] = Ok k1 /\
      LayerNorm_forward (slm_k_ln self) k1 s = (Ok k_feat, s) /\
      Conv1d_forward (slm_v_conv self) in_feature s = (Ok v, s) /\
      permute v [0; 2; 1] = Ok v_feat /\ shape v_feat = [B; L; C] /\
      einsum "...si,...di->...sd" q_feat k_feat = Ok attn /\ shape attn = [B; N; L] /\
      gumbel_softmax attn 0.9 true 1 (training s) s = (Ok hard, s') /\
      softmax attn 1 = Ok soft /\
      aggregate hard v_feat = Ok agg /\ shape agg = [B; N; C] /\
      tadd q_feat agg = Ok r /\
      slm_proj_o self r s' = (Ok outputs, s').
Proof.
  intros name C N H cl inputs B L s Hi HH Hmod HB HN HL Hrun self s'.
  unfold SemanticLearnerModule_forward.
  assert (Esz : size3 inputs = Ok (B, L, C)) by (unfold size3; now rewrite Hi).
  run_lift Esz. cbv beta iota.
  subst self. unfold SemanticLearnerModule_init at 1 2 3 4 5 6 7 8 9.
  cbn [slm_name slm_in_channels slm_num_heads slm_num_tokens slm_norm slm_cross_att
       slm_cross_ln slm_k_conv slm_k_ln slm_v_conv].
  destruct (LayerNorm_forward_run (mkLayerNorm (sub name "norm") C) inputs s Hi)
    as (n & En & Hn).
  run_bind En. cbn [normalized_shape] in Hn.
  destruct (permute_021 n Hn) as (in_feature & Ein & Hin & _). run_lift Ein.
  unfold read_param at 1. unfold get_params at 1.
  change (bind (bind (fun s0 : State => (Ok (params s0), s0))
                     (fun w => ret (mkTensor [N; C] (w (sub name "semantic_center")))))
               ?f s)
    with (f (mkTensor [N; C] (params s (sub name "semantic_center"))) s).
  set (q0 := mkTensor [N; C] (params s (sub name "semantic_center"))).
  destruct (@broadcast_center q0 B N C eq_refl) as (q1 & Eq1 & Hq1). run_lift Eq1.
  destruct (yields_neutral_run
              (@neutral_cross_att_loop inputs _ q1)
              (@cross_att_loop_shape (sub name "cross_att") C H inputs B N L cl 0 q1 s
                                     Hq1 Hi HH Hmod HB Hrun))
    as (q2 & Eq2 & Hq2).
  run_bind Eq2.
  destruct (LayerNorm_forward_run (mkLayerNorm (sub name "cross_ln") C) q2 s Hq2)
    as (q_feat & Eq & Hq).
  run_bind Eq. cbn [normalized_shape] in Hq.
  destruct (yields_neutral_run
              (@neutral_Conv1d (mkConv1d (sub name "k_conv") C C H) in_feature)
              (Conv1d_forward_3d (mkConv1d (sub name "k_conv") C C H) in_feature s Hin HL))
    as (k & Ek & Hk).
  run_bind Ek. cbn [conv_out] in Hk.
  destruct (permute_021 k Hk) as (k1 & Ek1 & Hk1 & _). run_lift Ek1.
  destruct (LayerNorm_forward_run (mkLayerNorm (sub name "k_ln") C) k1 s Hk1)
    as (k_feat & Ekf & Hkf).
  run_bind Ekf. cbn [normalized_shape] in Hkf.
  destruct (yields_neutral_run
              (@neutral_Conv1d (mkConv1d (sub name "v_conv") C C H) in_feature)
              (Conv1d_forward_3d (mkConv1d (sub name "v_conv") C C H) in_feature s Hin HL))
    as (v & Ev & Hv).
  run_bind Ev. cbn [conv_out] in Hv.
  destruct (permute_021 v Hv) as (v_feat & Evf & Hvf & _). run_lift Evf.
  destruct (einsum_si_di_sd q_feat k_feat Hq Hkf) as (attn & Eattn & Hattn & _).
  run_lift Eattn.
  unfold get_training at 1.
  change (bind (fun s0 : State => (Ok (training s0), s0)) ?f s) with (f (training s) s).
  assert (Hd : wrap_dim (ndim attn) 1 = Ok 1) by (unfold ndim; now rewrite Hattn).
  destruct (@gumbel_softmax_hard_run attn 0.9 1 1 (training s) s Hd
              ltac:(rewrite Hattn; exact HN)) as (hard & s1 & Eg & _ & Hhard).
  assert (Es1 : s1 = s').
  { destruct (gumbel_softmax_effect _ _ _ _ _ Eg) as [_ ->].
    subst s'. unfold after_routing. rewrite Hattn. cbn [numel].
    replace (B * (N * (L * 1))) with (B * N * L) by lia. reflexivity. }
  subst s1. rewrite Hattn in Hhard.
  run_bind Eg.
  destruct (softmax_dim1 attn Hattn) as (soft & Esoft & Hsoft). run_lift Esoft.
  destruct (aggregate_3d hard v_feat Hhard Hvf) as (nrm & agg & _ & Eagg & Hagg & _).
  run_lift Eagg.
  destruct (@tadd_same q_feat agg ltac:(congruence)) as (r & Er & Hr).
  run_lift Er. rewrite Hq in Hr.
  destruct (yields_neutral_run
              (@neutral_slm_proj_o (SemanticLearnerModule_init name C N H cl) r eq_refl)
              (@slm_proj_o_shape name C N H cl r B N s' Hr))
    as (outputs & Eo & Ho).
  run_bind Eo.
  exists outputs, hard, soft, q_feat, n, in_feature, k, k1, k_feat, v, v_feat, attn, agg, r.
  split; [reflexivity|].
  split; [repeat split; assumption|].
  repeat (split; [assumption|]). exact Eo.
Qed.

Lemma SemanticLearnerModule_forward_rejects : forall name C N H cl (inputs : FT) B L s,
    shape inputs = [B; L; C] -> 0 < H -> C mod H = 0 -> 0 < C -> 0 < B ->
    ~ (0 < L /\ (cl = 0 \/ N + L = B)) ->
    SemanticLearnerModule_forward (SemanticLearnerModule_init name C N H cl) inputs s
    = (Raise RuntimeError, s).
Proof.
  intros name C N H cl inputs B L s Hi HH Hmod HC HB Hno.
  unfold SemanticLearnerModule_forward.
  assert (Esz : size3 inputs = Ok (B, L, C)) by (unfold size3; now rewrite Hi).
  run_lift Esz. cbv beta iota.
  unfold SemanticLearnerModule_init at 1 2 3 4 5 6 7 8 9.
  cbn [slm_name slm_in_channels slm_num_heads slm_num_tokens slm_norm slm_cross_att
       slm_cross_ln slm_k_conv slm_k_ln slm_v_conv].
  destruct (LayerNorm_forward_run (mkLayerNorm (sub name "norm") C) inputs s Hi)
    as (n & En & Hn).
  run_bind En. cbn [normalized_shape] in Hn.
  destruct (permute_021 n Hn) as (in_feature & Ein & Hin & _). run_lift Ein.
  unfold read_param at 1. unfold get_params at 1.
  change (bind (bind (fun s0 : State => (Ok (params s0), s0))
                     (fun w => ret (mkTensor [N; C] (w (sub name "semantic_center")))))
               ?f s)
    with (f (mkTensor [N; C] (params s (sub name "semantic_center"))) s).
  set (q0 := mkTensor [N; C] (params s (sub name "semantic_center"))).
  destruct (@broadcast_center q0 B N C eq_refl) as (q1 & Eq1 & Hq1). run_lift Eq1.
  destruct (Nat.eq_dec cl 0) as [Hcl|Hcl]; [|destruct (Nat.eq_dec (N + L) B) as [HNL|HNL]].
  3:{ erewrite bind_raise; [reflexivity|].
      apply cross_att_loop_rejects with (B := B) (N := N) (L := L); auto. lia. }
  all: assert (HL : L = 0) by (destruct L; [reflexivity|exfalso; apply Hno; split; [lia|auto]]);
    subst L;
    destruct (yields_neutral_run
                (@neutral_cross_att_loop inputs _ q1)
                (@cross_att_loop_shape (sub name "cross_att") C H inputs B N 0 cl 0 q1 s
                                       Hq1 Hi HH Hmod HB ltac:(auto)))
      as (q2 & Eq2 & Hq2);
    run_bind Eq2;
    destruct (LayerNorm_forward_run (mkLayerNorm (sub name "cross_ln") C) q2 s Hq2)
      as (q_feat & Eq & Hq);
    run_bind Eq;
    erewrite bind_raise; [reflexivity|];
    apply Conv1d_forward_empty with (B := B) (C := C); exact Hin.
Qed.

(** The forward pass of the Reconstruct Layer on grouped tokens (B, N, C) and
    a routing map (B, N, M). *)
Lemma ReconstructLayer_forward_spec : forall name N out (inputs attn : FT) B Mo C s,
    shape inputs = [B; N; C] -> shape attn = [B; N; Mo] ->
    let self := ReconstructLayer_init name N out in
    let weight := params s (sub (lin_name (rl_a_fc self)) "weight") in
    let bias := params s (sub (lin_name (rl_a_fc self)) "bias") in
    yields (ReconstructLayer_forward self inputs attn) s
           (fun y => shape y = [B; Mo; C] /\
                     forall b m c, b < B ->
                       get y [b; m; c] =
                       quick_gelu
                         (dsum N (fun d =>
                            dmul (get inputs [b; d; c])
                                 (dadd (dsum N (fun j => dmul (get attn [b; j; m])
                                                              (weight [d; j])))
                                       (bias [d]))))).
Proof.
  intros name N out inputs attn B Mo C s Hi Ha self weight bias.
  unfold ReconstructLayer_forward. subst self. cbn [ReconstructLayer_init rl_a_fc].
  lstep (permute_021 attn Ha) as a1 Ha1. destruct Ha1 as [Ha1 Hg1].
  set (fc := mkLinear (sub (sub name "rec_proj_a") "a_fc") N N).
  step (Linear_forward_3d fc a1 s Ha1) as a2 Ha2. destruct Ha2 as [Ha2 Hg2].
  cbn [out_features in_features fc] in Ha2, Hg2.
  lstep (einsum_dh_md_mh inputs a2 Hi Ha2) as o Ho. destruct Ho as [Ho Hgo].
  apply yields_ret. split; [exact Ho|].
  intros b m c Hb. unfold QuickGELU_forward. cbn [get tmap].
  rewrite Hgo by exact Hb. f_equal. apply dsum_ext. intros d _.
  rewrite Hg2. f_equal. f_equal. apply dsum_ext. intros j _. now rewrite Hg1.
Qed.

Lemma stack_forward_shape : forall name C H (depth : Z) (x : FT) B L s,
    shape x = [B; L; C] -> 0 < H -> C mod H = 0 -> 0 < B ->
    yields (Sequential_forward
              (if (0 <? depth)%Z
               then map (fun indx => ResidualAttentionBlock_init (sub name (str indx)) C H 0)
                        (seq 0 (Z.to_nat depth))
               else []) x) s
           (fun y => shape y = [B; L; C]).
Proof.
  intros name C H depth x B L s Hx HH Hmod HB.
  destruct (0 <? depth)%Z.
  - apply Sequential_forward_shape; assumption.
  - apply Sequential_forward_nil. exact Hx.
Qed.

(** *** The branches of SegViT.forward *)

Lemma div_pos_ge : forall a b, 0 < a / b -> 0 < a.
Proof. intros a b H. destruct a; [|lia]. rewrite Nat.Div0.div_0_l in H. lia. Qed.

Lemma MultiheadAttention_check_ok : forall E H,
    0 < H -> E mod H = 0 -> 0 < E -> MultiheadAttention_check E H = Ok tt.
Proof.
  intros E H HH Hmod HE. unfold MultiheadAttention_check.
  destruct (Nat.eqb_spec E 0); [lia|]. destruct (Nat.eqb_spec H 0); [lia|]. cbn [orb].
  apply Nat.Div0.div_exact in Hmod.
  replace (E / H * H =? E) with true; [reflexivity|].
  symmetry. apply Nat.eqb_eq. lia.
Qed.

Lemma Conv1d_check_ok : forall C H, 0 < H -> C mod H = 0 -> Conv1d_check C C H = Ok tt.
Proof.
  intros C H HH Hmod. unfold Conv1d_check.
  destruct (Nat.eqb_spec H 0); [lia|]. now rewrite Hmod.
Qed.

Lemma Conv1d_check_inv : forall C H, Conv1d_check C C H = Ok tt -> 0 < H /\ C mod H = 0.
Proof.
  intros C H E. unfold Conv1d_check in E.
  destruct (Nat.eqb_spec H 0); [discriminate|].
  destruct (Nat.eqb_spec (C mod H) 0); [split; [lia|assumption]|discriminate].
Qed.

Section Paths.

Variables (dim_in patch_size input_resolution : nat) (first_stage_layer : Z)
          (cross_layer group_num : nat) (self : SegViT).
Hypothesis Hinit :
  SegViT_init dim_in patch_size input_resolution first_stage_layer cross_layer group_num
  = Ok self.
Hypothesis Hgroups : 0 < group_num.

Lemma SegViT_init_fields :
  patch_size <> 0 /\ 0 < dim_in / 64 /\ dim_in mod (dim_in / 64) = 0 /\
  self = mkSegViT dim_in (input_resolution / patch_size)
           (map (fun indx => ResidualAttentionBlock_init (sub "layers0" (str indx))
                                                         dim_in (dim_in / 64) 0)
                (seq 0 (Z.to_nat first_stage_layer)))
           (SemanticLearnerModule_init "semantic_layer2" dim_in group_num
                                       (dim_in / 64) cross_layer)
           (if (0 <? 12 - first_stage_layer)%Z
            then map (fun indx => ResidualAttentionBlock_init (sub "layers2" (str indx))
                                                              dim_in (dim_in / 64) 0)
                     (seq 0 (Z.to_nat (12 - first_stage_layer)))
            else [])
           (if (0 <? 12 - first_stage_layer)%Z
            then map (fun indx => ResidualAttentionBlock_init (sub "layers_mae2" (str indx))
                                                              dim_in (dim_in / 64) 0)
                     (seq 0 (Z.to_nat (12 - first_stage_layer)))
            else [])
           (ReconstructLayer_init "reconstruct_layer2" group_num dim_in).
Proof.
  pose proof Hinit as E. unfold SegViT_init in E.
  destruct (Nat.eqb_spec patch_size 0) as [|Hne]; [discriminate|].
  cbn [fst snd] in E.
  destruct (if (0 <? first_stage_layer)%Z then _ else _) as [[]|e]; [|discriminate].
  cbn [rbind] in E.
  destruct (if 0 <? cross_layer then _ else _) as [[]|e]; [|discriminate].
  cbn [rbind] in E.
  destruct (Conv1d_check dim_in dim_in (dim_in / 64)) as [[]|e] eqn:Hc; [|discriminate].
  cbn [rbind] in E. injection E as <-.
  apply Conv1d_check_inv in Hc. destruct Hc as [Hh Hm].
  repeat split; assumption.
Qed.

Let Hheads : 0 < dim_in / 64 := proj1 (proj2 SegViT_init_fields).
Let Hmod : dim_in mod (dim_in / 64) = 0 := proj1 (proj2 (proj2 SegViT_init_fields)).
Let Hself := proj2 (proj2 (proj2 SegViT_init_fields)).

(** The layout conversion, the split and the stage-1 blocks run on every
    length-major (1 + L, B, C) input. *)
Lemma SegViT_stage1_run : forall (x : FT) B L s,
    shape x = [S L; B; dim_in] -> 0 < B ->
    exists x_, SegViT_stage1 self x s x_ /\ shape x_ = [B; L; dim_in].
Proof.
  intros x B L s Hx HB. unfold SegViT_stage1.
  destruct (permute_102 x Hx) as (x1 & Ex1 & Hx1 & _).
  destruct (split2_cls x1 Hx1) as (cls & x0 & Hsp & _ & Hx0 & _).
  destruct (@yields_neutral_run _ (Sequential_forward (layers0 self) x0) s
              (fun y : FT => shape y = [B; L; dim_in])) as (x_ & Ex_ & Hx_).
  { apply neutral_Sequential. rewrite Hself. cbn [layers0].
    apply init_blocks_have_no_drop_path. }
  { rewrite Hself. cbn [layers0]. apply Sequential_forward_shape; assumption. }
  exists x_. split; [|exact Hx_].
  exists x1, cls, x0. split; [exact Ex1|]. split; [|exact Ex_].
  rewrite Hx1. cbn [nth]. exact Hsp.
Qed.

(** After the stage-1 blocks the forward pass is its branch followed by the
    conversion back to the length-major layout. *)
Lemma SegViT_forward_after_stage1 : forall (x x_ : FT) vf s,
    SegViT_stage1 self x s x_ ->
    SegViT_forward self x None vf s =
    ('(y, mid_states) <-
        (if do_mae_mask self (nth 1 (shape x_) 0)
         then SegViT_reconstruct_path self x_
         else SegViT_grouping_path self x_) ;;
     out <- lift (permute y [1; 0; 2]) ;;
     ret (out, mid_states)) s.
Proof.
  intros x x_ vf s (x1 & cls & x0 & Ex1 & Esp & Ex_).
  unfold SegViT_forward. run_lift Ex1. run_lift Esp. cbv beta iota.
  run_bind Ex_. reflexivity.
Qed.

Lemma SegViT_semantic_layer_run : forall (x_ : FT) B L s,
    shape x_ = [B; L; dim_in] -> 0 < B -> 0 < L ->
    cross_layer = 0 \/ group_num + L = B ->
    exists sx_ hard soft q,
      SemanticLearnerModule_forward (semantic_layer2 self) x_ s
      = (Ok (sx_, hard, soft, q), after_routing B group_num L s) /\
      SemanticLearnerModule_shapes B group_num L dim_in (sx_, hard, soft, q).
Proof.
  intros x_ B L s Hx HB HL Hrun. rewrite Hself. cbn [semantic_layer2].
  destruct (@SemanticLearnerModule_forward_trace "semantic_layer2" dim_in group_num
              (dim_in / 64) cross_layer x_ B L s Hx Hheads Hmod HB Hgroups HL Hrun)
    as (sx_ & hard & soft & q & n & inf & k & k1 & kf & v & vf & attn & agg & r
        & Erun & Hsh & _).
  exists sx_, hard, soft, q. split; assumption.
Qed.

(** The reconstruction branch on a stage-1 output of shape (B, L, C). *)
Lemma SegViT_reconstruct_path_run : forall (x_ : FT) B L s,
    shape x_ = [B; L; dim_in] -> 0 < B -> 0 < L ->
    cross_layer = 0 \/ group_num + L = B ->
    let s' := after_routing B group_num L s in
    exists sx_ hard rec h y,
      SegViT_reconstruct_path self x_ s = (Ok (y, mkMidStates (Some h) []), s') /\
      SegViT_reconstruct_steps self x_ s s' sx_ hard rec h y /\
      shape sx_ = [B; group_num; dim_in] /\ shape hard = [B; group_num; L] /\
      shape rec = [B; L; dim_in] /\ shape h = [B; L; dim_in] /\
      shape y = [B; 1 + L; dim_in] /\
      forall b c,
        get y [b; 0; c] = ddiv (dsum L (fun l => get h [b; l; c])) (dconst (INR L)) /\
        forall l, get y [b; S l; c] = get h [b; l; c].
Proof.
  intros x_ B L s Hx HB HL Hrun s'.
  destruct (SegViT_semantic_layer_run x_ s Hx HB HL Hrun)
    as (sx_ & hard & soft & q & Eslm & Hsx & Hhard & _ & _).
  fold s' in Eslm.
  destruct (@yields_neutral_run _
              (ReconstructLayer_forward (reconstruct_layer2 self) sx_ hard) s'
              (fun y : FT => shape y = [B; L; dim_in])) as (rec & Erec & Hrec).
  { apply neutral_ReconstructLayer. }
  { rewrite Hself. cbn [reconstruct_layer2].
    apply yields_mono with (1 := @ReconstructLayer_forward_spec
            "reconstruct_layer2"%string group_num dim_in sx_ hard B L dim_in s' Hsx Hhard).
    cbv zeta. intros y [Hy _]. exact Hy. }
  destruct (@yields_neutral_run _ (Sequential_forward (layers_mae2 self) rec) s'
              (fun y : FT => shape y = [B; L; dim_in])) as (h & Eh & Hh).
  { rewrite Hself. cbn [layers_mae2]. apply neutral_stack. }
  { rewrite Hself. cbn [layers_mae2]. apply stack_forward_shape; assumption. }
  destruct (mean_keepdim_dim1 h Hh) as (cls & Ecls & Hcls & Hgc).
  destruct (cat2_dim1 cls h Hcls Hh) as (y & Ey & Hy & Hgy).
  exists sx_, hard, rec, h, y.
  split.
  { unfold SegViT_reconstruct_path. run_bind Eslm. cbv beta iota.
    run_bind Erec. run_bind Eh. run_lift Ecls. run_lift Ey. reflexivity. }
  split.
  { split; [exists soft, q; exact Eslm|]. split; [exact Erec|]. split; [exact Eh|].
    exists cls. split; assumption. }
  repeat (split; [assumption|]).
  intros b c. split.
  - rewrite Hgy. cbn [Nat.ltb Nat.leb]. apply Hgc.
  - intros l. rewrite Hgy. cbn [Nat.ltb Nat.leb Nat.sub]. now rewrite Nat.sub_0_r.
Qed.

(** The grouping branch on a stage-1 output of shape (B, L, C). *)
Lemma SegViT_grouping_path_run : forall (x_ : FT) B L s,
    shape x_ = [B; L; dim_in] -> 0 < B -> 0 < L ->
    cross_layer = 0 \/ group_num + L = B ->
    let s' := after_routing B group_num L s in
    exists g hard soft g2 y,
      SegViT_grouping_path self x_ s
      = (Ok (y, mkMidStates (Some x_) [mkAttnPair soft hard]), s') /\
      SegViT_grouping_steps self x_ s s' g hard soft g2 y /\
      shape hard = [B; group_num; L] /\ shape soft = [B; group_num; L] /\
      shape g2 = [B; group_num; dim_in] /\
      shape y = [B; 1 + group_num; dim_in] /\
      forall b c,
        (exists n, n < group_num /\ get y [b; 0; c] = get g2 [b; n; c]) /\
        (forall n, n < group_num ->
                   Rle (val (get g2 [b; n; c])) (val (get y [b; 0; c]))) /\
        forall n, get y [b; S n; c] = get g2 [b; n; c].
Proof.
  intros x_ B L s Hx HB HL Hrun s'.
  destruct (SegViT_semantic_layer_run x_ s Hx HB HL Hrun)
    as (g & hard & soft & q & Eslm & Hg & Hhard & Hsoft & _).
  fold s' in Eslm.
  destruct (@yields_neutral_run _ (Sequential_forward (layers2 self) g) s'
              (fun y : FT => shape y = [B; group_num; dim_in])) as (g2 & Eg2 & Hg2).
  { rewrite Hself. cbn [layers2]. apply neutral_stack. }
  { rewrite Hself. cbn [layers2]. apply stack_forward_shape; assumption. }
  destruct (max_keepdim_dim1_values g2 Hg2 Hgroups) as (cls & index & Emax & Hcls & Hval).
  destruct (cat2_dim1 cls g2 Hcls Hg2) as (y & Ey & Hy & Hgy).
  exists g, hard, soft, g2, y.
  split.
  { unfold SegViT_grouping_path. run_bind Eslm. cbv beta iota.
    run_bind Eg2. run_lift Emax. cbv beta iota. run_lift Ey. reflexivity. }
  split.
  { split; [exists q; exact Eslm|]. split; [exact Eg2|].
    exists cls, index. split; assumption. }
  repeat (split; [assumption|]).
  intros b c. destruct (Hval b c) as [(n & Hn & En) Hle]. split; [|split].
  - exists n. split; [exact Hn|]. rewrite Hgy. cbn [Nat.ltb Nat.leb]. exact En.
  - intros n' Hn'. rewrite Hgy. cbn [Nat.ltb Nat.leb]. now apply Hle.
  - intros n'. rewrite Hgy. cbn [Nat.ltb Nat.leb Nat.sub]. now rewrite Nat.sub_0_r.
Qed.

(** With a refinement block and a batch size other than group_num + L, or
    with no patch position at all, the Semantic Learner raises, and with it
    the forward pass, on either branch. *)
Lemma SegViT_forward_rejects : forall (x : FT) B L vf s,
    shape x = [S L; B; dim_in] -> 0 < B ->
    ~ (0 < L /\ (cross_layer = 0 \/ group_num + L = B)) ->
    SegViT_forward self x None vf s = (Raise RuntimeError, s).
Proof.
  intros x B L vf s Hx HB Hno.
  destruct (SegViT_stage1_run x s Hx HB) as (x_ & Hst & Hx_).
  rewrite (SegViT_forward_after_stage1 vf Hst).
  assert (E : SemanticLearnerModule_forward (semantic_layer2 self) x_ s
              = (Raise RuntimeError, s)).
  { rewrite Hself. cbn [semantic_layer2].
    apply SemanticLearnerModule_forward_rejects with (B := B) (L := L); auto.
    apply div_pos_ge with (b := 64). exact Hheads. }
  erewrite bind_raise; [reflexivity|].
  destruct (do_mae_mask self (nth 1 (shape x_) 0));
    [unfold SegViT_reconstruct_path|unfold SegViT_grouping_path];
    (erewrite bind_raise; [reflexivity|exact E]).
Qed.

End Paths.

(** *** Values of the routing maps *)

(** Outside training, the hard routing is the one-hot tensor at the arg-max
    of the plain softmax, value-wise. *)
Lemma gumbel_softmax_inference_values : forall (logits hard : FT) tau dim d sa sb,
    wrap_dim (ndim logits) dim = Ok d ->
    0 < dim_size (shape logits) d ->
    gumbel_softmax logits tau true dim false sa = (Ok hard, sb) ->
    exists y_soft,
      softmax logits dim = Ok y_soft /\ sb = sa /\
      forall idx, in_range (shape logits) idx ->
        val (get hard idx) =
        (if nth d idx 0 =? argmax (fun k => val (get y_soft (set_nth d k idx)))
                                  (dim_size (shape logits) d)
         then 1%R else 0%R).
Proof.
  intros logits hard tau dim d sa sb Hd Hn Hrun.
  pose proof (softmax_ok logits dim Hd) as Hsoft.
  set (y_soft := mkTensor _ _) in Hsoft.
  destruct (@straight_through logits y_soft dim d Hd eq_refl Hn)
    as (mx & index & Hmx & y_hard & Hyh & t & Ht & ret & Hret & Hsr & Hv).
  exists y_soft. split; [exact Hsoft|].
  unfold gumbel_softmax in Hrun.
  erewrite lift_ok in Hrun; [|exact Hsoft]. erewrite lift_ok in Hrun; [|exact Hmx].
  cbv beta iota in Hrun.
  erewrite lift_ok in Hrun; [|exact Hyh]. erewrite lift_ok in Hrun; [|exact Ht].
  unfold lift in Hrun. rewrite Hret in Hrun. injection Hrun as <- <-.
  split; [reflexivity|].
  intros idx Hi. destruct (Hv idx Hi) as [Hval _]. rewrite Nat.eqb_sym. exact Hval.
Qed.

(** Whether the Semantic Learner runs is decided by the length, the number
    of refinement blocks and the batch size. *)
Lemma semantic_learner_runs_dec : forall L cl N B,
    {0 < L /\ (cl = 0 \/ N + L = B)} + {~ (0 < L /\ (cl = 0 \/ N + L = B))}.
Proof.
  intros L cl N B.
  destruct (Nat.eq_dec L 0) as [HL|HL]; [right; lia|].
  destruct (Nat.eq_dec cl 0) as [Hcl|Hcl]; [left; lia|].
  destruct (Nat.eq_dec (N + L) B) as [HB|HB]; [left; lia|right; lia].
Qed.

(** C2 (SemanticLearnerModule.forward, inference).  On a (B, Len, C) input,
    outside training, whatever the module returns has the three properties:
    for every batch entry and patch position the returned [hard_attn] is
    exactly one-hot along the token axis (1 at the first token holding the
    largest [soft_attn] value, 0 at the others), the returned [soft_attn]
    adds up to 1 along the token axis, and every entry of the per-token
    normalizer of the aggregation step is at least 1; the state is left as it
    was.  The module does return when the input has a patch position and
    either there is no refinement block or N + Len is the batch size (the
    refinement blocks hand the attention primitive a batch-major key);
    otherwise it raises RuntimeError. *)
Theorem semantic_learner_routing_maps_at_inference :
  forall name C N H cl (inputs : FT) B L s,
    shape inputs = [B; L; C] -> 0 < H -> C mod H = 0 -> 0 < C -> 0 < B -> 0 < N ->
    training s = false ->
    let self := SemanticLearnerModule_init name C N H cl in
    (forall outputs hard soft q_feat s',
        SemanticLearnerModule_forward self inputs s = (Ok (outputs, hard, soft, q_feat), s') ->
        s' = s /\ shape hard = [B; N; L] /\ shape soft = [B; N; L] /\
        (exists nrm,
            token_normalizer hard = Ok nrm /\ shape nrm = [B; N; 1] /\
            forall b n, b < B -> n < N -> (1 <= val (get nrm [b; n; 0%nat]))%R) /\
        forall b l, b < B -> l < L ->
          (exists n0, n0 < N /\
                      n0 = argmax (fun k => val (get soft [b; k; l])) N /\
                      forall n, n < N ->
                        val (get hard [b; n; l]) = (if n =? n0 then 1%R else 0%R)) /\
          rsum N (fun n => val (get soft [b; n; l])) = 1%R) /\
    (0 < L -> cl = 0 \/ N + L = B ->
     exists outputs hard soft q_feat,
       SemanticLearnerModule_forward self inputs s = (Ok (outputs, hard, soft, q_feat), s)) /\
    (~ (0 < L /\ (cl = 0 \/ N + L = B)) ->
     SemanticLearnerModule_forward self inputs s = (Raise RuntimeError, s)).
Proof.
  intros name C N H cl inputs B L s Hi HH Hmod HC HB HN Hinf self.
  assert (Hs : after_routing B N L s = s) by (unfold after_routing; now rewrite Hinf).
  split; [|split].
  - intros outputs hard soft q_feat s' Hrun.
    destruct (semantic_learner_runs_dec L cl N B) as [[HL Hc]|Hno].
    2:{ subst self.
        rewrite (@SemanticLearnerModule_forward_rejects name C N H cl inputs B L s
                   Hi HH Hmod HC HB Hno) in Hrun. discriminate. }
    destruct (@SemanticLearnerModule_forward_trace name C N H cl inputs B L s
                Hi HH Hmod HB HN HL Hc)
      as (o & h & so & q & n & inf & k & k1 & kf & v & vf & attn & agg & r
          & Erun & (_ & Hh & Hso & _) & _ & _ & _ & _ & _ & _ & _ & _ & _ & Hattn
          & Hg & Hsoft & _).
    fold self in Erun. rewrite Hs in Erun, Hg. rewrite Hrun in Erun.
    injection Erun as <- <- <- <- ->.
    split; [reflexivity|]. split; [exact Hh|]. split; [exact Hso|].
    destruct (token_normalizer_3d hard Hh) as (nrm & Hnrm & Hsn & Hgn).
    split.
    { exists nrm. split; [exact Hnrm|]. split; [exact Hsn|].
      intros b n0 _ _. rewrite Hgn. apply floor_at_one_ge. }
    assert (Hd : wrap_dim (ndim attn) 1 = Ok 1) by (unfold ndim; now rewrite Hattn).
    assert (Hpos : 0 < dim_size (shape attn) 1) by (rewrite Hattn; exact HN).
    rewrite Hinf in Hg.
    destruct (@gumbel_softmax_inference_values attn hard 0.9 1 1 s s Hd Hpos Hg)
      as (y & Hy & _ & Hval).
    assert (y = soft) by congruence. subst y.
    intros b l Hb Hl. split.
    + exists (argmax (fun k => val (get soft [b; k; l])) N).
      split; [apply argmax_lt; exact HN|]. split; [reflexivity|].
      intros n0 Hn0.
      rewrite (Hval [b; n0; l]) by (rewrite Hattn; repeat constructor; assumption).
      rewrite Hattn. reflexivity.
    + pose proof (@softmax_sums_to_one attn soft 1 1 [b; 0; l] Hd Hsoft Hpos) as E.
      rewrite Hattn in E. exact E.
  - intros HL Hc.
    destruct (@SemanticLearnerModule_forward_trace name C N H cl inputs B L s
                Hi HH Hmod HB HN HL Hc)
      as (o & h & so & q & n & inf & k & k1 & kf & v & vf & attn & agg & r & Erun & _).
    rewrite Hs in Erun. exists o, h, so, q. exact Erun.
  - intros Hno. apply SemanticLearnerModule_forward_rejects with (B := B) (L := L); assumption.
Qed.

(** C3 (SemanticLearnerModule.forward, aggregation step).  The step divides
    [hard_attn @ value_sequence], token by token, by the sum of [hard_attn]
    over the Len axis floored at 1: on every routing map and value sequence
    the divisor is the sum itself when that is at least 1 and exactly 1
    otherwise (in particular for a token with no assigned patch), so it is
    never below 1 and never zero.  Whatever the module returns, in either
    mode, is the output projection of [q_feat] plus the outcome of that step
    on the returned routing map and on the value sequence the module computes
    from its input.  The module returns when the input has a patch position
    and either there is no refinement block or N + Len is the batch size, and
    raises RuntimeError otherwise. *)
Theorem semantic_learner_aggregation_floor :
  forall name C N H cl (inputs : FT) B L s,
    shape inputs = [B; L; C] -> 0 < H -> C mod H = 0 -> 0 < C -> 0 < B -> 0 < N ->
    let self := SemanticLearnerModule_init name C N H cl in
    (forall hard v_feat : FT,
        shape hard = [B; N; L] -> shape v_feat = [B; L; C] ->
        exists nrm agg,
          token_normalizer hard = Ok nrm /\
          aggregate hard v_feat = Ok agg /\ shape agg = [B; N; C] /\
          forall b n c, b < B -> n < N -> c < C ->
            let count := dsum L (fun l => get hard [b; n; l]) in
            get agg [b; n; c] =
            ddiv (dsum L (fun l => dmul (get hard [b; n; l]) (get v_feat [b; l; c])))
                 (get nrm [b; n; 0]) /\
            ((1 <= val count)%R -> get nrm [b; n; 0] = count) /\
            ((val count < 1)%R -> get nrm [b; n; 0] = dconst 1) /\
            (1 <= val (get nrm [b; n; 0%nat]))%R /\ val (get nrm [b; n; 0]) <> 0%R) /\
    (forall outputs hard soft q_feat s',
        SemanticLearnerModule_forward self inputs s = (Ok (outputs, hard, soft, q_feat), s') ->
        shape hard = [B; N; L] /\
        exists n in_feature v v_feat agg r,
          LayerNorm_forward (slm_norm self) inputs s = (Ok n, s) /\
          permute n [0; 2; 1] = Ok in_feature /\
          Conv1d_forward (slm_v_conv self) in_feature s = (Ok v, s) /\
          permute v [0; 2; 1] = Ok v_feat /\ shape v_feat = [B; L; C] /\
          aggregate hard v_feat = Ok agg /\
          tadd q_feat agg = Ok r /\
          slm_proj_o self r s' = (Ok outputs, s')) /\
    (0 < L -> cl = 0 \/ N + L = B ->
     exists res,
       SemanticLearnerModule_forward self inputs s = (Ok res, after_routing B N L s)) /\
    (~ (0 < L /\ (cl = 0 \/ N + L = B)) ->
     SemanticLearnerModule_forward self inputs s = (Raise RuntimeError, s)).
Proof.
  intros name C N H cl inputs B L s Hi HH Hmod HC HB HN self.
  split; [|split; [|split]].
  - intros hard v_feat Hh Hv.
    destruct (aggregate_3d hard v_feat Hh Hv) as (nrm & agg & Hnrm & Hagg & Hsagg & Hval).
    exists nrm, agg. repeat (split; [assumption|]).
    intros b n c Hb Hn Hc count. destruct (Hval b n c Hb Hn Hc) as [En Ea].
    split; [exact Ea|]. rewrite En. fold count.
    pose proof (floor_at_one_ge count) as Hge.
    unfold floor_at_one in *. destruct (Rlt_dec (val count) 1); repeat split; intros;
      try reflexivity; try lra.
  - intros outputs hard soft q_feat s' Hrun.
    destruct (semantic_learner_runs_dec L cl N B) as [[HL Hc]|Hno].
    2:{ subst self.
        rewrite (@SemanticLearnerModule_forward_rejects name C N H cl inputs B L s
                   Hi HH Hmod HC HB Hno) in Hrun. discriminate. }
    destruct (@SemanticLearnerModule_forward_trace name C N H cl inputs B L s
                Hi HH Hmod HB HN HL Hc)
      as (o & h & so & q & n & inf & k & k1 & kf & v & vf & attn & agg & r
          & Erun & (_ & Hh & _) & En & Einf & _ & _ & _ & Ev & Evf & Hvf & _ & _
          & _ & _ & Eagg & _ & Er & Eo).
    fold self in Erun, En, Ev, Eo. rewrite Hrun in Erun.
    injection Erun as <- <- <- <- Es. rewrite <- Es in Eo.
    split; [exact Hh|].
    exists n, inf, v, vf, agg, r. repeat (split; [assumption|]). exact Eo.
  - intros HL Hc.
    destruct (@SemanticLearnerModule_forward_trace name C N H cl inputs B L s
                Hi HH Hmod HB HN HL Hc)
      as (o & h & so & q & n & inf & k & k1 & kf & v & vf & attn & agg & r & Erun & _).
    exists (o, h, so, q). exact Erun.
  - intros Hno. apply SemanticLearnerModule_forward_rejects with (B := B) (L := L); assumption.
Qed.

(** *** The branch of SegViT.forward and its end-to-end shapes *)

Lemma do_mae_mask_14 : forall self len,
    patch_len self = 14 ->
    do_mae_mask self len = negb ((len =? 196) || (len =? 784)).
Proof.
  intros self len E. unfold do_mae_mask. rewrite E.
  change (14 ^ 2) with 196. change (4 * 196) with 784.
  rewrite (Nat.eqb_sym 196 len), (Nat.eqb_sym 784 len).
  now rewrite negb_orb.
Qed.

(** C4 (SegViT.forward, branch selection).  For input_resolution 224 and
    patch_size 16 the grid side is 14; the forward pass, after the split and
    the stage-1 blocks, runs the grouping branch when the patch sequence has
    length 196 or 784 and the reconstruction branch for every other length
    (150, for one), and the choice is a function of that length alone. *)
Theorem segvit_branch_selection :
  forall dim_in first_stage_layer cross_layer group_num self,
    SegViT_init dim_in 16 224 first_stage_layer cross_layer group_num = Ok self ->
    patch_len self = 14 /\
    (forall len, do_mae_mask self len = negb ((len =? 196) || (len =? 784))) /\
    do_mae_mask self 196 = false /\ do_mae_mask self 784 = false /\
    do_mae_mask self 150 = true /\
    (forall len, len <> 196 -> len <> 784 -> do_mae_mask self len = true) /\
    forall (x : FT) vf s,
      SegViT_forward self x None vf s =
      (x <- lift (permute x [1; 0; 2]) ;;
       '(cls, x_) <- lift (split2 x 1 (Z.of_nat (nth 1 (shape x) 0) - 1) 1) ;;
       x_ <- Sequential_forward (layers0 self) x_ ;;
       '(x, mid_states) <-
           (if (nth 1 (shape x_) 0 =? 196) || (nth 1 (shape x_) 0 =? 784)
            then SegViT_grouping_path self x_
            else SegViT_reconstruct_path self x_) ;;
       x <- lift (permute x [1; 0; 2]) ;;
       ret (x, mid_states)) s.
Proof.
  intros dim_in fsl cl gn self Hinit.
  assert (E : patch_len self = 14).
  { destruct (@SegViT_init_fields _ _ _ _ _ _ _ Hinit) as (_ & _ & _ & ->). reflexivity. }
  pose proof (fun len => do_mae_mask_14 self len E) as Hm.
  split; [exact E|]. split; [exact Hm|].
  split; [rewrite Hm; reflexivity|]. split; [rewrite Hm; reflexivity|].
  split; [rewrite Hm; reflexivity|].
  split.
  { intros len H1 H2. rewrite Hm.
    destruct (Nat.eqb_spec len 196), (Nat.eqb_spec len 784); try contradiction; reflexivity. }
  intros x vf s. unfold SegViT_forward, bind, lift.
  destruct (permute x [1; 0; 2]) as [x1|e]; [|reflexivity].
  destruct (split2 x1 1 (Z.of_nat (nth 1 (shape x1) 0) - 1) 1) as [[cls x_]|e]; [|reflexivity].
  destruct (Sequential_forward (layers0 self) x_ s) as [[y|e] s1]; [|reflexivity].
  rewrite Hm. destruct ((nth 1 (shape y) 0 =? 196) || (nth 1 (shape y) 0 =? 784)); reflexivity.
Qed.

(** C5 (SegViT.forward, end-to-end scenario).  For dim 768, resolution 224,
    first_stage_layer 10 and group_num 8, with the patch size of the
    repository's own run (16) or the constructor's default (32), on a
    length-major input of shape (197, 2, 768): a model with a refinement block
    (cross_layer 1 or more; the constructor's default is 2) raises
    RuntimeError and leaves the state as it was, because its first
    cross-attention block hands the attention primitive the key batch-major,
    (2, 204, 768), against a query batch of 2.  Only a model without
    refinement blocks yields the output of shape (9, 2, 768) and the mid-state
    record holding exactly one attention-map pair, whose hard and soft maps
    both have shape (2, 8, 196). *)
Theorem segvit_end_to_end_scenario :
  forall patch_size cross_layer self (x : FT) vf s,
    patch_size = 16 \/ patch_size = 32 ->
    SegViT_init 768 patch_size 224 10 cross_layer 8 = Ok self ->
    shape x = [197; 2; 768] ->
    (0 < cross_layer -> SegViT_forward self x None vf s = (Raise RuntimeError, s)) /\
    (cross_layer = 0 ->
     exists out mid pair,
       SegViT_forward self x None vf s = (Ok (out, mid), after_routing 2 8 196 s) /\
       shape out = [9; 2; 768] /\
       attns mid = [pair] /\
       shape (hard_attn pair) = [2; 8; 196] /\ shape (soft_attn pair) = [2; 8; 196]).
Proof.
  intros patch_size cl self x vf s Hps Hinit Hx.
  assert (Hg : 0 < 8) by lia.
  assert (HB : 0 < 2) by lia.
  split.
  - intros Hcl.
    apply (@SegViT_forward_rejects 768 patch_size 224 10 cl 8 self Hinit x 2 196 vf s Hx HB).
    lia.
  - intros Hcl.
    assert (Hb : do_mae_mask self 196 = false).
    { destruct (@SegViT_init_fields _ _ _ _ _ _ _ Hinit) as (_ & _ & _ & ->).
      destruct Hps as [-> | ->]; reflexivity. }
    destruct (@SegViT_stage1_run 768 patch_size 224 10 cl 8 self Hinit x 2 196 s Hx HB)
      as (x_ & Hst & Hx_).
    rewrite (@SegViT_forward_after_stage1 self x x_ vf s Hst).
    rewrite Hx_. cbn [nth]. rewrite Hb.
    destruct (@SegViT_grouping_path_run 768 patch_size 224 10 cl 8 self Hinit Hg
                x_ 2 196 s Hx_ HB ltac:(lia) (or_introl Hcl))
      as (g & hard & soft & g2 & y & Epath & _ & Hhard & Hsoft & _ & Hy & _).
    run_bind Epath. cbv beta iota.
    destruct (permute_102 y Hy) as (out & Eout & Hout & _).
    run_lift Eout.
    exists out, (mkMidStates (Some x_) [mkAttnPair soft hard]), (mkAttnPair soft hard).
    split; [reflexivity|]. split; [exact Hout|]. split; [reflexivity|].
    split; assumption.
Qed.

(** C10 (SegViT.forward, reconstruction branch).  When the patch-sequence
    length Len matches neither expected grid size and the Semantic Learner
    runs (a patch position, and no refinement block or a batch size of
    group_num + Len), the forward pass returns a sequence of length 1 + Len,
    the length of its input: the Semantic Learner turns the stage-1 output
    into group_num grouped tokens and a (B, group_num, Len) routing map, the
    Reconstruct Layer turns these into Len positions, the recorded hidden
    sequence is that reconstructed sequence after the [layers_mae2] blocks, no
    attention pair is recorded, the summary token at position 0 is the mean of
    the hidden sequence over its Len positions, and the positions after it
    are the hidden sequence itself.  In every other case, and so for a model
    built with the default two refinement blocks unless the batch size is
    group_num + Len, the forward pass raises RuntimeError in the Semantic
    Learner and returns no sequence. *)
Theorem segvit_reconstruction_path_length :
  forall dim_in patch_size input_resolution first_stage_layer cross_layer group_num self
         (x : FT) B L vf s,
    SegViT_init dim_in patch_size input_resolution first_stage_layer cross_layer group_num
    = Ok self ->
    0 < group_num -> 0 < B ->
    shape x = [1 + L; B; dim_in] ->
    patch_len self ^ 2 <> L -> 4 * (patch_len self ^ 2) <> L ->
    (~ (0 < L /\ (cross_layer = 0 \/ group_num + L = B)) ->
     SegViT_forward self x None vf s = (Raise RuntimeError, s)) /\
    (0 < L -> cross_layer = 0 \/ group_num + L = B ->
     let s' := after_routing B group_num L s in
     exists x_ sx_ hard rec h y out,
       SegViT_stage1 self x s x_ /\ shape x_ = [B; L; dim_in] /\
       SegViT_reconstruct_steps self x_ s s' sx_ hard rec h y /\
       shape sx_ = [B; group_num; dim_in] /\ shape hard = [B; group_num; L] /\
       shape rec = [B; L; dim_in] /\ shape h = [B; L; dim_in] /\
       permute y [1; 0; 2] = Ok out /\
       SegViT_forward self x None vf s = (Ok (out, mkMidStates (Some h) []), s') /\
       shape out = [1 + L; B; dim_in] /\
       forall b c,
         get out [0; b; c] = ddiv (dsum L (fun l => get h [b; l; c])) (dconst (INR L)) /\
         forall l, get out [S l; b; c] = get h [b; l; c]).
Proof.
  intros dim_in ps ir fsl cl gn self x B L vf s Hinit Hg HB Hx Hn1 Hn2.
  split.
  - intros Hno.
    apply (@SegViT_forward_rejects dim_in ps ir fsl cl gn self Hinit x B L vf s Hx HB Hno).
  - intros HL Hc s'.
    assert (Hb : do_mae_mask self L = true).
    { unfold do_mae_mask.
      destruct (Nat.eqb_spec (patch_len self ^ 2) L),
        (Nat.eqb_spec (4 * patch_len self ^ 2) L); try contradiction; reflexivity. }
    destruct (@SegViT_stage1_run dim_in ps ir fsl cl gn self Hinit x B L s Hx HB)
      as (x_ & Hst & Hx_).
    destruct (@SegViT_reconstruct_path_run dim_in ps ir fsl cl gn self Hinit Hg
                x_ B L s Hx_ HB HL Hc)
      as (sx_ & hard & rec & h & y & Epath & Hsteps & Hsx & Hhard & Hrec & Hh & Hy & Hval).
    destruct (permute_102 y Hy) as (out & Eout & Hout & Hgo).
    exists x_, sx_, hard, rec, h, y, out.
    split; [exact Hst|]. split; [exact Hx_|]. split; [exact Hsteps|].
    split; [exact Hsx|]. split; [exact Hhard|]. split; [exact Hrec|]. split; [exact Hh|].
    split; [exact Eout|].
    split.
    { rewrite (@SegViT_forward_after_stage1 self x x_ vf s Hst).
      rewrite Hx_. cbn [nth]. rewrite Hb.
      run_bind Epath. cbv beta iota. run_lift Eout. reflexivity. }
    split; [exact Hout|].
    intros b c. rewrite Hgo. destruct (Hval b c) as [H0 Hl]. split; [exact H0|].
    intros l. rewrite Hgo. apply Hl.
Qed.

(** *** Effects of the forward pass *)

(** C7 (determinism at inference).  Outside training, two runs of
    [SegViT.forward] (and of [SemanticLearnerModule.forward]) on the same
    input with the same parameter values have the same outcome whatever the
    random generator holds, and leave the state, generator included, as it
    was: the hard routing, drop-path and dropout draw nothing. *)
Theorem inference_forward_is_deterministic :
  forall self (x : FT) mask vf slm (inputs : FT) s1 s2,
    training s1 = false -> training s2 = false -> params s1 = params s2 ->
    fst (SegViT_forward self x mask vf s1) = fst (SegViT_forward self x mask vf s2) /\
    snd (SegViT_forward self x mask vf s1) = s1 /\
    fst (SemanticLearnerModule_forward slm inputs s1)
    = fst (SemanticLearnerModule_forward slm inputs s2) /\
    snd (SemanticLearnerModule_forward slm inputs s1) = s1 /\
    (forall logits tau hard dim,
        snd (gumbel_softmax logits tau hard dim (training s1) s1) = s1) /\
    (forall t p, drop_path t p (training s1) s1 = (Ok t, s1)) /\
    (forall t p, dropout t p (training s1) s1 = (Ok t, s1)).
Proof.
  intros self x mask vf slm inputs s1 s2 H1 H2 Hp.
  assert (E : s1 = set_gen (gen s1) s2).
  { destruct s1, s2. unfold set_gen. simpl in *. congruence. }
  destruct (@pure_SegViT self x mask vf s2 H2) as [_ Hf].
  destruct (@pure_SegViT self x mask vf s1 H1) as [Hs _].
  destruct (@pure_SemanticLearnerModule slm inputs s2 H2) as [_ Hf'].
  destruct (@pure_SemanticLearnerModule slm inputs s1 H1) as [Hs' _].
  split; [rewrite E at 1; apply Hf|]. split; [exact Hs|].
  split; [rewrite E at 1; apply Hf'|]. split; [exact Hs'|].
  rewrite H1. split.
  - intros logits tau hard dim. apply (@pure_gumbel_softmax logits tau hard dim s1 H1).
  - split; intros t p.
    + unfold drop_path. now rewrite orb_true_r.
    + unfold dropout. now rewrite orb_true_r.
Qed.

(** C9 (frame of the forward pass).  Whatever the input, the mode and the
    outcome, the parameter values (the semantic center bank among them) and
    the training flag are the same after [SegViT.forward],
    [SemanticLearnerModule.forward] and [ReconstructLayer.forward] as before:
    a forward pass writes to no parameter. *)
Theorem forward_never_mutates_parameters :
  forall self (x : FT) mask vf slm (inputs : FT) rl (tokens attn : FT) s,
    params (snd (SegViT_forward self x mask vf s)) = params s /\
    training (snd (SegViT_forward self x mask vf s)) = training s /\
    params (snd (SemanticLearnerModule_forward slm inputs s)) = params s /\
    params (snd (SemanticLearnerModule_forward slm inputs s))
           (sub (slm_name slm) "semantic_center")
    = params s (sub (slm_name slm) "semantic_center") /\
    params (snd (ReconstructLayer_forward rl tokens attn s)) = params s.
Proof.
  intros self x mask vf slm inputs rl tokens attn s.
  destruct (@preserves_SegViT self x mask vf s) as [Hp Ht].
  destruct (@preserves_SemanticLearnerModule slm inputs s) as [Hp' _].
  destruct (@preserves_ReconstructLayer rl tokens attn s) as [Hp'' _].
  repeat split; try assumption. now rewrite Hp'.
Qed.

(** *** Which operations can signal "not implemented" *)

Lemma implemented_rbind : forall A B (r : Res A) (f : A -> Res B),
    implemented r -> (forall a, implemented (f a)) -> implemented (rbind r f).
Proof.
  intros A B [a|e] f Hr Hf; simpl; [apply Hf|].
  unfold implemented in *. intros E. apply Hr. congruence.
Qed.

Create HintDb implemented.

Ltac implemented :=
  repeat first
    [ progress intros
    | apply implemented_rbind
    | match goal with
      | |- implemented (match ?x with _ => _ end) => destruct x
      | |- implemented (Ok _) => discriminate
      | |- implemented (Raise _) => discriminate
      end ].

Ltac implemented_op f := intros; unfold f; implemented.

Lemma implemented_wrap_dim : forall n d, implemented (wrap_dim n d).
Proof. implemented_op wrap_dim. Qed.
#[local] Hint Resolve implemented_wrap_dim : implemented.

Ltac implemented_with_dim f := intros; unfold f; implemented; auto with implemented.

Lemma implemented_permute : forall A (x : Tensor A) dims, implemented (permute x dims).
Proof. implemented_op @permute. Qed.
Lemma implemented_split2 : forall x a b d, implemented (split2 x a b d).
Proof. implemented_with_dim split2. Qed.
Lemma implemented_cat2 : forall a b d, implemented (cat2 a b d).
Proof. implemented_with_dim cat2. Qed.
Lemma implemented_binop : forall f a b, implemented (binop f a b).
Proof. implemented_op binop. Qed.
Lemma implemented_unsqueeze : forall t d, implemented (unsqueeze t d).
Proof. implemented_with_dim unsqueeze. Qed.
Lemma implemented_sum_dim : forall t d, implemented (sum_dim t d).
Proof. implemented_with_dim sum_dim. Qed.
Lemma implemented_mean_keepdim : forall t d, implemented (mean_keepdim t d).
Proof. implemented_with_dim mean_keepdim. Qed.
Lemma implemented_max_keepdim : forall t d, implemented (max_keepdim t d).
Proof. implemented_with_dim max_keepdim. Qed.
Lemma implemented_softmax : forall t d, implemented (softmax t d).
Proof. implemented_with_dim softmax. Qed.
Lemma implemented_scatter_ : forall t d i v, implemented (scatter_ t d i v).
Proof. implemented_with_dim scatter_. Qed.
Lemma implemented_repeat_t : forall t r, implemented (repeat_t t r).
Proof. implemented_op repeat_t. Qed.
Lemma implemented_expand : forall t r, implemented (expand t r).
Proof. implemented_op expand. Qed.
Lemma implemented_repeat_interleave0 : forall t r, implemented (repeat_interleave0 t r).
Proof. implemented_op repeat_interleave0. Qed.
Lemma implemented_contract2 : forall ca cb af a b, implemented (contract2 ca cb af a b).
Proof. implemented_op contract2. Qed.
Lemma implemented_einsum : forall e a b, implemented (einsum e a b).
Proof. intros. unfold einsum. implemented; apply implemented_contract2. Qed.
Lemma implemented_linear : forall x w b, implemented (linear x w b).
Proof. implemented_op linear. Qed.
Lemma implemented_layer_norm : forall x n w b e, implemented (layer_norm x n w b e).
Proof. implemented_op layer_norm. Qed.
Lemma implemented_conv1d_k1 : forall x w a b g, implemented (conv1d_k1 x w a b g).
Proof. implemented_op conv1d_k1. Qed.
Lemma implemented_size3 : forall t, implemented (size3 t).
Proof. implemented_op size3. Qed.

#[local] Hint Resolve implemented_permute implemented_split2 implemented_cat2
  implemented_binop implemented_unsqueeze implemented_sum_dim implemented_mean_keepdim
  implemented_max_keepdim implemented_softmax implemented_scatter_ implemented_repeat_t
  implemented_expand implemented_repeat_interleave0 implemented_einsum implemented_linear
  implemented_layer_norm implemented_conv1d_k1 implemented_size3 : implemented.

Lemma implemented_token_normalizer : forall h, implemented (token_normalizer h).
Proof. implemented_with_dim token_normalizer. Qed.
#[local] Hint Resolve implemented_token_normalizer : implemented.

Lemma implemented_aggregate : forall h v, implemented (aggregate h v).
Proof. intros. unfold aggregate, tdiv. implemented; auto with implemented. Qed.
#[local] Hint Resolve implemented_aggregate : implemented.

Lemma ai_ret : forall A (a : A), always_implemented (ret a).
Proof. intros A a s. discriminate. Qed.

Lemma ai_raise : forall A e, e <> NotImplementedError -> always_implemented (@raise A e).
Proof. intros A e H s. simpl. congruence. Qed.

Lemma ai_lift : forall A (r : Res A), implemented r -> always_implemented (lift r).
Proof. intros A r H s. exact H. Qed.

Lemma ai_get_training : always_implemented get_training.
Proof. intros s. discriminate. Qed.

Lemma ai_get_params : always_implemented get_params.
Proof. intros s. discriminate. Qed.

Lemma ai_draw : forall sh f, always_implemented (draw sh f).
Proof. intros sh f s. discriminate. Qed.

Lemma ai_bind : forall A B (m : M A) (f : A -> M B),
    always_implemented m -> (forall a, always_implemented (f a)) ->
    always_implemented (bind m f).
Proof.
  intros A B m f Hm Hf s. unfold bind. specialize (Hm s).
  destruct (m s) as [[a|e] s1]; simpl in *; [apply Hf|].
  intros E. apply Hm. congruence.
Qed.

Lemma ai_foldM : forall A B (f : A -> B -> M A) l a,
    (forall a b, always_implemented (f a b)) -> always_implemented (foldM f a l).
Proof.
  intros A B f l. induction l as [|b l IH]; intros a Hf; simpl.
  - apply ai_ret.
  - apply ai_bind; auto.
Qed.

#[local] Hint Resolve ai_ret ai_get_training ai_get_params ai_draw : implemented.

Ltac always_implemented :=
  repeat first
    [ progress intros
    | match goal with p : (_ * _)%type |- _ => destruct p end
    | solve [auto with implemented]
    | apply ai_bind
    | apply ai_foldM
    | apply ai_lift
    | apply ai_raise; discriminate
    | apply implemented_rbind
    | match goal with
      | |- always_implemented (match ?x with _ => _ end) => destruct x
      | |- implemented (match ?x with _ => _ end) => destruct x
      | |- implemented (Ok _) => discriminate
      | |- implemented (Raise _) => discriminate
      end ].

Ltac ai_module f := intros; unfold f; always_implemented.

Lemma ai_read_param : forall name sh, always_implemented (read_param name sh).
Proof. ai_module read_param. Qed.
#[local] Hint Resolve ai_read_param : implemented.

Lemma ai_gumbel_softmax : forall l tau hard dim tr,
    always_implemented (gumbel_softmax l tau hard dim tr).
Proof. intros. unfold gumbel_softmax, Gumbel_sample, tadd, tsub. always_implemented. Qed.
Lemma ai_dropout : forall x p tr, always_implemented (dropout x p tr).
Proof. intros. unfold dropout, tmul. always_implemented. Qed.
Lemma ai_drop_path : forall x p tr, always_implemented (drop_path x p tr).
Proof. intros. unfold drop_path, rand, tmul. always_implemented. Qed.
#[local] Hint Resolve ai_gumbel_softmax ai_dropout ai_drop_path : implemented.

Lemma ai_Linear : forall self x, always_implemented (Linear_forward self x).
Proof. ai_module Linear_forward. Qed.
Lemma ai_LayerNorm : forall self x, always_implemented (LayerNorm_forward self x).
Proof. ai_module LayerNorm_forward. Qed.
Lemma ai_Conv1d : forall self x, always_implemented (Conv1d_forward self x).
Proof. ai_module Conv1d_forward. Qed.
Lemma ai_MultiheadAttention : forall self q k v m,
    always_implemented (MultiheadAttention_forward self q k v m).
Proof. ai_module MultiheadAttention_forward. Qed.
Lemma ai_DropPath : forall p x, always_implemented (DropPath_forward p x).
Proof. ai_module DropPath_forward. Qed.
Lemma ai_Dropout : forall p x, always_implemented (Dropout_forward p x).
Proof. ai_module Dropout_forward. Qed.
#[local] Hint Resolve ai_Linear ai_LayerNorm ai_Conv1d ai_MultiheadAttention ai_DropPath
  ai_Dropout : implemented.

Lemma ai_Mlp : forall self x, always_implemented (Mlp_forward self x).
Proof. ai_module Mlp_forward. Qed.
Lemma ai_mlp : forall a b x, always_implemented (mlp_forward a b x).
Proof. ai_module mlp_forward. Qed.
Lemma ai_rab_drop_path : forall self x, always_implemented (rab_drop_path_forward self x).
Proof. ai_module rab_drop_path_forward. Qed.
#[local] Hint Resolve ai_Mlp ai_mlp ai_rab_drop_path : implemented.

Lemma ai_RAB_attention : forall self x m,
    always_implemented (ResidualAttentionBlock_attention self x m).
Proof. ai_module ResidualAttentionBlock_attention. Qed.
#[local] Hint Resolve ai_RAB_attention : implemented.

Lemma ai_RAB : forall self x m, always_implemented (ResidualAttentionBlock_forward self x m).
Proof. intros. unfold ResidualAttentionBlock_forward, tadd. always_implemented. Qed.
#[local] Hint Resolve ai_RAB : implemented.

Lemma ai_Sequential : forall blocks x, always_implemented (Sequential_forward blocks x).
Proof. ai_module Sequential_forward. Qed.
Lemma ai_CAB : forall self q k, always_implemented (CrossAttentionBlock_forward self q k).
Proof. intros. unfold CrossAttentionBlock_forward, tadd. always_implemented. Qed.
Lemma ai_slm_proj_o : forall self x, always_implemented (slm_proj_o self x).
Proof. ai_module slm_proj_o. Qed.
#[local] Hint Resolve ai_Sequential ai_CAB ai_slm_proj_o : implemented.

Lemma ai_SemanticLearnerModule : forall self inputs,
    always_implemented (SemanticLearnerModule_forward self inputs).
Proof. intros. unfold SemanticLearnerModule_forward, tadd. always_implemented. Qed.
Lemma ai_ReconstructLayer : forall self inputs attn,
    always_implemented (ReconstructLayer_forward self inputs attn).
Proof. ai_module ReconstructLayer_forward. Qed.
#[local] Hint Resolve ai_SemanticLearnerModule ai_ReconstructLayer : implemented.

Lemma ai_SegViT_unmasked : forall self x vf,
    always_implemented (SegViT_forward self x None vf).
Proof.
  intros. unfold SegViT_forward, SegViT_reconstruct_path, SegViT_grouping_path.
  always_implemented.
Qed.

(** C8 (SegViT.forward, attention mask).  On a three-axis input the forward
    pass ends in [NotImplementedError] exactly when an attention mask is
    given.  With a mask, that is the outcome for every model and every state,
    and the state is the one the call started from: nothing was drawn and no
    stage, split or grouping had run.  Without a mask no run, on any input,
    ends in [NotImplementedError]. *)
Theorem attention_mask_is_rejected :
  forall self (x : FT) mask vf s,
    ndim x = 3 ->
    (fst (SegViT_forward self x mask vf s) = Raise NotImplementedError <-> mask <> None) /\
    (forall m self' s', SegViT_forward self' x (Some m) vf s' = (Raise NotImplementedError, s')) /\
    (forall (x' : FT) s', fst (SegViT_forward self x' None vf s') <> Raise NotImplementedError).
Proof.
  intros self x mask vf s Hx.
  assert (Hm : forall m self' s',
             SegViT_forward self' x (Some m) vf s' = (Raise NotImplementedError, s')).
  { intros m self' s'. unfold SegViT_forward, bind, lift, permute, is_perm.
    rewrite Hx. reflexivity. }
  split; [|split; [exact Hm|intros x' s'; apply ai_SegViT_unmasked]].
  destruct mask as [m|].
  - rewrite Hm. split; [discriminate|reflexivity].
  - split; [intros H; exfalso; exact (ai_SegViT_unmasked self x vf s H)|congruence].
Qed.

(** C6, as the code has it (ReconstructLayer.forward).  For every B, Len, N
    and C, a layer constructed with in_channels = N (and any out_channels,
    which forward never reads) applied to grouped tokens of shape (B, N, C)
    and a routing map of shape (B, N, Len) returns a tensor of shape
    (B, Len, C): the map is permuted to (B, Len, N), passed through the one
    linear layer over the N axis, contracted with the tokens over that axis,
    and sent through QuickGELU. *)
Theorem reconstruct_layer_shape :
  forall name N out_channels (inputs attn : FT) B Len C s,
    shape inputs = [B; N; C] -> shape attn = [B; N; Len] ->
    let self := ReconstructLayer_init name N out_channels in
    let weight := params s (sub (lin_name (rl_a_fc self)) "weight") in
    let bias := params s (sub (lin_name (rl_a_fc self)) "bias") in
    exists outputs,
      ReconstructLayer_forward self inputs attn s = (Ok outputs, s) /\
      shape outputs = [B; Len; C] /\
      forall b m c, b < B ->
        get outputs [b; m; c] =
        quick_gelu
          (dsum N (fun d =>
             dmul (get inputs [b; d; c])
                  (dadd (dsum N (fun j => dmul (get attn [b; j; m]) (weight [d; j])))
                        (bias [d])))).
Proof.
  intros name N out inputs attn B Len C s Hi Ha self weight bias.
  destruct (@ReconstructLayer_forward_spec name N out inputs attn B Len C s Hi Ha)
    as (y & s' & Hrun & _ & Hs & Hv).
  exists y. split; [|split; [exact Hs|exact Hv]].
  assert (E : s' = s).
  { revert Hrun. unfold ReconstructLayer_forward, Linear_forward, read_param, get_params,
      bind, lift, ret.
    repeat match goal with
           | |- context [match ?r with Ok _ => _ | Raise _ => _ end] => destruct r
           end; congruence. }
  now subst s'.
Qed.

(** ** Properties of the remaining code *)

(** *** _ntuple *)

(** X1 (_ntuple, to_2tuple and the like).  A scalar becomes [n] copies of
    itself; an iterable comes back as it is, whatever its length (there is no
    length check), so a second conversion, with the same or another arity,
    changes nothing. *)
Theorem ntuple_keeps_iterables :
  forall A (n m : nat) (x : PyArg A) (v : A) (l : list A),
    _ntuple n (Scalar v) = Iterable (repeat v n) /\
    (forall l', _ntuple n (Scalar v) = Iterable l' ->
                length l' = n /\ forall y, In y l' -> y = v) /\
    _ntuple n (Iterable l) = Iterable l /\
    _ntuple m (_ntuple n x) = _ntuple n x /\
    to_3tuple (to_2tuple (Scalar v)) = Iterable [v; v].
Proof.
  intros A n m x v l. split; [reflexivity|]. split.
  - intros l' E. injection E as <-. split; [apply repeat_length|].
    intros y Hy. now apply repeat_spec in Hy.
  - split; [reflexivity|]. split; [destruct x; reflexivity|reflexivity].
Qed.

(** *** QuickGELU *)

Lemma sigmoid_bounds : forall z : R, (0 < 1 / (1 + exp (- z)) < 1)%R.
Proof.
  intros z. pose proof (exp_pos (- z)) as H.
  split.
  - apply Rdiv_lt_0_compat; lra.
  - apply Rmult_lt_reg_r with (1 + exp (- z))%R; [lra|].
    unfold Rdiv. rewrite Rmult_assoc, Rinv_l by lra. lra.
Qed.

(** X2 (QuickGELU.forward).  The activation keeps the shape; each output
    value is the input times a sigmoid factor between 0 and 1, so it is 0 at
    0, never has the opposite sign of the input and never exceeds it in
    magnitude. *)
Theorem QuickGELU_shrinks_towards_zero :
  forall (x : FT) idx,
    let v := val (get x idx) in
    let y := val (get (QuickGELU_forward x) idx) in
    shape (QuickGELU_forward x) = shape x /\
    y = (v * (1 / (1 + exp (- (1.702 * v)))))%R /\
    (v = 0%R -> y = 0%R) /\
    ((0 <= v)%R -> (0 <= y <= v)%R) /\
    ((v <= 0)%R -> (v <= y <= 0)%R).
Proof.
  intros x idx v y. split; [reflexivity|].
  assert (E : y = (v * (1 / (1 + exp (- (1.702 * v)))))%R).
  { subst y v. unfold QuickGELU_forward, quick_gelu. cbn [get tmap val dmul ddiv dadd dexp dneg dconst].
    reflexivity. }
  split; [exact E|]. rewrite E.
  pose proof (sigmoid_bounds (1.702 * v)) as [H0 H1].
  repeat split; intros; subst; nra.
Qed.

(** *** SegViT.__init__ *)

(** X3 (SegViT.__init__).  The constructor raises ZeroDivisionError on
    patch_size 0, and returns a model exactly when patch_size is not 0 and the
    head count dim_in // 64 is positive and divides dim_in (the attention
    modules and the grouped convolutions reject every other width).  In a
    model it returns, stage 1 has first_stage_layer blocks and the two stage-2
    stacks have 12 - first_stage_layer blocks each (none when that is not
    positive), so for a boundary between 0 and 12 the stage-1 and stage-2
    depths add up to 12; no block has a DropPath; the head count is
    dim_in // 64; the Semantic Learner has group_num tokens and cross_layer
    refinement blocks; the Reconstruct Layer's linear map is group_num by
    group_num. *)
Theorem SegViT_init_layout :
  forall dim_in patch_size input_resolution first_stage_layer cross_layer group_num,
    let init :=
      SegViT_init dim_in patch_size input_resolution first_stage_layer cross_layer group_num
    in
    (patch_size = 0 -> init = Raise ZeroDivisionError) /\
    ((exists self, init = Ok self) <->
     patch_size <> 0 /\ 0 < dim_in / 64 /\ dim_in mod (dim_in / 64) = 0) /\
    (forall self,
       init = Ok self ->
       patch_len self = input_resolution / patch_size /\
       length (layers0 self) = Z.to_nat first_stage_layer /\
       length (layers2 self) = Z.to_nat (12 - first_stage_layer) /\
       length (layers_mae2 self) = Z.to_nat (12 - first_stage_layer) /\
       ((0 <= first_stage_layer <= 12)%Z ->
        length (layers0 self) + length (layers2 self) = 12) /\
       Forall (fun blk => rab_drop_path blk = None /\ rab_n_head blk = dim_in / 64)
              (layers0 self ++ layers2 self ++ layers_mae2 self) /\
       slm_num_tokens (semantic_layer2 self) = group_num /\
       length (slm_cross_att (semantic_layer2 self)) = cross_layer /\
       in_features (rl_a_fc (reconstruct_layer2 self)) = group_num /\
       out_features (rl_a_fc (reconstruct_layer2 self)) = group_num).
Proof.
  intros dim_in ps ir fsl cl gn init. split; [|split].
  - intros ->. reflexivity.
  - split.
    + intros (self & E).
      destruct (@SegViT_init_fields _ _ _ _ _ _ _ E) as (H1 & H2 & H3 & _). auto.
    + intros (H1 & H2 & H3).
      pose proof (div_pos_ge _ _ H2) as HE.
      subst init. unfold SegViT_init.
      destruct (Nat.eqb_spec ps 0) as [|_]; [contradiction|]. cbn [fst snd].
      rewrite (@MultiheadAttention_check_ok _ _ H2 H3 HE), (@Conv1d_check_ok _ _ H2 H3).
      destruct (0 <? fsl)%Z, (0 <? cl); cbn [rbind]; eexists; reflexivity.
  - intros self E.
    destruct (@SegViT_init_fields _ _ _ _ _ _ _ E) as (_ & _ & _ & ->).
    cbn [patch_len layers0 layers2 layers_mae2 semantic_layer2 reconstruct_layer2].
    assert (Hlen : forall name d,
               length (if (0 <? d)%Z
                       then map (fun indx => ResidualAttentionBlock_init
                                               (sub name (str indx)) dim_in (dim_in / 64) 0)
                                (seq 0 (Z.to_nat d))
                       else []) = Z.to_nat d).
    { intros name d. destruct (Z.ltb_spec 0 d).
      - now rewrite length_map, length_seq.
      - simpl. lia. }
    assert (Hall : forall name n,
               Forall (fun blk => rab_drop_path blk = None /\ rab_n_head blk = dim_in / 64)
                      (map (fun indx => ResidualAttentionBlock_init
                                          (sub name (str indx)) dim_in (dim_in / 64) 0)
                           (seq 0 n))).
    { intros name n. apply Forall_forall. intros blk Hin.
      apply in_map_iff in Hin. destruct Hin as (i & <- & _).
      unfold ResidualAttentionBlock_init. cbn [rab_drop_path rab_n_head].
      now rewrite Rltb_irrefl. }
    split; [reflexivity|].
    split; [now rewrite length_map, length_seq|].
    split; [apply Hlen|]. split; [apply Hlen|].
    split; [intros Hr; rewrite Hlen, length_map, length_seq; lia|].
    split.
    { repeat (apply Forall_app; split); try apply Hall;
        destruct (0 <? 12 - fsl)%Z; (apply Hall || constructor). }
    unfold SemanticLearnerModule_init, ReconstructLayer_init.
    cbn [slm_num_tokens slm_cross_att rl_a_fc in_features out_features].
    rewrite length_map, length_seq. repeat split.
Qed.

(** *** gumbel_softmax outside training *)

(** X4 (gumbel_softmax, is_training off, hard on).  Outside training the
    temperature is not used, nothing is drawn, and along the routing axis the
    result is one-hot at the first position holding the largest value of the
    softmax of the scores: no position has a larger softmax value than the
    selected one and every earlier position has a strictly smaller one. *)
Theorem gumbel_softmax_inference_picks_first_maximum :
  forall (logits : FT) (tau tau' : R) (dim : Z) (d : nat) (s : State),
    wrap_dim (ndim logits) dim = Ok d ->
    0 < dim_size (shape logits) d ->
    exists ret y_soft,
      softmax logits dim = Ok y_soft /\
      gumbel_softmax logits tau true dim false s = (Ok ret, s) /\
      gumbel_softmax logits tau' true dim false s = (Ok ret, s) /\
      shape ret = shape logits /\
      forall idx, in_range (shape logits) idx ->
        exists n0,
          n0 < dim_size (shape logits) d /\
          (forall k, k < dim_size (shape logits) d ->
                     (val (get y_soft (set_nth d k idx))
                      <= val (get y_soft (set_nth d n0 idx)))%R) /\
          (forall k, k < n0 ->
                     (val (get y_soft (set_nth d k idx))
                      < val (get y_soft (set_nth d n0 idx)))%R) /\
          val (get ret idx) = (if nth d idx 0 =? n0 then 1%R else 0%R).
Proof.
  intros logits tau tau' dim d s Hd Hn.
  destruct (@gumbel_softmax_hard_run logits tau dim d false s Hd Hn)
    as (ret & s' & Hrun & _ & Hs).
  destruct (@gumbel_softmax_inference_values logits ret tau dim d s s' Hd Hn Hrun)
    as (y & Hy & -> & Hval).
  exists ret, y. split; [exact Hy|]. split; [exact Hrun|]. split; [exact Hrun|].
  split; [exact Hs|].
  intros idx Hi.
  set (n := dim_size (shape logits) d) in *.
  set (f := fun k => val (get y (set_nth d k idx))).
  exists (argmax f n). split; [apply argmax_lt; exact Hn|].
  split; [|split; [|exact (Hval idx Hi)]].
  - intros k Hk. exact (@argmax_max f n k Hk).
  - intros k Hk. exact (@argmax_first f n k Hk).
Qed.

(** *** drop_path in training *)




(** *** ResidualAttentionBlock *)


(** X7 (ResidualAttentionBlock.forward).  A block without DropPath (the only
    kind SegViT builds), with a head count dividing its width, maps a
    batch-major (B, L, C) sequence to a sequence of the same shape and leaves
    the state alone in every mode; an input that does not have three axes is
    rejected by the first permutation, and one whose last axis is not the
    block's width by the first layer norm, before attention is reached. *)
Theorem residual_block_keeps_shape :
  forall name C H (x : FT) B L s,
    0 < H -> C mod H = 0 -> 0 < B ->
    let self := ResidualAttentionBlock_init name C H 0 in
    (shape x = [B; L; C] ->
     exists y, ResidualAttentionBlock_forward self x None s = (Ok y, s) /\
               shape y = [B; L; C]) /\
    (ndim x <> 3 ->
     forall mask, ResidualAttentionBlock_forward self x mask s = (Raise RuntimeError, s)) /\
    (forall C', shape x = [B; L; C'] -> C' <> C ->
     forall mask, ResidualAttentionBlock_forward self x mask s = (Raise RuntimeError, s)).
Proof.
  intros name C H x B L s HH Hmod HB self. split; [|split].
  - intros Hx.
    destruct (@ResidualAttentionBlock_forward_shape name C H x B L s Hx HH Hmod HB)
      as (y & s' & Hrun & _ & Hy).
    exists y. split; [|exact Hy].
    assert (E : rab_drop_path self = None).
    { subst self. unfold ResidualAttentionBlock_init. cbn [rab_drop_path].
      now rewrite Rltb_irrefl. }
    pose proof (@neutral_RAB self x None E s) as Hn. fold self in Hrun.
    rewrite Hrun in Hn. cbn [snd] in Hn. now subst s'.
  - intros Hnd mask. unfold ResidualAttentionBlock_forward, bind, lift, permute, is_perm.
    replace (length [1; 0; 2] =? ndim x) with false; [reflexivity|].
    symmetry. apply Nat.eqb_neq. cbn [length]. congruence.
  - intros C' Hx Hne mask.
    unfold ResidualAttentionBlock_forward.
    destruct (permute_102 x Hx) as (x1 & Hp & Hs1 & _).
    rewrite (lift_ok _ _ Hp).
    unfold LayerNorm_forward, read_param, get_params, bind, ret, lift, layer_norm, ndim,
      last_axis.
    rewrite Hs1. subst self. cbn [ResidualAttentionBlock_init rab_ln_1 normalized_shape
                                  length Nat.eqb Nat.sub nth orb].
    replace (C' =? C) with false by (symmetry; now apply Nat.eqb_neq).
    reflexivity.
Qed.

(** *** CrossAttentionBlock *)

(** X8 (CrossAttentionBlock.forward).  The block converts the query set to
    the length-major layout but hands the key/value sequence to the attention
    primitive as it came, batch-major, so the primitive reads the sequence
    axis of the key as its batch axis.  On a query set (B, N, C) and a
    key/value sequence (B, K, C) the block therefore returns (a tensor shaped
    like the query set, the state left alone) only when K is the batch size
    B, and raises RuntimeError for every other K.  A query set that does not
    have three axes is rejected by the permutation, and a key/value sequence
    whose last axis is not the block's width by its layer norm. *)
Theorem cross_attention_block_key_layout :
  forall name C H (q k : FT) B N K s,
    0 < H -> C mod H = 0 -> 0 < C -> 0 < B ->
    let self := CrossAttentionBlock_init name C H in
    (shape q = [B; N; C] -> shape k = [B; K; C] -> K = B ->
     exists y, CrossAttentionBlock_forward self q k s = (Ok y, s) /\ shape y = [B; N; C]) /\
    (shape q = [B; N; C] -> shape k = [B; K; C] -> K <> B ->
     CrossAttentionBlock_forward self q k s = (Raise RuntimeError, s)) /\
    (ndim q <> 3 -> CrossAttentionBlock_forward self q k s = (Raise RuntimeError, s)) /\
    (forall C', shape q = [B; N; C] -> shape k = [B; K; C'] -> C' <> C ->
                CrossAttentionBlock_forward self q k s = (Raise RuntimeError, s)).
Proof.
  intros name C H q k B N K s HH Hmod HC HB self. split; [|split; [|split]].
  - intros Hq Hk ->.
    destruct (@CrossAttentionBlock_forward_shape name C H q k B N s Hq Hk HH Hmod HB)
      as (y & s' & Hrun & _ & Hy).
    exists y. split; [|exact Hy].
    pose proof (@neutral_CAB self q k s) as Hn. fold self in Hrun.
    rewrite Hrun in Hn. cbn [snd] in Hn. now subst s'.
  - intros Hq Hk Hne.
    apply CrossAttentionBlock_forward_rejects with (B := B) (N := N) (K := K); assumption.
  - intros Hnd. unfold CrossAttentionBlock_forward, bind, lift, permute, is_perm.
    replace (length [1; 0; 2] =? ndim q) with false; [reflexivity|].
    symmetry. apply Nat.eqb_neq. cbn [length]. congruence.
  - intros C' Hq Hk Hne. unfold CrossAttentionBlock_forward.
    destruct (permute_102 q Hq) as (q1 & Hp & Hs1 & _).
    rewrite (lift_ok _ _ Hp). subst self.
    cbn [CrossAttentionBlock_init cab_ln_x cab_ln_k].
    destruct (@LayerNorm_forward_run (mkLayerNorm (sub name "ln_x") C) q1 N B s Hs1)
      as (nq & Hrun & _).
    erewrite bind_ok; [|exact Hrun].
    erewrite bind_raise; [reflexivity|].
    apply LayerNorm_forward_rejects with (a := B) (b := K) (n := C'); assumption.
Qed.

(** *** Mlp and MixerMlp *)

Lemma Dropout_zero_run : forall (x : FT) s, Dropout_forward 0 x s = (Ok x, s).
Proof.
  intros x s. unfold Dropout_forward, bind, get_training. now rewrite dropout_zero.
Qed.

Lemma Mlp_forward_run : forall self (x : FT) a b s,
    drop self = 0%R ->
    shape x = [a; b; in_features (fc1 self)] ->
    out_features (fc1 self) = in_features (fc2 self) ->
    exists y, Mlp_forward self x s = (Ok y, s) /\
              shape y = [a; b; out_features (fc2 self)] /\
              forall i j k,
                get y [i; j; k] =
                dadd (dsum (in_features (fc2 self))
                        (fun t =>
                           dmul (GELU (dadd (dsum (in_features (fc1 self))
                                              (fun l => dmul (get x [i; j; l])
                                                 (params s (sub (lin_name (fc1 self)) "weight")
                                                         [t; l])))
                                            (params s (sub (lin_name (fc1 self)) "bias") [t])))
                                (params s (sub (lin_name (fc2 self)) "weight") [k; t])))
                     (params s (sub (lin_name (fc2 self)) "bias") [k]).
Proof.
  intros self x a b s Hd Hx E. unfold Mlp_forward. rewrite Hd.
  destruct (Linear_forward_run (fc1 self) x s Hx) as (x1 & Hr1 & Hs1 & Hg1).
  erewrite bind_ok; [|exact Hr1].
  erewrite bind_ok; [|apply Dropout_zero_run].
  assert (Hs1' : shape (tmap GELU x1) = [a; b; in_features (fc2 self)])
    by (cbn [shape tmap]; now rewrite Hs1, E).
  destruct (Linear_forward_run (fc2 self) (tmap GELU x1) s Hs1') as (x2 & Hr2 & Hs2 & Hg2).
  erewrite bind_ok; [|exact Hr2].
  erewrite bind_ok; [|apply Dropout_zero_run].
  exists x2. split; [reflexivity|]. split; [exact Hs2|].
  intros i j k. rewrite Hg2. f_equal. apply dsum_ext. intros t _.
  cbn [get tmap]. now rewrite Hg1.
Qed.

(** X9 (Mlp).  A module constructed with dropout rate 0 computes
    fc2(GELU(fc1(x))) along the last axis and leaves the state alone even in
    training; hidden_features and out_features fall back to in_features when
    omitted or given as 0, so the default module keeps the shape; an input
    whose last axis is not in_features is rejected. *)
Theorem Mlp_forward_computes_two_layer_map :
  forall name n hidden out (x : FT) a b s,
    let self := Mlp_init name n hidden out 0 in
    let h := in_features (fc2 self) in
    let m := out_features (fc2 self) in
    h = match hidden with Some 0 | None => n | Some h' => h' end /\
    m = match out with Some 0 | None => n | Some o' => o' end /\
    (shape x = [a; b; n] ->
     exists y, Mlp_forward self x s = (Ok y, s) /\
               shape y = [a; b; m] /\
               forall i j k,
                 get y [i; j; k] =
                 dadd (dsum h
                         (fun t =>
                            dmul (GELU (dadd (dsum n
                                               (fun l => dmul (get x [i; j; l])
                                                  (params s (sub (sub name "fc1") "weight")
                                                          [t; l])))
                                             (params s (sub (sub name "fc1") "bias") [t])))
                                 (params s (sub (sub name "fc2") "weight") [k; t])))
                      (params s (sub (sub name "fc2") "bias") [k])) /\
    (forall n', shape x = [a; b; n'] -> n' <> n ->
                Mlp_forward self x s = (Raise RuntimeError, s)).
Proof.
  intros name n hidden out x a b s self h m.
  split; [subst h self; destruct hidden as [[|]|]; reflexivity|].
  split; [subst m self; destruct out as [[|]|]; reflexivity|].
  split.
  - intros Hx.
    destruct (@Mlp_forward_run self x a b s eq_refl Hx eq_refl) as (y & Hrun & Hs & Hg).
    exists y. split; [exact Hrun|]. split; [exact Hs|exact Hg].
  - intros n' Hx Hne. unfold Mlp_forward.
    erewrite bind_raise; [reflexivity|].
    apply Linear_forward_rejects with (a := a) (b := b) (n := n'); assumption.
Qed.

Lemma transpose_12 : forall A (x : Tensor A) a b c,
    shape x = [a; b; c] ->
    exists y, transpose x 1 2 = Ok y /\ shape y = [a; c; b] /\
              forall i j k, get y [i; j; k] = get x [i; k; j].
Proof.
  intros A x a b c H. unfold transpose, ndim. rewrite H. cbn [length].
  change (wrap_dim 3 1) with (@Ok nat 1). change (wrap_dim 3 2) with (@Ok nat 2).
  cbn [rbind]. eexists. split; [reflexivity|]. split; reflexivity.
Qed.

(** X10 (MixerMlp.forward).  With dropout rate 0 the mixer applies the
    two-layer map along axis 1, separately for every batch entry and every
    channel: a (B, in, C) input gives a (B, out, C) output whose column
    (b, :, c) is a function of the input column (b, :, c) alone, and the state
    is left alone; an input with fewer than three axes raises IndexError. *)
Theorem MixerMlp_mixes_along_axis_one :
  forall self (x : FT) B C s,
    drop self = 0%R ->
    out_features (fc1 self) = in_features (fc2 self) ->
    (shape x = [B; in_features (fc1 self); C] ->
     exists y,
       MixerMlp_forward self x s = (Ok y, s) /\
       shape y = [B; out_features (fc2 self); C] /\
       (forall b o c,
           get y [b; o; c] =
           dadd (dsum (in_features (fc2 self))
                   (fun t =>
                      dmul (GELU (dadd (dsum (in_features (fc1 self))
                                         (fun l => dmul (get x [b; l; c])
                                            (params s (sub (lin_name (fc1 self)) "weight")
                                                    [t; l])))
                                       (params s (sub (lin_name (fc1 self)) "bias") [t])))
                           (params s (sub (lin_name (fc2 self)) "weight") [o; t])))
                (params s (sub (lin_name (fc2 self)) "bias") [o])) /\
       (forall (x' : FT) b c,
           shape x' = shape x ->
           (forall l, l < in_features (fc1 self) -> get x' [b; l; c] = get x [b; l; c]) ->
           exists y', MixerMlp_forward self x' s = (Ok y', s) /\
                      forall o, get y' [b; o; c] = get y [b; o; c])) /\
    (ndim x < 3 -> MixerMlp_forward self x s = (Raise IndexError, s)).
Proof.
  intros self x B C s Hd E. split.
  - intros Hx.
    assert (Hrun : forall (z : FT), shape z = [B; in_features (fc1 self); C] ->
               exists y,
                 MixerMlp_forward self z s = (Ok y, s) /\
                 shape y = [B; out_features (fc2 self); C] /\
                 forall b o c,
                   get y [b; o; c] =
                   dadd (dsum (in_features (fc2 self))
                           (fun t =>
                              dmul (GELU (dadd (dsum (in_features (fc1 self))
                                                 (fun l => dmul (get z [b; l; c])
                                                    (params s (sub (lin_name (fc1 self)) "weight")
                                                            [t; l])))
                                               (params s (sub (lin_name (fc1 self)) "bias") [t])))
                                   (params s (sub (lin_name (fc2 self)) "weight") [o; t])))
                        (params s (sub (lin_name (fc2 self)) "bias") [o])).
    { intros z Hz. unfold MixerMlp_forward.
      destruct (transpose_12 z Hz) as (t & Ht & Hst & Hgt).
      rewrite (lift_ok _ _ Ht).
      destruct (@Mlp_forward_run self t B C s Hd Hst E) as (y1 & Hr & Hs1 & Hg1).
      erewrite bind_ok; [|exact Hr].
      destruct (transpose_12 y1 Hs1) as (y & Hy & Hsy & Hgy).
      exists y. unfold lift. rewrite Hy. split; [reflexivity|]. split; [exact Hsy|].
      intros b o c. rewrite Hgy, Hg1. f_equal. apply dsum_ext. intros u _.
      f_equal. f_equal. f_equal. apply dsum_ext. intros l _. now rewrite Hgt. }
    destruct (Hrun x Hx) as (y & Hr & Hs & Hg).
    exists y. split; [exact Hr|]. split; [exact Hs|]. split; [exact Hg|].
    intros x' b c Hsx Hcol.
    destruct (Hrun x' ltac:(congruence)) as (y' & Hr' & _ & Hg').
    exists y'. split; [exact Hr'|].
    intros o. rewrite Hg', Hg. f_equal. apply dsum_ext. intros u _.
    f_equal. f_equal. f_equal. apply dsum_ext. intros l Hl. now rewrite Hcol.
  - intros Hnd. unfold MixerMlp_forward, bind, lift, transpose, wrap_dim.
    destruct (ndim x) as [|[|[|n]]]; try lia; reflexivity.
Qed.

(** *** trunc_normal_ and _init_weights *)

Lemma clamp_bounds : forall a b x : R, (a <= b)%R -> (a <= clamp a b x <= b)%R.
Proof.
  intros a b x H. unfold clamp. split.
  - apply Rmin_glb; [apply Rmax_r|exact H].
  - apply Rmin_r.
Qed.

Lemma Rltb_false : forall x y : R, (y <= x)%R -> Rltb x y = false.
Proof. intros x y H. unfold Rltb. destruct (Rlt_dec x y); [lra|reflexivity]. Qed.

Lemma Rltb_true_iff : forall x y : R, Rltb x y = true <-> (x < y)%R.
Proof.
  intros x y. unfold Rltb. destruct (Rlt_dec x y); split; intros; try assumption;
    try reflexivity; try discriminate; contradiction.
Qed.

Lemma norm_cdf_mono : forall x y : R,
    (forall u v : R, (u <= v)%R -> (erf u <= erf v)%R) ->
    (x <= y)%R -> (norm_cdf x <= norm_cdf y)%R.
Proof.
  intros x y Herf H. unfold norm_cdf.
  assert (Hs : (0 < sqrt 2)%R) by (apply sqrt_lt_R0; lra).
  assert (x / sqrt 2 <= y / sqrt 2)%R.
  { unfold Rdiv. apply Rmult_le_compat_r; [|exact H].
    left. now apply Rinv_0_lt_compat. }
  specialize (Herf _ _ H0). lra.
Qed.

(** The successful run of [trunc_normal_]. *)
Lemma trunc_normal_run :
  forall name sh (mean std a b : R) s,
    (forall u v : R, (u <= v)%R -> (erf u <= erf v)%R) ->
    (a <= b)%R -> (0 < std)%R ->
    exists warned s',
      trunc_normal_ name sh mean std a b s = (Ok warned, s') /\
      (forall idx, (a <= val (params s' name idx) <= b)%R /\
                   der (params s' name idx) = 0%R) /\
      (forall name', name' <> name -> params s' name' = params s name') /\
      training s' = training s /\
      forall i, gen s' i = gen s (i + numel sh).
Proof.
  intros name sh mean std a b s Herf Hab Hstd.
  unfold trunc_normal_, _no_grad_trunc_normal_.
  replace (Reqb std 0) with false
    by (unfold Reqb; destruct (Req_dec_T std 0); [lra|reflexivity]).
  assert (Hle : ((a - mean) / std <= (b - mean) / std)%R).
  { unfold Rdiv. apply Rmult_le_compat_r; [|lra].
    left. now apply Rinv_0_lt_compat. }
  pose proof (norm_cdf_mono Herf Hle) as Hcdf.
  rewrite Rltb_false by lra.
  unfold bind, draw, set_param, ret. cbn [get].
  do 2 eexists. split; [reflexivity|].
  cbn [params training gen set_gen].
  split.
  { intros idx. rewrite String.eqb_refl. cbn [val der dconst].
    split; [apply clamp_bounds; exact Hab|reflexivity]. }
  split; [|split; [reflexivity|reflexivity]].
  intros name' Hne. replace (String.eqb name' name) with false; [reflexivity|].
  symmetry. now apply String.eqb_neq.
Qed.

(** X11 (trunc_normal_ / _no_grad_trunc_normal_).  For a positive std and
    a <= b (erf being non-decreasing), the call succeeds, overwrites the given
    parameter only, with values that all lie in [a, b] and carry no gradient,
    consumes one uniform variate per element, and reports the warning exactly
    when mean is more than two std outside [a, b].  A zero std raises
    ZeroDivisionError and leaves the parameter as it was. *)
Theorem trunc_normal_fills_within_bounds :
  forall name sh (mean std a b : R) s,
    (forall u v : R, (u <= v)%R -> (erf u <= erf v)%R) ->
    (a <= b)%R ->
    ((0 < std)%R ->
     exists warned s',
       trunc_normal_ name sh mean std a b s = (Ok warned, s') /\
       (warned = true <-> (mean < a - 2 * std)%R \/ (b + 2 * std < mean)%R) /\
       (forall idx, (a <= val (params s' name idx) <= b)%R /\
                    der (params s' name idx) = 0%R) /\
       (forall name', name' <> name -> params s' name' = params s name') /\
       training s' = training s /\
       forall i, gen s' i = gen s (i + numel sh)) /\
    (std = 0%R -> trunc_normal_ name sh mean std a b s = (Raise ZeroDivisionError, s)).
Proof.
  intros name sh mean std a b s Herf Hab. split.
  - intros Hstd. unfold trunc_normal_, _no_grad_trunc_normal_.
    replace (Reqb std 0) with false
      by (unfold Reqb; destruct (Req_dec_T std 0); [lra|reflexivity]).
    assert (Hle : ((a - mean) / std <= (b - mean) / std)%R).
    { unfold Rdiv. apply Rmult_le_compat_r; [|lra].
      left. now apply Rinv_0_lt_compat. }
    pose proof (norm_cdf_mono Herf Hle) as Hcdf.
    rewrite Rltb_false by lra.
    unfold bind, draw, set_param, ret. cbn [get].
    do 2 eexists. split; [reflexivity|].
    split.
    { rewrite orb_true_iff, !Rltb_true_iff. tauto. }
    cbn [params training gen set_gen].
    split.
    { intros idx. rewrite String.eqb_refl. cbn [val der dconst].
      split; [apply clamp_bounds; exact Hab|reflexivity]. }
    split; [|split; [reflexivity|reflexivity]].
    intros name' Hne. replace (String.eqb name' name) with false; [reflexivity|].
    symmetry. now apply String.eqb_neq.
  - intros ->. unfold trunc_normal_, _no_grad_trunc_normal_.
    now rewrite Reqb_refl.
Qed.

Lemma append_inj_l : forall p a b : string, String.append p a = String.append p b -> a = b.
Proof.
  induction p as [|c p IH]; intros a b H; simpl in H; [exact H|].
  injection H as H. now apply IH.
Qed.

Lemma sub_inj : forall p a b : string, sub p a = sub p b -> a = b.
Proof.
  intros p a b H. unfold sub in H. apply append_inj_l in H. now injection H.
Qed.

Lemma weight_bias_distinct : forall p : string, sub p "weight" <> sub p "bias".
Proof. intros p H. apply sub_inj in H. discriminate. Qed.

(** X12 (SegViT._init_weights on a LayerNorm, followed by its forward).
    After the call the layer's weight is 1 and its bias 0 everywhere, every
    other parameter and the random generator are as before, and the layer then
    computes the plain normalisation (x - mean) / sqrt(var + eps) * 1 + 0 of
    each row. *)
Theorem init_weights_resets_layer_norm :
  forall (l : LayerNorm) s,
    exists s',
      _init_weights (IsLayerNorm l) s = (Ok tt, s') /\
      (forall idx, params s' (sub (ln_name l) "weight") idx = dconst 1) /\
      (forall idx, params s' (sub (ln_name l) "bias") idx = dconst 0) /\
      (forall name, name <> sub (ln_name l) "weight" -> name <> sub (ln_name l) "bias" ->
                    params s' name = params s name) /\
      gen s' = gen s /\ training s' = training s /\
      forall (x : FT) a b,
        shape x = [a; b; normalized_shape l] ->
        exists y,
          LayerNorm_forward l x s' = (Ok y, s') /\ shape y = shape x /\
          forall i j k,
            let n := normalized_shape l in
            let mean := ddiv (dsum n (fun t => get x [i; j; t])) (dconst (INR n)) in
            let var := ddiv (dsum n (fun t => let e := dsub (get x [i; j; t]) mean in
                                              dmul e e))
                            (dconst (INR n)) in
            get y [i; j; k] =
            dadd (dmul (ddiv (dsub (get x [i; j; k]) mean)
                             (dsqrt (dadd var (dconst 0.00001))))
                       (dconst 1))
                 (dconst 0).
Proof.
  intros l s. unfold _init_weights, constant_, set_param, bind.
  eexists. split; [reflexivity|]. cbn [params gen training].
  assert (Hwb : String.eqb (sub (ln_name l) "weight") (sub (ln_name l) "bias") = false)
    by (apply String.eqb_neq, weight_bias_distinct).
  assert (Hbw : String.eqb (sub (ln_name l) "bias") (sub (ln_name l) "weight") = false)
    by (rewrite String.eqb_sym; exact Hwb).
  split; [intros idx; now rewrite String.eqb_refl|].
  split; [intros idx; now rewrite Hbw, String.eqb_refl|].
  split.
  { intros name H1 H2.
    replace (String.eqb name (sub (ln_name l) "weight")) with false
      by (symmetry; now apply String.eqb_neq).
    replace (String.eqb name (sub (ln_name l) "bias")) with false
      by (symmetry; now apply String.eqb_neq).
    reflexivity. }
  split; [reflexivity|]. split; [reflexivity|].
  intros x a b Hx.
  unfold LayerNorm_forward, read_param, get_params, bind, ret, lift, layer_norm, ndim,
    last_axis, set_last.
  cbn [params]. rewrite Hx. cbn [length nth Nat.sub Nat.eqb orb negb].
  rewrite Nat.eqb_refl. cbn [negb].
  eexists. split; [reflexivity|]. split; [reflexivity|].
  intros i j k. cbn [get length Nat.sub nth set_nth].
  now rewrite !String.eqb_refl, Hbw.
Qed.

(** X13 (SegViT._init_weights on the other modules).  On a Linear module the
    call (erf being non-decreasing) sets the bias to 0 and fills the weight
    with gradient-free values in [-2, 2], using one variate per weight entry
    and touching no other parameter.  Called on a Conv1d, on a
    MultiheadAttention module itself or on a container it does nothing at
    all: the key and value convolutions keep the values they had. *)
Theorem init_weights_linear_and_others :
  forall (l : Linear) (c : Conv1d) (a : MultiheadAttention) s,
    (forall u v : R, (u <= v)%R -> (erf u <= erf v)%R) ->
    (exists s',
        _init_weights (IsLinear l) s = (Ok tt, s') /\
        (forall idx, (-2 <= val (params s' (sub (lin_name l) "weight") idx) <= 2)%R /\
                     der (params s' (sub (lin_name l) "weight") idx) = 0%R) /\
        (forall idx, params s' (sub (lin_name l) "bias") idx = dconst 0) /\
        (forall name, name <> sub (lin_name l) "weight" -> name <> sub (lin_name l) "bias" ->
                      params s' name = params s name) /\
        (forall i, gen s' i = gen s (i + out_features l * in_features l))) /\
    _init_weights (IsConv1d c) s = (Ok tt, s) /\
    _init_weights (IsMultiheadAttention a) s = (Ok tt, s) /\
    _init_weights IsContainer s = (Ok tt, s).
Proof.
  intros l c a s Herf. split; [|repeat split].
  unfold _init_weights.
  destruct (@trunc_normal_run (sub (lin_name l) "weight")
              [out_features l; in_features l] 0 0.02 (-2) 2 s Herf ltac:(lra) ltac:(lra))
    as (warned & s1 & Hrun & Hval & Hother & _ & Hgen).
  erewrite bind_ok; [|exact Hrun].
  unfold constant_, set_param. eexists. split; [reflexivity|]. cbn [params gen].
  assert (Hwb : String.eqb (sub (lin_name l) "weight") (sub (lin_name l) "bias") = false)
    by (apply String.eqb_neq, weight_bias_distinct).
  split; [intros idx; rewrite Hwb; apply Hval|].
  split; [intros idx; now rewrite String.eqb_refl|].
  split.
  { intros name H1 H2.
    replace (String.eqb name (sub (lin_name l) "bias")) with false
      by (symmetry; now apply String.eqb_neq).
    now apply Hother. }
  intros i. rewrite Hgen. cbn [numel]. f_equal. lia.
Qed.

(** *** The summary token of the grouping branch *)

(** X14 (SegViT.forward, grouping branch).  On a patch sequence of an expected
    grid length, for a model on which the Semantic Learner runs (a patch
    position, and no refinement block or a batch size of group_num + L), the
    length-major output has 1 + group_num rows; row 0, the summary token, is
    in every batch element and channel the largest of the group_num grouped
    tokens in rows 1.., and is the entry of one of them. *)
Theorem grouping_summary_token_is_channelwise_max :
  forall dim_in patch_size input_resolution first_stage_layer cross_layer group_num
         self (x : FT) B L vf s,
    SegViT_init dim_in patch_size input_resolution first_stage_layer cross_layer group_num
    = Ok self ->
    0 < group_num ->
    shape x = [S L; B; dim_in] -> 0 < B -> 0 < L ->
    cross_layer = 0 \/ group_num + L = B ->
    do_mae_mask self L = false ->
    yields (SegViT_forward self x None vf) s
           (fun res =>
              shape (fst res) = [S group_num; B; dim_in] /\
              forall b c,
                (exists n, n < group_num /\
                           get (fst res) [0; b; c] = get (fst res) [S n; b; c]) /\
                forall n, n < group_num ->
                          (val (get (fst res) [S n; b; c])
                           <= val (get (fst res) [0%nat; b; c]))%R).
Proof.
  intros dim_in patch_size input_resolution first_stage_layer cross_layer group_num
         self x B L vf s Hinit Hgroups Hx HB HL Hc Hmask.
  destruct (@SegViT_stage1_run _ _ _ _ _ _ self Hinit x B L s Hx HB) as (x_ & Hst & Hx_).
  destruct (@SegViT_grouping_path_run _ _ _ _ _ _ self Hinit Hgroups x_ B L s Hx_ HB HL Hc)
    as (g & hard & soft & g2 & y & Epath & _ & _ & _ & _ & Hy & Hval).
  destruct (permute_102 y Hy) as (out & Eout & Hout & Hgo).
  exists (out, mkMidStates (Some x_) [mkAttnPair soft hard]), (after_routing B group_num L s).
  split.
  { rewrite (@SegViT_forward_after_stage1 self x x_ vf s Hst).
    rewrite Hx_. cbn [nth]. rewrite Hmask.
    run_bind Epath. cbv beta iota. run_lift Eout. reflexivity. }
  split.
  { apply training_after_routing. }
  cbn [fst]. split; [exact Hout|].
  intros b c. destruct (Hval b c) as ((n & Hn & En) & Hle & Hrow). split.
  - exists n. split; [exact Hn|]. rewrite !Hgo, Hrow. exact En.
  - intros n' Hn'. rewrite !Hgo, Hrow. now apply Hle.
Qed.

(** *** What the Reconstruct Layer can tell apart *)

(** X15 (ReconstructLayer.forward).  On grouped tokens (B, N, C) and a routing
    map (B, N, M), two output positions whose columns of the routing map are
    the same receive the same reconstructed features: a position is
    reconstructed from its routing column alone. *)
Theorem reconstruction_depends_on_routing_column_only :
  forall name N out (inputs attn : FT) B Mo C s,
    shape inputs = [B; N; C] -> shape attn = [B; N; Mo] ->
    yields (ReconstructLayer_forward (ReconstructLayer_init name N out) inputs attn) s
           (fun y => shape y = [B; Mo; C] /\
                     forall b m1 m2, b < B ->
                       (forall j, j < N -> get attn [b; j; m1] = get attn [b; j; m2]) ->
                       forall c, get y [b; m1; c] = get y [b; m2; c]).
Proof.
  intros name N out inputs attn B Mo C s Hi Ha.
  apply yields_mono with (1 := @ReconstructLayer_forward_spec name N out inputs attn
                                  B Mo C s Hi Ha).
  cbv zeta. intros y [Hy Hg]. split; [exact Hy|].
  intros b m1 m2 Hb Hcol c. rewrite !Hg by exact Hb.
  f_equal. apply dsum_ext. intros d _. f_equal. f_equal.
  apply dsum_ext. intros j Hj. now rewrite Hcol.
Qed.

(** *** The aggregation step as an average *)

Lemma rsum_zero : forall n f, (forall t, t < n -> f t = 0%R) -> rsum n f = 0%R.
Proof.
  induction n as [|n IH]; intros f H; simpl; [reflexivity|].
  rewrite IH by (intros; apply H; lia). rewrite H by lia. lra.
Qed.

Lemma rsum_selected_bounds : forall n (sel : nat -> bool) (f : nat -> R) lo hi,
    (forall t, t < n -> sel t = true -> (lo <= f t <= hi)%R) ->
    let cnt := rsum n (fun t => if sel t then 1 else 0)%R in
    let sm := rsum n (fun t => (if sel t then 1 else 0) * f t)%R in
    (0 <= cnt)%R /\ (lo * cnt <= sm <= hi * cnt)%R /\
    ((exists t, t < n /\ sel t = true) -> (1 <= cnt)%R).
Proof.
  induction n as [|n IH]; intros sel f lo hi H; simpl.
  - split; [lra|]. split; [lra|]. intros (t & Ht & _). lia.
  - destruct (IH sel f lo hi) as (H0 & Hb & H1); [intros; apply H; [lia|assumption]|].
    cbv zeta in *. specialize (H n (Nat.lt_succ_diag_r n)).
    destruct (sel n) eqn:En.
    + specialize (H eq_refl). split; [lra|]. split; [lra|]. intros _. lra.
    + split; [lra|]. split; [lra|]. intros (t & Ht & Et).
      assert (t < n) by (destruct (Nat.eq_dec t n); [congruence|lia]).
      assert (1 <= rsum n (fun t0 => if sel t0 then 1 else 0))%R by (apply H1; eauto).
      lra.
Qed.

(** X16 (SemanticLearnerModule.forward, aggregation).  With a 0/1 routing row
    for token n, the aggregated feature of the token is an average of the
    value features of its patches: it lies between any two bounds that hold
    for all the patches routed to the token, and it is exactly 0 for a token
    to which no patch is routed. *)
Theorem aggregation_averages_the_routed_patches :
  forall (hard v : FT) B N L C (sel : nat -> bool) b n c (lo hi : R),
    shape hard = [B; N; L] -> shape v = [B; L; C] ->
    b < B -> n < N -> c < C ->
    (forall t, t < L -> val (get hard [b; n; t]) = if sel t then 1%R else 0%R) ->
    (forall t, t < L -> sel t = true -> (lo <= val (get v [b; t; c]) <= hi)%R) ->
    exists agg,
      aggregate hard v = Ok agg /\ shape agg = [B; N; C] /\
      ((exists t, t < L /\ sel t = true) -> (lo <= val (get agg [b; n; c]) <= hi)%R) /\
      ((forall t, t < L -> sel t = false) -> val (get agg [b; n; c]) = 0%R).
Proof.
  intros hard v B N L C sel b n c lo hi Hh Hv Hb Hn Hc Hsel Hbound.
  destruct (aggregate_3d hard v Hh Hv) as (nrm & agg & _ & Hagg & Hsh & Hval).
  exists agg. split; [exact Hagg|]. split; [exact Hsh|].
  destruct (Hval b n c Hb Hn Hc) as [En Ea]. rewrite Ea, En.
  cbn [val ddiv]. rewrite val_dsum.
  rewrite (@rsum_ext L _ (fun t => (if sel t then 1 else 0) * val (get v [b; t; c]))%R)
    by (intros t Ht; cbn [val dmul]; now rewrite Hsel).
  assert (Ecnt : val (dsum L (fun t => get hard [b; n; t]))
                 = rsum L (fun t => if sel t then 1 else 0)%R).
  { rewrite val_dsum. apply rsum_ext. intros t Ht. now apply Hsel. }
  destruct (@rsum_selected_bounds L sel (fun t => val (get v [b; t; c])) lo hi Hbound)
    as (H0 & Hb' & H1). cbv zeta in H0, Hb', H1.
  split.
  - intros Hex. specialize (H1 Hex).
    unfold floor_at_one. rewrite Ecnt.
    set (cnt := rsum L (fun t => if sel t then 1 else 0)%R) in *.
    destruct (Rlt_dec cnt 1) as [Hlt|_]; [lra|].
    rewrite Ecnt.
    set (sm := rsum L (fun t => _ * _)%R) in *.
    assert (Hinv : (0 <= / cnt)%R) by (left; apply Rinv_0_lt_compat; lra).
    assert (Hone : (cnt * / cnt = 1)%R) by (apply Rinv_r; lra).
    pose proof (Rmult_le_compat_r (/ cnt) _ _ Hinv (proj1 Hb')) as Hlo.
    pose proof (Rmult_le_compat_r (/ cnt) _ _ Hinv (proj2 Hb')) as Hhi.
    rewrite Rmult_assoc, Hone in Hlo, Hhi.
    unfold Rdiv. split; lra.
  - intros Hnone. rewrite rsum_zero; [unfold Rdiv; ring|].
    intros t Ht. rewrite (Hnone t Ht). ring.
Qed.

(** *** How much randomness a forward pass uses *)

(** X17 (SegViT.forward, use of the random generator).  On a length-major
    (1 + L, B, C) input with a patch position, a model built by the
    constructor on which the Semantic Learner runs (no refinement block, or a
    batch size of group_num + L) returns normally and, in training mode, has
    consumed exactly B * group_num * L uniform variates, one per routing score
    (dropout and drop path being disabled by the constructor), on either
    branch; outside training the state is returned as it was.  In every other
    case the pass raises RuntimeError and has drawn nothing. *)
Theorem forward_draws_one_variate_per_routing_score :
  forall dim_in patch_size input_resolution first_stage_layer cross_layer group_num
         self (x : FT) B L vf s,
    SegViT_init dim_in patch_size input_resolution first_stage_layer cross_layer group_num
    = Ok self ->
    0 < group_num ->
    shape x = [S L; B; dim_in] -> 0 < B ->
    (0 < L -> cross_layer = 0 \/ group_num + L = B ->
     exists res,
       SegViT_forward self x None vf s
       = (Ok res, if training s then advance (B * group_num * L) s else s)) /\
    (~ (0 < L /\ (cross_layer = 0 \/ group_num + L = B)) ->
     SegViT_forward self x None vf s = (Raise RuntimeError, s)).
Proof.
  intros dim_in patch_size input_resolution first_stage_layer cross_layer group_num
         self x B L vf s Hinit Hgroups Hx HB.
  split.
  - intros HL Hc.
    destruct (@SegViT_stage1_run _ _ _ _ _ _ self Hinit x B L s Hx HB) as (x_ & Hst & Hx_).
    rewrite (@SegViT_forward_after_stage1 self x x_ vf s Hst).
    rewrite Hx_. cbn [nth].
    fold (after_routing B group_num L s).
    destruct (do_mae_mask self L).
    + destruct (@SegViT_reconstruct_path_run _ _ _ _ _ _ self Hinit Hgroups
                  x_ B L s Hx_ HB HL Hc)
        as (sx_ & hard & rec & h & y & Epath & _ & _ & _ & _ & _ & Hy & _).
      run_bind Epath. cbv beta iota.
      destruct (permute_102 y Hy) as (out & Eout & _). run_lift Eout.
      eexists. reflexivity.
    + destruct (@SegViT_grouping_path_run _ _ _ _ _ _ self Hinit Hgroups
                  x_ B L s Hx_ HB HL Hc)
        as (g & hard & soft & g2 & y & Epath & _ & _ & _ & _ & Hy & _).
      run_bind Epath. cbv beta iota.
      destruct (permute_102 y Hy) as (out & Eout & _). run_lift Eout.
      eexists. reflexivity.
  - intros Hno.
    apply (@SegViT_forward_rejects _ _ _ _ _ _ self Hinit x B L vf s Hx HB Hno).
Qed.

End Modules.

(** ** Instances *)

(** The stand-in attention primitive meets the two contracts assumed of
    [nn.MultiheadAttention]. *)
Lemma ref_attention_shape :
  forall w name E H (q k v : FT) L N Sk,
    shape q = [L; N; E] -> shape k = [Sk; N; E] -> shape v = [Sk; N; E] ->
    0 < H -> E mod H = 0 -> 0 < N ->
    exists y, ref_attention w name E H q k v None = Some y /\ shape y = [L; N; E].
Proof.
  intros w name E H q k v L N Sk Hq Hk Hv HH Hmod HN.
  unfold ref_attention. rewrite Hq, Hk, Hv.
  rewrite !Nat.eqb_refl, Hmod. cbn [forallb2 andb Nat.eqb].
  rewrite !Nat.eqb_refl.
  replace (0 <? H) with true by (symmetry; now apply Nat.ltb_lt).
  replace (0 <? N) with true by (symmetry; now apply Nat.ltb_lt).
  eexists. split; reflexivity.
Qed.

Lemma ref_attention_batch :
  forall w name E H (q k v : FT) L Nq Sk Nk,
    shape q = [L; Nq; E] -> shape k = [Sk; Nk; E] -> shape v = [Sk; Nk; E] ->
    0 < H -> E mod H = 0 -> 0 < E -> 0 < Sk -> Nk <> Nq ->
    ref_attention w name E H q k v None = None.
Proof.
  intros w name E H q k v L Nq Sk Nk Hq Hk Hv HH Hmod HE HS Hne.
  unfold ref_attention. rewrite Hq, Hk.
  replace (Nk =? Nq) with false by (symmetry; now apply Nat.eqb_neq).
  now rewrite !andb_false_r.
Qed.

(** ** Examples *)

Example wrap_dim_examples :
  wrap_dim 3 (-1) = Ok 2 /\ wrap_dim 3 1 = Ok 1 /\ wrap_dim 3 3 = Raise IndexError /\
  wrap_dim 0 (-1) = Ok 0.
Proof. repeat split. Qed.

(** The largest score is met first at position 1; the later tie does not win. *)
Example argmax_first_occurrence :
  argmax (fun k => match k with 0 => 1 | _ => 3 end)%R 3 = 1.
Proof.
  simpl.
  destruct (Rlt_dec 1 1); simpl;
    (destruct (Rlt_dec 1 3); [|exfalso; lra]); simpl;
    (destruct (Rlt_dec 3 3); [exfalso; lra|]); reflexivity.
Qed.

(** With the constructor's default patch size the grid side is 7, and 196
    patches are the doubled grid: the grouping branch is taken as well. *)
Example default_patch_size_branch :
  forall self, SegViT_init 768 32 224 10 2 8 = Ok self ->
               patch_len self = 7 /\ do_mae_mask self 196 = false /\
               do_mae_mask self 49 = false /\ do_mae_mask self 197 = true.
Proof.
  intros self E. vm_compute in E. injection E as <-.
  repeat split.
Qed.

(** A width below 64 gives no attention head, and a width of 200 gives three
    heads, which do not divide it: the constructor returns no model in either
    case. *)
Example constructor_rejects_bad_head_count :
  forall self,
    SegViT_init 32 16 224 10 2 8 <> Ok self /\
    SegViT_init 200 16 224 10 2 8 <> Ok self /\
    SegViT_init 200 16 224 0 0 8 <> Ok self.
Proof. intros self. repeat split; discriminate. Qed.

Example constructor_rejects_zero_patch_size :
  SegViT_init 768 0 224 10 2 8 = Raise ZeroDivisionError.
Proof. reflexivity. Qed.

(** Scores 0 and 1 for two tokens at one patch position: outside training the
    hard routing gives the patch to the second token. *)
Example hard_routing_picks_the_larger_score :
  exists ret,
    gumbel_softmax (ramp [1; 2; 1]) 0.9 true 1 false (eval_state (1 / 2))
    = (Ok ret, eval_state (1 / 2)) /\
    val (get ret [0; 0; 0]) = 0%R /\ val (get ret [0; 1; 0]) = 1%R.
Proof.
  assert (Hd : wrap_dim (ndim (ramp [1; 2; 1])) 1 = Ok 1) by reflexivity.
  assert (Hn : 0 < dim_size (shape (ramp [1; 2; 1])) 1) by (unfold dim_size; simpl; lia).
  destruct (@gumbel_softmax_hard_run (ramp [1; 2; 1]) 0.9 1 1 false (eval_state (1 / 2)) Hd Hn)
    as (ret & s' & Hrun & _ & _).
  destruct (@gumbel_softmax_inference_values (ramp [1; 2; 1]) ret 0.9 1 1 _ _ Hd Hn Hrun)
    as (y & Hy & -> & Hval).
  exists ret. split; [exact Hrun|].
  rewrite (softmax_ok (ramp [1; 2; 1]) 1 Hd) in Hy. injection Hy as <-.
  assert (Hlt : (exp 0 / (0 + exp 0 + exp 1) < exp 1 / (0 + exp 0 + exp 1))%R).
  { pose proof (exp_pos 0). pose proof (exp_pos 1).
    pose proof (exp_increasing 0 1 ltac:(lra)).
    apply Rmult_lt_compat_r; [apply Rinv_0_lt_compat; lra|assumption]. }
  assert (Hpick : forall n : nat, n < 2 ->
             val (get ret [0; n; 0]) = (if n =? 1 then 1%R else 0%R)).
  { intros n Hlt2. rewrite (Hval [0; n; 0])
      by (constructor; [lia|constructor; [exact Hlt2|constructor; [lia|constructor]]]).
    cbn -[exp Rlt_dec Nat.eqb]. rewrite Rplus_0_l in *.
    destruct (Rlt_dec (exp 0 / (exp 0 + exp 1)) (exp 0 / (exp 0 + exp 1)));
      cbn [INR]; (destruct (Rlt_dec _ _) as [_|H]; [reflexivity|contradiction]). }
  split; [apply (Hpick 0)|apply (Hpick 1)]; lia.
Qed.

(** The layout permutation comes before the mask check: a two-axis input is
    rejected by [permute], mask or no mask. *)
Example two_axis_input_is_rejected_first :
  forall self mask,
    SegViT_forward ref_attention quick_gelu self (zeros [4; 64]) mask (-1)
                   (eval_state (1 / 2))
    = (Raise RuntimeError, eval_state (1 / 2)).
Proof. intros self mask. reflexivity. Qed.

(** ** Instances of the main properties *)

Lemma gumbel_softmax_training_example :
  (wrap_dim (ndim (ramp [1; 2; 1])) 1 = Ok 1 /\ 0 < dim_size (shape (ramp [1; 2; 1])) 1) /\
  exists ret s',
    gumbel_softmax (ramp [1; 2; 1]) 0.9 true 1 true (train_state (1 / 2)) = (Ok ret, s') /\
    shape ret = [1; 2; 1].
Proof.
  split; [split; [reflexivity|unfold dim_size; simpl; lia]|].
  destruct (@gumbel_softmax_training_straight_through
              (ramp [1; 2; 1]) 0.9 1 1 (train_state (1 / 2)) eq_refl ltac:(unfold dim_size; simpl; lia))
    as (_ & relaxed & _ & _ & _ & index & y_hard & t & ret & _ & _ & _ & Hrun & Hs & _).
  exists ret. eexists. split; [exact Hrun|exact Hs].
Defined.

Lemma semantic_learner_inference_example :
  (shape (ramp [1; 3; 2]) = [1; 3; 2] /\ 0 < 1 /\ 2 mod 1 = 0 /\ 0 < 2 /\
   training (eval_state (1 / 2)) = false /\ 0 < 3 /\ (0 = 0 \/ 2 + 3 = 1)) /\
  exists outputs hard soft q_feat,
    SemanticLearnerModule_forward ref_attention quick_gelu
      (SemanticLearnerModule_init "semantic_layer2" 2 2 1 0) (ramp [1; 3; 2])
      (eval_state (1 / 2))
    = (Ok (outputs, hard, soft, q_feat), eval_state (1 / 2)) /\
    rsum 2 (fun n => val (get soft [0; n; 1])) = 1%R.
Proof.
  split; [repeat split; try lia; left; reflexivity|].
  destruct (@semantic_learner_routing_maps_at_inference
              ref_attention quick_gelu ref_attention_shape ref_attention_batch
              "semantic_layer2" 2 2 1 0 (ramp [1; 3; 2]) 1 3 (eval_state (1 / 2))
              eq_refl ltac:(lia) eq_refl ltac:(lia) ltac:(lia) ltac:(lia) eq_refl)
    as (Hany & Hruns & _).
  destruct (Hruns ltac:(lia) (or_introl eq_refl)) as (outputs & hard & soft & q_feat & Hrun).
  exists outputs, hard, soft, q_feat. split; [exact Hrun|].
  destruct (Hany outputs hard soft q_feat _ Hrun) as (_ & _ & _ & _ & Hmaps).
  destruct (Hmaps 0 1 ltac:(lia) ltac:(lia)) as [_ Hsum]. exact Hsum.
Defined.

Lemma semantic_learner_aggregation_example :
  (shape (ramp [1; 3; 2]) = [1; 3; 2] /\ 0 < 1 /\ 2 mod 1 = 0 /\ 0 < 2 /\
   0 < 3 /\ (0 = 0 \/ 2 + 3 = 1)) /\
  exists res,
    SemanticLearnerModule_forward ref_attention quick_gelu
      (SemanticLearnerModule_init "semantic_layer2" 2 2 1 0) (ramp [1; 3; 2])
      (train_state (1 / 2))
    = (Ok res, after_routing 1 2 3 (train_state (1 / 2))).
Proof.
  split; [repeat split; try lia; left; reflexivity|].
  destruct (@semantic_learner_aggregation_floor
              ref_attention quick_gelu ref_attention_shape ref_attention_batch
              "semantic_layer2" 2 2 1 0 (ramp [1; 3; 2]) 1 3 (train_state (1 / 2))
              eq_refl ltac:(lia) eq_refl ltac:(lia) ltac:(lia) ltac:(lia))
    as (_ & _ & Hruns & _).
  exact (Hruns ltac:(lia) (or_introl eq_refl)).
Defined.

Lemma segvit_branch_selection_example :
  exists self,
    SegViT_init 64 16 224 10 2 8 = Ok self /\
    patch_len self = 14 /\ do_mae_mask self 196 = false /\ do_mae_mask self 150 = true.
Proof.
  destruct (SegViT_init 64 16 224 10 2 8) as [self|e] eqn:E;
    [|vm_compute in E; discriminate].
  exists self. split; [reflexivity|].
  destruct (@segvit_branch_selection ref_attention quick_gelu 64 10 2 8 self E)
    as (Hp & _ & H196 & _ & H150 & _).
  repeat split; assumption.
Defined.

(** The scenario of C5 with the constructor's defaults: the forward pass
    raises in the first cross-attention block. *)
Lemma segvit_end_to_end_example :
  exists self,
    (16 = 16 \/ 16 = 32) /\
    SegViT_init 768 16 224 10 2 8 = Ok self /\
    shape (zeros [197; 2; 768]) = [197; 2; 768] /\
    0 < 2 /\
    SegViT_forward ref_attention quick_gelu self (zeros [197; 2; 768]) None (-1)
                   (eval_state (1 / 2))
    = (Raise RuntimeError, eval_state (1 / 2)).
Proof.
  destruct (SegViT_init 768 16 224 10 2 8) as [self|e] eqn:E;
    [|vm_compute in E; discriminate].
  destruct (@segvit_end_to_end_scenario
              ref_attention quick_gelu ref_attention_shape ref_attention_batch
              16 2 self (zeros [197; 2; 768]) (-1) (eval_state (1 / 2))
              (or_introl eq_refl) E eq_refl)
    as (Hraise & _).
  exists self. split; [left; reflexivity|]. split; [reflexivity|].
  split; [reflexivity|]. split; [lia|]. apply Hraise. lia.
Defined.

Lemma reconstruct_layer_example :
  (shape (ramp [1; 2; 1]) = [1; 2; 1] /\ shape (zeros [1; 2; 3]) = [1; 2; 3]) /\
  exists outputs,
    ReconstructLayer_forward (ReconstructLayer_init "reconstruct_layer2" 2 768)
                             (ramp [1; 2; 1]) (zeros [1; 2; 3]) (eval_state (1 / 2))
    = (Ok outputs, eval_state (1 / 2)) /\
    shape outputs = [1; 3; 1].
Proof.
  split; [split; reflexivity|].
  destruct (@reconstruct_layer_shape "reconstruct_layer2" 2 768
              (ramp [1; 2; 1]) (zeros [1; 2; 3]) 1 3 1 (eval_state (1 / 2)) eq_refl eq_refl)
    as (outputs & Hrun & Hs & _).
  exists outputs. split; assumption.
Defined.

(** C6, as stated, fails: a layer constructed with out_channels = Len = 3 and
    given a per-patch sequence of shape (B, Len, C) = (1, 3, 1) with a routing
    map of shape (B, N, Len) = (1, 2, 3) does not return a (1, 3, 1) tensor;
    it raises, for in_channels = N = 2 (the contraction meets 3 against 2) and
    for every other choice of in_channels (the linear layer rejects the map). *)
Lemma reconstruct_layer_rejects_patch_sequence :
  ReconstructLayer_forward (ReconstructLayer_init "reconstruct_layer2" 2 3)
                           (zeros [1; 3; 1]) (zeros [1; 2; 3]) (eval_state (1 / 2))
  = (Raise RuntimeError, eval_state (1 / 2)) /\
  (forall in_channels,
      fst (ReconstructLayer_forward
             (ReconstructLayer_init "reconstruct_layer2" in_channels 3)
             (zeros [1; 3; 1]) (zeros [1; 2; 3]) (eval_state (1 / 2)))
      = Raise RuntimeError) /\
  ~ (exists in_channels outputs s',
        ReconstructLayer_forward
          (ReconstructLayer_init "reconstruct_layer2" in_channels 3)
          (zeros [1; 3; 1]) (zeros [1; 2; 3]) (eval_state (1 / 2)) = (Ok outputs, s') /\
        shape outputs = [1; 3; 1]).
Proof.
  assert (H : forall in_channels,
             fst (ReconstructLayer_forward
                    (ReconstructLayer_init "reconstruct_layer2" in_channels 3)
                    (zeros [1; 3; 1]) (zeros [1; 2; 3]) (eval_state (1 / 2)))
             = Raise RuntimeError).
  { intros ic. unfold ReconstructLayer_forward, Linear_forward, read_param, get_params,
      bind, lift, ret, linear. cbn.
    destruct ic as [|[|[|ic]]]; reflexivity. }
  split; [reflexivity|]. split; [exact H|].
  intros (ic & outputs & s' & Hrun & _). specialize (H ic). rewrite Hrun in H. discriminate.
Qed.

Lemma inference_determinism_example :
  (training (eval_state (1 / 2)) = false /\ training (eval_state (1 / 3)) = false /\
   params (eval_state (1 / 2)) = params (eval_state (1 / 3))) /\
  forall self,
    fst (SegViT_forward ref_attention quick_gelu self (ramp [4; 1; 64]) None (-1)
                        (eval_state (1 / 2)))
    = fst (SegViT_forward ref_attention quick_gelu self (ramp [4; 1; 64]) None (-1)
                          (eval_state (1 / 3))).
Proof.
  split; [repeat split|].
  intros self.
  destruct (@inference_forward_is_deterministic ref_attention quick_gelu
              self (ramp [4; 1; 64]) None (-1) (semantic_layer2 self) (ramp [1; 3; 64])
              (eval_state (1 / 2)) (eval_state (1 / 3)) eq_refl eq_refl eq_refl)
    as (H & _).
  exact H.
Defined.

Lemma attention_mask_example :
  ndim (ramp [4; 1; 64]) = 3 /\
  forall self,
    fst (SegViT_forward ref_attention quick_gelu self (ramp [4; 1; 64])
                        (Some (MaskTensor (zeros [1; 4]))) (-1) (train_state (1 / 2)))
    = Raise NotImplementedError.
Proof.
  split; [reflexivity|].
  intros self.
  destruct (@attention_mask_is_rejected ref_attention quick_gelu
              self (ramp [4; 1; 64]) (Some (MaskTensor (zeros [1; 4]))) (-1)
              (train_state (1 / 2)) eq_refl)
    as ([_ H] & _).
  apply H. discriminate.
Defined.

(** The reconstruction branch with the constructor's defaults, on a
    sequence of 150 patches and a batch of 2: the forward pass raises. *)
Lemma segvit_reconstruction_path_example :
  exists self,
    SegViT_init 768 16 224 10 2 8 = Ok self /\
    (0 < 8 /\ 0 < 2) /\
    shape (zeros [1 + 150; 2; 768]) = [1 + 150; 2; 768] /\
    (patch_len self ^ 2 <> 150 /\ 4 * (patch_len self ^ 2) <> 150) /\
    ~ (0 < 150 /\ (2 = 0 \/ 8 + 150 = 2)) /\
    SegViT_forward ref_attention quick_gelu self (zeros [1 + 150; 2; 768]) None (-1)
                   (train_state (1 / 2))
    = (Raise RuntimeError, train_state (1 / 2)).
Proof.
  destruct (SegViT_init 768 16 224 10 2 8) as [self|e] eqn:E;
    [|vm_compute in E; discriminate].
  assert (Hp : patch_len self = 14).
  { destruct (@SegViT_init_fields _ _ _ _ _ _ _ E) as (_ & _ & _ & ->). reflexivity. }
  assert (H1 : patch_len self ^ 2 <> 150) by (rewrite Hp; vm_compute; lia).
  assert (H2 : 4 * (patch_len self ^ 2) <> 150) by (rewrite Hp; vm_compute; lia).
  assert (Hno : ~ (0 < 150 /\ (2 = 0 \/ 8 + 150 = 2))) by lia.
  destruct (@segvit_reconstruction_path_length
              ref_attention quick_gelu ref_attention_shape ref_attention_batch
              768 16 224 10 2 8 self (zeros [1 + 150; 2; 768]) 2 150 (-1)
              (train_state (1 / 2))
              E ltac:(lia) ltac:(lia) eq_refl H1 H2)
    as (Hraise & _).
  exists self.
  split; [reflexivity|]. split; [split; lia|]. split; [reflexivity|].
  split; [split; assumption|]. split; [exact Hno|]. exact (Hraise Hno).
Defined.

(** ** Instances of the further properties *)

Lemma gumbel_softmax_inference_example :
  (wrap_dim (ndim (ramp [1; 2; 1])) 1 = Ok 1 /\ 0 < dim_size (shape (ramp [1; 2; 1])) 1) /\
  exists ret,
    gumbel_softmax (ramp [1; 2; 1]) 0.9 true 1 false (eval_state (1 / 2))
    = (Ok ret, eval_state (1 / 2)) /\
    gumbel_softmax (ramp [1; 2; 1]) 5 true 1 false (eval_state (1 / 2))
    = (Ok ret, eval_state (1 / 2)) /\
    shape ret = [1; 2; 1].
Proof.
  split; [split; [reflexivity|unfold dim_size; simpl; lia]|].
  destruct (@gumbel_softmax_inference_picks_first_maximum
              (ramp [1; 2; 1]) 0.9 5 1 1 (eval_state (1 / 2)) eq_refl
              ltac:(unfold dim_size; simpl; lia))
    as (ret & y_soft & _ & H1 & H2 & Hs & _).
  exists ret. split; [exact H1|]. split; [exact H2|exact Hs].
Defined.



Lemma residual_block_example :
  (0 < 1 /\ 2 mod 1 = 0 /\ shape (zeros [1; 3; 2]) = [1; 3; 2]) /\
  exists y,
    ResidualAttentionBlock_forward ref_attention
      (ResidualAttentionBlock_init "blk" 2 1 0) (zeros [1; 3; 2]) None (eval_state (1 / 2))
    = (Ok y, eval_state (1 / 2)) /\
    shape y = [1; 3; 2].
Proof.
  split; [repeat split; lia|].
  destruct (@residual_block_keeps_shape ref_attention ref_attention_shape
              "blk" 2 1 (zeros [1; 3; 2]) 1 3 (eval_state (1 / 2))
              ltac:(lia) eq_refl ltac:(lia))
    as (H & _).
  exact (H eq_refl).
Defined.

Lemma cross_attention_block_example :
  (0 < 1 /\ 2 mod 1 = 0 /\ 0 < 2 /\
   shape (zeros [1; 2; 2]) = [1; 2; 2] /\ shape (zeros [1; 3; 2]) = [1; 3; 2] /\
   shape (zeros [1; 1; 2]) = [1; 1; 2] /\ 3 <> 1) /\
  CrossAttentionBlock_forward ref_attention
    (CrossAttentionBlock_init "blk" 2 1) (zeros [1; 2; 2]) (zeros [1; 3; 2])
    (eval_state (1 / 2))
  = (Raise RuntimeError, eval_state (1 / 2)) /\
  exists y,
    CrossAttentionBlock_forward ref_attention
      (CrossAttentionBlock_init "blk" 2 1) (zeros [1; 2; 2]) (zeros [1; 1; 2])
      (eval_state (1 / 2))
    = (Ok y, eval_state (1 / 2)) /\
    shape y = [1; 2; 2].
Proof.
  split; [repeat split; lia|].
  split.
  - destruct (@cross_attention_block_key_layout ref_attention ref_attention_shape
                ref_attention_batch
                "blk" 2 1 (zeros [1; 2; 2]) (zeros [1; 3; 2]) 1 2 3 (eval_state (1 / 2))
                ltac:(lia) eq_refl ltac:(lia) ltac:(lia))
      as (_ & H & _).
    apply H; [reflexivity|reflexivity|lia].
  - destruct (@cross_attention_block_key_layout ref_attention ref_attention_shape
                ref_attention_batch
                "blk" 2 1 (zeros [1; 2; 2]) (zeros [1; 1; 2]) 1 2 1 (eval_state (1 / 2))
                ltac:(lia) eq_refl ltac:(lia) ltac:(lia))
      as (H & _).
    exact (H eq_refl eq_refl eq_refl).
Defined.

Lemma mixer_mlp_example :
  (drop (Mlp_init "mix" 3 None None 0) = 0%R /\
   out_features (fc1 (Mlp_init "mix" 3 None None 0))
   = in_features (fc2 (Mlp_init "mix" 3 None None 0))) /\
  exists y,
    MixerMlp_forward quick_gelu (Mlp_init "mix" 3 None None 0) (zeros [1; 3; 2])
                     (train_state (1 / 2))
    = (Ok y, train_state (1 / 2)) /\
    shape y = [1; 3; 2].
Proof.
  split; [split; reflexivity|].
  destruct (@MixerMlp_mixes_along_axis_one quick_gelu (Mlp_init "mix" 3 None None 0)
              (zeros [1; 3; 2]) 1 2 (train_state (1 / 2)) eq_refl eq_refl)
    as (H & _).
  destruct (H eq_refl) as (y & Hrun & Hs & _).
  exists y. split; [exact Hrun|exact Hs].
Defined.

Lemma trunc_normal_example :
  ((forall u v : R, (u <= v)%R -> (u <= v)%R) /\ (-2 <= 2)%R /\ (0 < 1)%R) /\
  exists warned s',
    trunc_normal_ (fun x => x) (fun x => x) "w" [2; 3] 0 1 (-2) 2 (eval_state (1 / 2))
    = (Ok warned, s') /\
    forall idx, (-2 <= val (params s' "w" idx) <= 2)%R.
Proof.
  split; [split; [intros u v H; exact H|split; lra]|].
  destruct (@trunc_normal_fills_within_bounds (fun x => x) (fun x => x) "w" [2; 3]
              0 1 (-2) 2 (eval_state (1 / 2)) (fun u v H => H) ltac:(lra))
    as (H & _).
  destruct (H ltac:(lra)) as (warned & s' & Hrun & _ & Hval & _).
  exists warned, s'. split; [exact Hrun|]. intros idx. apply Hval.
Defined.

Lemma init_weights_example :
  (forall u v : R, (u <= v)%R -> (u <= v)%R) /\
  (exists s',
      _init_weights (fun x => x) (fun x => x) (IsLinear (mkLinear "fc" 2 3))
                    (eval_state (1 / 2)) = (Ok tt, s') /\
      forall idx, params s' (sub "fc" "bias") idx = dconst 0) /\
  _init_weights (fun x => x) (fun x => x) (IsConv1d (mkConv1d "k_conv" 2 2 1))
                (eval_state (1 / 2)) = (Ok tt, eval_state (1 / 2)).
Proof.
  split; [intros u v H; exact H|].
  destruct (@init_weights_linear_and_others (fun x => x) (fun x => x)
              (mkLinear "fc" 2 3) (mkConv1d "k_conv" 2 2 1)
              (mkMultiheadAttention "attn" 2 1) (eval_state (1 / 2)) (fun u v H => H))
    as ((s' & Hrun & _ & Hb & _) & Hc & _).
  split; [exists s'; split; [exact Hrun|exact Hb]|exact Hc].
Defined.

Lemma grouping_summary_example :
  exists self out mid s',
    SegViT_init 768 16 224 10 0 8 = Ok self /\
    (0 < 8 /\ 0 < 2 /\ 0 < 196 /\ (0 = 0 \/ 8 + 196 = 2)) /\
    do_mae_mask self 196 = false /\
    SegViT_forward ref_attention quick_gelu self (zeros [197; 2; 768]) None (-1)
                   (eval_state (1 / 2)) = (Ok (out, mid), s') /\
    shape out = [9; 2; 768] /\
    forall n, n < 8 ->
              (val (get out [S n; 0%nat; 0%nat]) <= val (get out [0%nat; 0%nat; 0%nat]))%R.
Proof.
  destruct (SegViT_init 768 16 224 10 0 8) as [self|e] eqn:E;
    [|vm_compute in E; discriminate].
  assert (Hmask : do_mae_mask self 196 = false).
  { destruct (@SegViT_init_fields _ _ _ _ _ _ _ E) as (_ & _ & _ & ->). reflexivity. }
  destruct (@grouping_summary_token_is_channelwise_max
              ref_attention quick_gelu ref_attention_shape
              768 16 224 10 0 8 self (zeros [197; 2; 768]) 2 196 (-1) (eval_state (1 / 2))
              E ltac:(lia) eq_refl ltac:(lia) ltac:(lia) (or_introl eq_refl) Hmask)
    as ([out mid] & s' & Hrun & _ & Hs & Hv).
  exists self, out, mid, s'.
  split; [reflexivity|]. split; [repeat split; try lia; left; reflexivity|].
  split; [exact Hmask|]. split; [exact Hrun|].
  split; [exact Hs|]. intros n Hn. apply (proj2 (Hv 0 0) n Hn).
Defined.

Lemma reconstruction_column_example :
  (shape (zeros [1; 2; 3]) = [1; 2; 3] /\ shape (zeros [1; 2; 4]) = [1; 2; 4]) /\
  exists y s',
    ReconstructLayer_forward (ReconstructLayer_init "reconstruct_layer2" 2 4)
                             (zeros [1; 2; 3]) (zeros [1; 2; 4]) (eval_state (1 / 2))
    = (Ok y, s') /\
    shape y = [1; 4; 3] /\ get y [0; 0; 0] = get y [0; 1; 0].
Proof.
  split; [split; reflexivity|].
  destruct (@reconstruction_depends_on_routing_column_only
              "reconstruct_layer2" 2 4 (zeros [1; 2; 3]) (zeros [1; 2; 4]) 1 4 3
              (eval_state (1 / 2)) eq_refl eq_refl)
    as (y & s' & Hrun & _ & Hs & Hcol).
  exists y, s'. split; [exact Hrun|]. split; [exact Hs|].
  apply (Hcol 0 0 1); [lia|]. intros j Hj. reflexivity.
Defined.

Lemma aggregation_average_example :
  (shape (mkTensor [1; 1; 2] (fun _ => dconst 1)) = [1; 1; 2] /\
   shape (mkTensor [1; 2; 1] (fun _ => dconst 3)) = [1; 2; 1] /\
   exists t, t < 2 /\ (fun _ : nat => true) t = true) /\
  exists agg,
    aggregate (mkTensor [1; 1; 2] (fun _ => dconst 1))
              (mkTensor [1; 2; 1] (fun _ => dconst 3)) = Ok agg /\
    (3 <= val (get agg [0%nat; 0%nat; 0%nat]) <= 3)%R.
Proof.
  split; [split; [reflexivity|split; [reflexivity|exists 0; split; [lia|reflexivity]]]|].
  destruct (@aggregation_averages_the_routed_patches
              (mkTensor [1; 1; 2] (fun _ => dconst 1))
              (mkTensor [1; 2; 1] (fun _ => dconst 3))
              1 1 2 1 (fun _ => true) 0 0 0 3 3 eq_refl eq_refl
              ltac:(lia) ltac:(lia) ltac:(lia)
              ltac:(intros t Ht; reflexivity)
              ltac:(intros t Ht Hsel; simpl; lra))
    as (agg & Hagg & _ & Hin & _).
  exists agg. split; [exact Hagg|].
  apply Hin. exists 0. split; [lia|reflexivity].
Defined.

Lemma training_forward_example :
  exists self res,
    SegViT_init 768 16 224 10 0 8 = Ok self /\
    (0 < 8 /\ 0 < 2 /\ 0 < 196 /\ (0 = 0 \/ 8 + 196 = 2)) /\
    shape (zeros [197; 2; 768]) = [197; 2; 768] /\
    SegViT_forward ref_attention quick_gelu self (zeros [197; 2; 768]) None (-1)
                   (train_state (1 / 2))
    = (Ok res, advance (2 * 8 * 196) (train_state (1 / 2))).
Proof.
  destruct (SegViT_init 768 16 224 10 0 8) as [self|e] eqn:E;
    [|vm_compute in E; discriminate].
  destruct (@forward_draws_one_variate_per_routing_score
              ref_attention quick_gelu ref_attention_shape ref_attention_batch
              768 16 224 10 0 8 self (zeros [197; 2; 768]) 2 196 (-1) (train_state (1 / 2))
              E ltac:(lia) eq_refl ltac:(lia))
    as (Hrun & _).
  destruct (Hrun ltac:(lia) (or_introl eq_refl)) as (res & Eres).
  exists self, res. split; [reflexivity|].
  split; [repeat split; try lia; left; reflexivity|].
  split; [reflexivity|exact Eres].
Defined.
